(** * SwiftShip front end (app.js): pricing estimator and supplies cart

    A shallow embedding of the pricing heuristic [estimatePrice] and of the
    cart kept in [localStorage] ([getCart], [setCart], [addToCart],
    [changeQty], [renderCart] and the checkout click handler), with the
    properties the specification states about them.

    Conventions of the embedding.
    - A JavaScript string is the list of its UTF-16 code units ([jsstring]).
    - A JavaScript number used in price arithmetic is an IEEE-754 binary64
      value ([spec_float] at precision 53, [emax] 1024); a decimal literal of
      the source is the correctly rounded quotient of two exact integers.
    - A cart line is [{id, qty}] with an integer quantity, as the persisted
      layout has it.  The quantity is a JavaScript number: the typed view of
      the cart holds integers of magnitude at most 2^53, which binary64
      holds exactly, and [qty + d] is the binary64 sum ([plus]), which is
      [2^53] again for [2^53 + 1].
    - Code that touches [localStorage] runs in a state-and-exception monad
      over the content of the ['cart'] slot. *)

From Stdlib Require Import List ZArith NArith Lia Bool String Ascii.
From Stdlib Require Import Floats.SpecFloat.
Import ListNotations.

Set Warnings "-register-all".

(* ================================================================= *)
(** ** JavaScript strings *)

Definition jsstring := list N.

(** Code units of an ASCII literal of the source. *)
Definition u (s : string) : jsstring :=
  map N_of_ascii (list_ascii_of_string s).

(** [a === b] on strings: the same sequence of code units. *)
Fixpoint str_eqb (a b : jsstring) : bool :=
  match a, b with
  | [], [] => true
  | x :: a', y :: b' => N.eqb x y && str_eqb a' b'
  | _, _ => false
  end.

(* ================================================================= *)
(** ** Completions: a call returns normally or throws *)

Inductive exn := SyntaxError | TypeError.

(** [Unmodelled] marks a run that left the typed data model (a stored JSON
    value that is not an array of [{id, qty}] lines, or a quantity that is
    not an integer of magnitude at most 2^53): what the dynamically typed
    source does from there on is not described. *)
Inductive completion (A : Type) :=
| Normal (a : A)
| Throw (e : exn)
| Unmodelled.
Arguments Normal {A} a.
Arguments Throw {A} e.
Arguments Unmodelled {A}.

(* ================================================================= *)
(** ** JSON values and [JSON.parse] *)

(** Code units that the grammar names: 34 quotation mark, 44 comma,
    45 minus, 46 full stop, 48 to 57 the digits, 58 colon, 69 and 101 the
    letters E and e, 91 and 93 the square brackets, 92 reverse solidus,
    123 and 125 the curly brackets, 102 110 116 117 the letters f n t u. *)

(** A JSON number literal, [coeff * 10 ^ exp10], as it is written;
    [as_integer] below rounds it to the binary64 number that [JSON.parse]
    returns. *)
Record jnumber := { coeff : Z; exp10 : Z }.

(** An object is the list of its properties in the order of creation. *)

Inductive json :=
| JNull
| JBool (b : bool)
| JNum (n : jnumber)
| JStr (s : jsstring)
| JArr (l : list json)
| JObj (m : list (jsstring * json)).

Inductive presult (A : Type) :=
| POk (a : A) (rest : jsstring)
| PErr
| PFuel.
Arguments POk {A} a rest.
Arguments PErr {A}.
Arguments PFuel {A}.

Definition pbind {A B} (p : presult A) (k : A -> jsstring -> presult B)
  : presult B :=
  match p with
  | POk a rest => k a rest
  | PErr => PErr
  | PFuel => PFuel
  end.

Open Scope N_scope.

(** JSON white space: space, tab, line feed, carriage return. *)
Definition is_ws (c : N) : bool :=
  (c =? 32) || (c =? 9) || (c =? 10) || (c =? 13).

Fixpoint skip_ws (s : jsstring) : jsstring :=
  match s with
  | c :: r => if is_ws c then skip_ws r else s
  | [] => []
  end.

Definition is_digit (c : N) : bool := (48 <=? c) && (c <=? 57).

Definition hexval (c : N) : option N :=
  if is_digit c then Some (c - 48)
  else if (97 <=? c) && (c <=? 102) then Some (c - 87)
  else if (65 <=? c) && (c <=? 70) then Some (c - 55)
  else None.

Definition hex4 (a b c d : N) : option N :=
  match hexval a, hexval b, hexval c, hexval d with
  | Some x, Some y, Some z, Some w => Some (4096 * x + 256 * y + 16 * z + w)
  | _, _, _, _ => None
  end.

(** The single-character escapes after a backslash. *)
Definition unescape (e : N) : option N :=
  if e =? 34 then Some 34          (* quotation mark *)
  else if e =? 92 then Some 92     (* reverse solidus *)
  else if e =? 47 then Some 47     (* solidus *)
  else if e =? 98 then Some 8      (* b: backspace *)
  else if e =? 102 then Some 12    (* f: form feed *)
  else if e =? 110 then Some 10    (* n: line feed *)
  else if e =? 114 then Some 13    (* r: carriage return *)
  else if e =? 116 then Some 9     (* t: tab *)
  else None.

(** The characters of a string literal, after the opening quote. *)
Fixpoint str_chars (s : jsstring) {struct s} : presult jsstring :=
  match s with
  | [] => PErr
  | c :: r =>
    if c =? 34 then POk [] r
    else if c =? 92 then
      match r with
      | [] => PErr
      | e :: r1 =>
        if e =? 117 then
          match r1 with
          | h1 :: h2 :: h3 :: h4 :: r2 =>
            match hex4 h1 h2 h3 h4 with
            | Some v => pbind (str_chars r2) (fun t rest => POk (v :: t) rest)
            | None => PErr
            end
          | _ => PErr
          end
        else
          match unescape e with
          | Some v => pbind (str_chars r1) (fun t rest => POk (v :: t) rest)
          | None => PErr
          end
      end
    else if c <? 32 then PErr
    else pbind (str_chars r) (fun t rest => POk (c :: t) rest)
  end.

(** A maximal run of digits, accumulated in base ten; also counts them. *)
Fixpoint digits (s : jsstring) (acc cnt : N) : N * N * jsstring :=
  match s with
  | c :: r => if is_digit c then digits r (10 * acc + (c - 48)) (cnt + 1)
              else (acc, cnt, s)
  | [] => (acc, cnt, [])
  end.

(** int: [0], or a non-zero digit followed by digits. *)
Definition num_int (s : jsstring) : presult N :=
  match s with
  | c :: r =>
    if c =? 48 then POk 0 r
    else if is_digit c then
      let '(v, _, rest) := digits r (c - 48) 0 in POk v rest
    else PErr
  | [] => PErr
  end.

(** frac: nothing, or [.] and at least one digit; extends the coefficient. *)
Definition num_frac (ip : N) (s : jsstring) : presult (N * N) :=
  match s with
  | c :: r =>
    if c =? 46 then
      let '(v, k, rest) := digits r ip 0 in
      if k =? 0 then PErr else POk (v, k) rest
    else POk (ip, 0) s
  | [] => POk (ip, 0) []
  end.

(** exp: nothing, or [e]/[E], an optional sign and at least one digit. *)
Definition num_exp (s : jsstring) : presult Z :=
  match s with
  | c :: r =>
    if (c =? 101) || (c =? 69) then
      let '(neg, r1) :=
        match r with
        | g :: r' => if g =? 45 then (true, r')
                     else if g =? 43 then (false, r') else (false, r)
        | [] => (false, r)
        end in
      let '(v, k, rest) := digits r1 0 0 in
      if k =? 0 then PErr
      else POk (if neg then Z.opp (Z.of_N v) else Z.of_N v) rest
    else POk 0%Z s
  | [] => POk 0%Z []
  end.

(** number: an optional minus sign, then int, frac and exp. *)
Definition number_after_sign (neg : bool) (s1 : jsstring) : presult jnumber :=
  pbind (num_int s1) (fun ip s2 =>
  pbind (num_frac ip s2) (fun '(m, k) s3 =>
  pbind (num_exp s3) (fun ex s4 =>
    POk {| coeff := if neg then Z.opp (Z.of_N m) else Z.of_N m;
           exp10 := (ex - Z.of_N k)%Z |} s4))).

Definition parse_number (s : jsstring) : presult jnumber :=
  match s with
  | c :: r => if c =? 45 then number_after_sign true r
              else number_after_sign false s
  | [] => PErr
  end.

(** [expect w s]: the input continues with the code units [w]. *)
Fixpoint expect (w s : jsstring) : option jsstring :=
  match w, s with
  | [], _ => Some s
  | x :: w', y :: s' => if x =? y then expect w' s' else None
  | _ :: _, [] => None
  end.

(** Property definition on a fresh object: a repeated key keeps its place
    and takes the later value. *)
Fixpoint obj_set (k : jsstring) (v : json) (m : list (jsstring * json))
  : list (jsstring * json) :=
  match m with
  | [] => [(k, v)]
  | (k', v') :: m' =>
    if str_eqb k' k then (k', v) :: m' else (k', v') :: obj_set k v m'
  end.

(** The value parser, by recursive descent over the JSON grammar.  The fuel
    bounds the depth of the calls; [JSON_parse] starts with more than the
    input can use (an element costs two calls and is at least one code unit
    long, see [parse_progress]). *)
Fixpoint parse_value (fuel : nat) (s : jsstring) {struct fuel} : presult json :=
  match fuel with
  | O => PFuel
  | S f =>
    match skip_ws s with
    | [] => PErr
    | c :: r =>
      if c =? 34 then pbind (str_chars r) (fun t rest => POk (JStr t) rest)
      else if c =? 91 then
        match skip_ws r with
        | d :: r' => if d =? 93 then POk (JArr []) r'
                     else parse_elements f [] r
        | [] => PErr
        end
      else if c =? 123 then
        match skip_ws r with
        | d :: r' => if d =? 125 then POk (JObj []) r'
                     else parse_members f [] r
        | [] => PErr
        end
      else if c =? 116 then
        match expect (u "rue") r with
        | Some rest => POk (JBool true) rest | None => PErr end
      else if c =? 102 then
        match expect (u "alse") r with
        | Some rest => POk (JBool false) rest | None => PErr end
      else if c =? 110 then
        match expect (u "ull") r with
        | Some rest => POk JNull rest | None => PErr end
      else if (c =? 45) || is_digit c then
        pbind (parse_number (c :: r)) (fun n rest => POk (JNum n) rest)
      else PErr
    end
  end
with parse_elements (fuel : nat) (acc : list json) (s : jsstring)
  {struct fuel} : presult json :=
  match fuel with
  | O => PFuel
  | S f =>
    pbind (parse_value f s) (fun v r =>
      match skip_ws r with
      | d :: r' =>
        if d =? 44 then parse_elements f (v :: acc) r'
        else if d =? 93 then POk (JArr (rev (v :: acc))) r'
        else PErr
      | [] => PErr
      end)
  end
with parse_members (fuel : nat) (acc : list (jsstring * json)) (s : jsstring)
  {struct fuel} : presult json :=
  match fuel with
  | O => PFuel
  | S f =>
    match skip_ws s with
    | q :: r =>
      if q =? 34 then
        pbind (str_chars r) (fun k r1 =>
          match skip_ws r1 with
          | c :: r2 =>
            if c =? 58 then
              pbind (parse_value f r2) (fun v r3 =>
                match skip_ws r3 with
                | d :: r' =>
                  if d =? 44 then parse_members f (obj_set k v acc) r'
                  else if d =? 125 then POk (JObj (obj_set k v acc)) r'
                  else PErr
                | [] => PErr
                end)
            else PErr
          | [] => PErr
          end)
      else PErr
    | [] => PErr
    end
  end.

(** [JSON.parse(text)]: one value, white space around it, nothing else. *)
Definition JSON_parse (text : jsstring) : completion json :=
  match parse_value (2 * List.length text + 2) text with
  | POk v rest =>
    match skip_ws rest with
    | [] => Normal v
    | _ :: _ => Throw SyntaxError
    end
  | PErr => Throw SyntaxError
  | PFuel => Unmodelled
  end.

(* ================================================================= *)
(** ** [JSON.stringify] on carts *)

(** A cart line [{id, qty}] and the cart, an array of lines.  The quantity
    is the integer that the source holds in a binary64 number; the cart
    functions below follow integers of magnitude at most 2^53
    ([exact_integer]), which such a number holds exactly. *)
Record line := { id : jsstring; qty : Z }.
Definition cart := list line.

Definition hexdigit (d : N) : N := if d <? 10 then 48 + d else 87 + d.

(** The six-unit escape: backslash, [u], four lower-case hex digits. *)
Definition uescape (c : N) : jsstring :=
  [92; 117; hexdigit (c / 4096); hexdigit ((c / 256) mod 16);
   hexdigit ((c / 16) mod 16); hexdigit (c mod 16)].

Definition is_high (c : N) : bool := (55296 <=? c) && (c <=? 56319).
Definition is_low (c : N) : bool := (56320 <=? c) && (c <=? 57343).

(** One code point that is not a surrogate, as QuoteJSONString writes it. *)
Definition quote_unit (c : N) : jsstring :=
  if c =? 8 then [92; 98]
  else if c =? 9 then [92; 116]
  else if c =? 10 then [92; 110]
  else if c =? 12 then [92; 102]
  else if c =? 13 then [92; 114]
  else if c =? 34 then [92; 34]
  else if c =? 92 then [92; 92]
  else if c <? 32 then uescape c
  else [c].

(** The body of a quoted string.  A high surrogate followed by a low one is
    a code point above the basic plane and is written as it is; a surrogate
    on its own is escaped.  [paired] tells that the unit before was the
    first half of such a pair. *)
Fixpoint quote_body (paired : bool) (s : jsstring) : jsstring :=
  match s with
  | [] => []
  | c :: r =>
    let opens := is_high c && negb paired &&
                 match r with d :: _ => is_low d | [] => false end in
    if opens then c :: quote_body true r
    else if paired then c :: quote_body false r
    else if is_high c || is_low c then uescape c ++ quote_body false r
    else quote_unit c ++ quote_body false r
  end.

Definition QuoteJSONString (s : jsstring) : jsstring :=
  34 :: quote_body false s ++ [34].

(** Decimal digits of a natural number, most significant first. *)
Fixpoint dec_digits (fuel : nat) (n : N) (acc : jsstring) : jsstring :=
  match fuel with
  | O => acc
  | S f =>
    let acc' := (48 + n mod 10) :: acc in
    if n <? 10 then acc' else dec_digits f (n / 10) acc'
  end.

(** [Number::toString] on an integer of magnitude at most 2^53: such an
    integer is a number, and the source writes all its digits.  Past 2^53
    the source writes the shortest digits that read back as the number, and
    from 10^21 the exponent notation: [setCart] and [floor_text] use this
    function up to 2^53 only. *)
Definition Number_toString (z : Z) : jsstring :=
  let n := Z.abs_N z in
  let ds := dec_digits (S (N.to_nat (N.log2 n))) n [] in
  if (z <? 0)%Z then 45 :: ds else ds.

Definition stringify_line (l : line) : jsstring :=
  [123] ++ QuoteJSONString (u "id") ++ [58] ++ QuoteJSONString (id l) ++
  [44] ++ QuoteJSONString (u "qty") ++ [58] ++ Number_toString (qty l) ++
  [125].

Fixpoint join_comma (parts : list jsstring) : jsstring :=
  match parts with
  | [] => []
  | [p] => p
  | p :: rest => p ++ 44 :: join_comma rest
  end.

(** [JSON.stringify(items)] for an array of lines. *)
Definition JSON_stringify (items : cart) : jsstring :=
  [91] ++ join_comma (map stringify_line items) ++ [93].

(* ================================================================= *)
(** ** Numbers: IEEE-754 binary64 *)

Definition number := spec_float.

Definition fadd : number -> number -> number := SFadd 53 1024.
Definition fmul : number -> number -> number := SFmul 53 1024.
Definition fdiv : number -> number -> number := SFdiv 53 1024.

(** The number nearest to an integer (the integer itself below 2^53). *)
Definition of_Z (z : Z) : number := binary_normalize 53 1024 z 0 false.

(** The decimal literal [m / 10^k] of the source, correctly rounded. *)
Definition lit (m : Z) (k : Z) : number := fdiv (of_Z m) (of_Z (10 ^ k)).

Definition NaN : number := S754_nan.

(** [a >= b] on numbers; false as soon as one of them is NaN. *)
Definition fge (a b : number) : bool := SFleb b a.

(** [Math.max(a, b)]: NaN if either is, and +0 above -0. *)
Definition Math_max (a b : number) : number :=
  match SFcompare a b with
  | None => NaN
  | Some Lt => b
  | Some Gt => a
  | Some Eq => match a with S754_zero true => b | _ => a end
  end.

(** [Math.round(x)]: the integer nearest to [x], a tie going up; zeros,
    infinities and NaN are returned as they are, and a result of zero keeps
    the sign of [x]. *)
Definition Math_round (x : number) : number :=
  match x with
  | S754_finite s m e =>
    if (0 <=? e)%Z then x
    else
      let sm := if s then Z.neg m else Z.pos m in
      let n := ((2 * sm + 2 ^ (- e)) / 2 ^ (1 - e))%Z in
      if (n =? 0)%Z then S754_zero s else of_Z n
  | _ => x
  end.

(** Integers of magnitude at most 2^53: a binary64 number holds each of
    them exactly, and [Number::toString] writes all their digits. *)
Definition exact_integer (z : Z) : bool := (Z.abs z <=? 2 ^ 53)%Z.

(** The integer a number is, when it is such an integer; [-0] is 0. *)
Definition to_integer (x : number) : option Z :=
  match x with
  | S754_zero _ => Some 0%Z
  | S754_finite s m e =>
    let sm := if s then Z.neg m else Z.pos m in
    let n :=
      if (0 <=? e)%Z then Some (sm * 2 ^ e)%Z
      else if (Z.pos m mod 2 ^ (- e) =? 0)%Z then Some (sm / 2 ^ (- e))%Z
      else None in
    match n with
    | Some z => if exact_integer z then Some z else None
    | None => None
    end
  | _ => None
  end.

(** [a + b] on two integers held in numbers: the binary64 sum, followed
    while it is an integer of magnitude at most 2^53. *)
Definition plus (a b : Z) : completion Z :=
  match to_integer (fadd (of_Z a) (of_Z b)) with
  | Some z => Normal z
  | None => Unmodelled
  end.

(* ================================================================= *)
(** ** The typed view of a parsed cart *)

(** The quantity a number literal is read as.  [JSON.parse] rounds the
    literal to a binary64 number ([of_Z] on a literal that denotes an
    integer, so [9007199254740993] is read as [2^53] and [1e400] as
    Infinity); the typed view keeps the number read when it is an integer
    of magnitude at most 2^53.  A literal that denotes a fraction is not
    followed. *)
Definition as_integer (n : jnumber) : option Z :=
  let denoted :=
    if (0 <=? exp10 n)%Z then Some (coeff n * 10 ^ exp10 n)%Z
    else
      let p := (10 ^ (- exp10 n))%Z in
      if (coeff n mod p =? 0)%Z then Some (coeff n / p)%Z else None in
  match denoted with
  | Some z => to_integer (of_Z z)
  | None => None
  end.

(** The typed view of a parsed value: an array of objects holding exactly
    [id], a string, then [qty], an integer. *)
Definition line_of_json (v : json) : option line :=
  match v with
  | JObj [(k1, JStr s); (k2, JNum n)] =>
    if str_eqb k1 (u "id") && str_eqb k2 (u "qty") then
      match as_integer n with
      | Some q => Some {| id := s; qty := q |}
      | None => None
      end
    else None
  | _ => None
  end.

Fixpoint lines_of_json (l : list json) : option cart :=
  match l with
  | [] => Some []
  | v :: r =>
    match line_of_json v, lines_of_json r with
    | Some x, Some c => Some (x :: c)
    | _, _ => None
    end
  end.

Definition cart_of_json (v : json) : option cart :=
  match v with
  | JArr l => lines_of_json l
  | _ => None
  end.

Definition json_of_line (l : line) : json :=
  JObj [(u "id", JStr (id l));
        (u "qty", JNum {| coeff := qty l; exp10 := 0 |})].

Definition json_of_cart (c : cart) : json := JArr (map json_of_line c).

(* ================================================================= *)
(** ** Pricing engine *)

(** What [table[key]] finds on an object literal: an own property, a member
    inherited from [Object.prototype], or nothing ([undefined]). *)
Inductive member := Own (x : number) | Inherited | Absent.

Definition Object_prototype_names : list jsstring :=
  map u ["constructor"; "hasOwnProperty"; "isPrototypeOf";
         "propertyIsEnumerable"; "toLocaleString"; "toString"; "valueOf";
         "__proto__"; "__defineGetter__"; "__defineSetter__";
         "__lookupGetter__"; "__lookupSetter__"]%string.

Fixpoint own_property (table : list (jsstring * number)) (key : jsstring)
  : option number :=
  match table with
  | [] => None
  | (k, x) :: rest => if str_eqb k key then Some x else own_property rest key
  end.

Definition get (table : list (jsstring * number)) (key : jsstring) : member :=
  match own_property table key with
  | Some x => Own x
  | None =>
    if existsb (str_eqb key) Object_prototype_names then Inherited else Absent
  end.

(** The values the arithmetic of [estimatePrice] can meet: a number, an
    object inherited from [Object.prototype] (a built-in function, or the
    prototype itself for [__proto__]), and the text [+] builds from such an
    object, which is not a numeric literal. *)
Inductive value := VNum (x : number) | VObj | VText.

(** [m ?? d]: only [undefined] and [null] give way to the default. *)
Definition nullish (m : member) (d : number) : value :=
  match m with
  | Own x => VNum x
  | Inherited => VObj
  | Absent => VNum d
  end.

Definition ToNumber (v : value) : number :=
  match v with
  | VNum x => x
  | VObj | VText => NaN
  end.

(** [a + b]: numeric addition of two numbers, string concatenation as soon
    as an operand converts to a string. *)
Definition js_plus (a b : value) : value :=
  match a, b with
  | VNum x, VNum y => VNum (fadd x y)
  | _, _ => VText
  end.

Definition js_times (a b : value) : value :=
  VNum (fmul (ToNumber a) (ToNumber b)).

Definition zoneBase_table : list (jsstring * number) :=
  [(u "local", of_Z 6); (u "regional", of_Z 12); (u "national", of_Z 22);
   (u "international", of_Z 48)].

Definition perKg_table : list (jsstring * number) :=
  [(u "local", lit 12 1); (u "regional", lit 18 1); (u "national", lit 24 1);
   (u "international", lit 45 1)].

Definition svc_table : list (jsstring * number) :=
  [(u "express", lit 135 2); (u "standard", lit 10 1);
   (u "economy", lit 85 2)].

(** [estimatePrice(kg = 1, zone = 'local', service = 'standard')]; an
    argument that is left out ([None]) takes its default. *)
Definition estimatePrice (kg : option number) (zone service : option jsstring)
  : number :=
  let kg := match kg with Some x => x | None => of_Z 1 end in
  let zone := match zone with Some z => z | None => u "local" end in
  let service := match service with Some s => s | None => u "standard" end in
  let zoneBase := nullish (get zoneBase_table zone) (of_Z 12) in
  let perKg := nullish (get perKg_table zone) (lit 18 1) in
  let svc := nullish (get svc_table service) (lit 10 1) in
  let price :=
    js_times (js_plus zoneBase (js_times perKg (VNum (Math_max (lit 5 1) kg))))
             svc in
  Math_max (of_Z 5)
           (fdiv (Math_round (fmul (ToNumber price) (of_Z 100))) (of_Z 100)).

(* ================================================================= *)
(** ** Products *)

Record product :=
  { pid : jsstring; name : jsstring; price : number; desc : jsstring }.

Definition PRODUCTS : list product :=
  [ {| pid := u "bx-s"; name := u "Shipping Box (Small)"; price := lit 199 2;
       desc := u "25 " ++ 215 :: u " 20 " ++ 215 :: u " 15 cm, corrugated" |};
    {| pid := u "bx-m"; name := u "Shipping Box (Medium)"; price := lit 299 2;
       desc := u "35 " ++ 215 :: u " 25 " ++ 215 :: u " 20 cm, corrugated" |};
    {| pid := u "bx-l"; name := u "Shipping Box (Large)"; price := lit 449 2;
       desc := u "45 " ++ 215 :: u " 35 " ++ 215 :: u " 30 cm, corrugated" |};
    {| pid := u "tap"; name := u "Packing Tape"; price := lit 249 2;
       desc := u "48mm x 50m, clear" |};
    {| pid := u "bub"; name := u "Bubble Wrap"; price := lit 399 2;
       desc := u "30cm x 5m" |};
    {| pid := u "lbl"; name := u "Printed Labels (10x)"; price := lit 149 2;
       desc := u "Thermal, adhesive" |} ].

(** [catalog.find(x => x.id === key)]. *)
Definition find_product (catalog : list product) (key : jsstring)
  : option product :=
  find (fun x => str_eqb (pid x) key) catalog.

(* ================================================================= *)
(** ** The cart in [localStorage] *)

(** The content of the ['cart'] slot; [None] when the key is not set. *)
Definition storage := option jsstring.

(** State and exceptions: what was written before a throw stays written. *)
Definition M (A : Type) := storage -> completion A * storage.

Definition ret {A} (a : A) : M A := fun st => (Normal a, st).

Definition bind {A B} (m : M A) (k : A -> M B) : M B :=
  fun st =>
    match m st with
    | (Normal a, st') => k a st'
    | (Throw e, st') => (Throw e, st')
    | (Unmodelled, st') => (Unmodelled, st')
    end.

Notation "x <- m ;; k" := (bind m (fun x => k))
  (at level 61, m at next level, right associativity).
Notation "m ;; k" := (bind m (fun _ => k))
  (at level 61, right associativity).

Definition lift {A} (c : completion A) : M A := fun st => (c, st).

(** [localStorage.getItem('cart')] and [localStorage.setItem('cart', v)]. *)
Definition getItem : M (option jsstring) := fun st => (Normal st, st).
Definition setItem (v : jsstring) : M unit := fun _ => (Normal tt, Some v).

(** [x || '[]']: [null] and the empty string are the falsy ones. *)
Definition or_empty_array (x : option jsstring) : jsstring :=
  match x with
  | Some (c :: r) => c :: r
  | Some [] | None => u "[]"
  end.

Definition getCart : M json :=
  x <- getItem ;; lift (JSON_parse (or_empty_array x)).

(** [setCart(items)]: the quantities are integers of magnitude at most
    2^53, which [JSON.stringify] writes digit by digit; a cart with another
    quantity is not followed. *)
Definition setCart (items : cart) : M unit :=
  if forallb (fun l => exact_integer (qty l)) items
  then setItem (JSON_stringify items)
  else lift Unmodelled.

(** The parsed value used as an array of lines: the source goes on with
    whatever [JSON.parse] returned; the embedding follows it on the values
    of the persisted layout and stops with [Unmodelled] on the others. *)
Definition asCart (v : json) : M cart :=
  match cart_of_json v with
  | Some c => ret c
  | None => lift Unmodelled
  end.

(** [l.map(f)] with a callback whose result may leave the model. *)
Fixpoint map_completion {A B} (f : A -> completion B) (l : list A)
  : completion (list B) :=
  match l with
  | [] => Normal []
  | a :: r =>
    match f a with
    | Normal b =>
      match map_completion f r with
      | Normal bs => Normal (b :: bs)
      | Throw e => Throw e
      | Unmodelled => Unmodelled
      end
    | Throw e => Throw e
    | Unmodelled => Unmodelled
    end
  end.

(** [item.qty += 1] on the object [cart.find(x => x.id === key)] returned:
    the first line with that id, updated in place; the sum is the binary64
    one. *)
Fixpoint increment_found (key : jsstring) (c : cart) : completion cart :=
  match c with
  | [] => Normal []
  | x :: r =>
    if str_eqb (id x) key then
      match plus (qty x) 1 with
      | Normal q => Normal ({| id := id x; qty := q |} :: r)
      | Throw e => Throw e
      | Unmodelled => Unmodelled
      end
    else
      match increment_found key r with
      | Normal r' => Normal (x :: r')
      | Throw e => Throw e
      | Unmodelled => Unmodelled
      end
  end.

Definition addToCart (key : jsstring) : M unit :=
  v <- getCart ;;
  cart <- asCart v ;;
  match find (fun x => str_eqb (id x) key) cart with
  | Some _ => cart' <- lift (increment_found key cart) ;; setCart cart'
  | None => setCart (cart ++ [{| id := key; qty := 1 |}])
  end.

(** One row of the cart: name, unit price, quantity and line total. *)
Record row :=
  { row_name : jsstring; row_each : number; row_qty : Z; row_total : number }.

(** The callback of [cart.map] in [renderCart]; reading [p.name] of a
    product that was not found throws. *)
Definition render_row (catalog : list product) (it : line) : completion row :=
  match find_product catalog (id it) with
  | Some p =>
    Normal {| row_name := name p; row_each := price p; row_qty := qty it;
              row_total := fmul (price p) (of_Z (qty it)) |}
  | None => Throw TypeError
  end.

Fixpoint render_rows (catalog : list product) (c : cart)
  : completion (list row) :=
  match c with
  | [] => Normal []
  | it :: r =>
    match render_row catalog it with
    | Normal x =>
      match render_rows catalog r with
      | Normal xs => Normal (x :: xs)
      | Throw e => Throw e
      | Unmodelled => Unmodelled
      end
    | Throw e => Throw e
    | Unmodelled => Unmodelled
    end
  end.

(** [cart.reduce((s, it) => { p = catalog.find(..); return s + p.price *
    it.qty }, s)]: reading [p.price] of a product that was not found
    throws. *)
Fixpoint cart_sum (catalog : list product) (s : number) (c : cart)
  : completion number :=
  match c with
  | [] => Normal s
  | it :: r =>
    match find_product catalog (id it) with
    | Some p => cart_sum catalog (fadd s (fmul (price p) (of_Z (qty it)))) r
    | None => Throw TypeError
    end
  end.

(** What [renderCart] puts on the page: the rows and the total handed to
    [fmt]. *)
Record cart_view := { view_rows : list row; view_total : number }.

(** [renderCart()] on the supplies page, where [#cartItems] and
    [#cartTotal] exist. *)
Definition renderCart : M cart_view :=
  v <- getCart ;;
  cart <- asCart v ;;
  if (List.length cart =? 0)%nat
  then ret {| view_rows := []; view_total := of_Z 0 |}
  else
    rows <- lift (render_rows PRODUCTS cart) ;;
    sum <- lift (cart_sum PRODUCTS (of_Z 0) cart) ;;
    ret {| view_rows := rows; view_total := sum |}.

(** The callback of [map] in [changeQty]:
    [it.id === key ? {...it, qty: Math.max(0, it.qty + d)} : it], where
    [it.qty + d] is the binary64 sum and [d] the number [of_Z d]. *)
Definition adjust (key : jsstring) (d : Z) (it : line) : completion line :=
  if str_eqb (id it) key
  then
    match plus (qty it) d with
    | Normal q => Normal {| id := id it; qty := Z.max 0 q |}
    | Throw e => Throw e
    | Unmodelled => Unmodelled
    end
  else Normal it.

Definition changeQty (key : jsstring) (d : Z) : M unit :=
  v <- getCart ;;
  items <- asCart v ;;
  mapped <- lift (map_completion (adjust key d) items) ;;
  let cart := filter (fun it => (0 <? qty it)%Z) mapped in
  setCart cart ;; renderCart ;; ret tt.

(** The two notices of the checkout button, as passed to [msg]. *)
Definition msg_empty : jsstring := u "Your cart is empty.".
Definition msg_placed : jsstring :=
  u "Order placed! Confirmation sent to your email.".

(** The click handler of [#checkoutBtn]; returns the notice it shows. *)
Definition checkout : M jsstring :=
  v <- getCart ;;
  items <- asCart v ;;
  if (List.length items =? 0)%nat then ret msg_empty
  else setCart [] ;; renderCart ;; ret msg_placed.

(** A user action on the supplies page. *)
Inductive action :=
| Add (key : jsstring)
| Change (key : jsstring) (d : Z).

Definition perform (a : action) : M unit :=
  match a with
  | Add key => addToCart key
  | Change key d => changeQty key d
  end.

(** The storage after a sequence of actions; an action that throws leaves
    what it wrote, and the page goes on with the next one. *)
Fixpoint run (acts : list action) (st : storage) : storage :=
  match acts with
  | [] => st
  | a :: rest => run rest (snd (perform a st))
  end.

(** The storage holds the cart [c]: [getCart] returns it. *)
Definition holds (st : storage) (c : cart) : Prop :=
  (v <- getCart ;; asCart v) st = (Normal c, st).

(** The invariant of the data model: one line per product id, positive
    quantities. *)
Definition cart_ok (c : cart) : Prop :=
  NoDup (map id c) /\ Forall (fun l => (0 < qty l)%Z) c.

(** A cart whose quantities a number holds exactly. *)
Definition exact_cart (c : cart) : Prop :=
  Forall (fun l => (Z.abs (qty l) <= 2 ^ 53)%Z) c.

(** What [plus q d] returns where the proofs follow it: the integer sum, and
    [2^53] for [2^53 + 1]. *)
Definition sum64 (q d : Z) : Z := Z.min (q + d) (2 ^ 53).

(** A quantity and a delta whose sum the proofs follow: the delta is of
    magnitude at most 2^53 and the sum lies between [-2^53] and [2^53], or
    they are [2^53] and 1. *)
Definition in_range (q d : Z) : Prop :=
  (Z.abs d <= 2 ^ 53 /\ - 2 ^ 53 <= q + d /\
   (q + d <= 2 ^ 53 \/ (q = 2 ^ 53 /\ d = 1)))%Z.

(** The cart that [increment_found] returns on quantities of magnitude at
    most 2^53. *)
Fixpoint incremented (key : jsstring) (c : cart) : cart :=
  match c with
  | [] => []
  | x :: r =>
    if str_eqb (id x) key then {| id := id x; qty := sum64 (qty x) 1 |} :: r
    else x :: incremented key r
  end.

(** The line that [adjust] returns on a quantity and a delta in range. *)
Definition adjusted (key : jsstring) (d : Z) (it : line) : line :=
  if str_eqb (id it) key
  then {| id := id it; qty := Z.max 0 (sum64 (qty it) d) |}
  else it.

(** The row buttons pass the deltas +1 and -1.  More generally, with a delta
    of at most 1 and at least [-2^53] no quantity leaves the range. *)
Definition small_delta (a : action) : Prop :=
  match a with
  | Add _ => True
  | Change _ d => (- 2 ^ 53 <= d <= 1)%Z
  end.

(** Every step of a sequence of actions stays within the typed model. *)
Fixpoint all_followed (acts : list action) (st : storage) : Prop :=
  match acts with
  | [] => True
  | a :: rest =>
    fst (perform a st) <> Unmodelled /\
    all_followed rest (snd (perform a st))
  end.

(** The total as the specification words it: the sum over the lines, in
    cart order, of price times quantity, where a line of a product that is
    not in the catalog adds nothing. *)
Definition add_line_total (catalog : list product) (s : number) (it : line)
  : number :=
  match find_product catalog (id it) with
  | Some p => fadd s (fmul (price p) (of_Z (qty it)))
  | None => s
  end.

Definition computeTotal_spec (catalog : list product) (c : cart) : number :=
  fold_left (add_line_total catalog) c (of_Z 0).

(** Computations that only read the slot. *)
Definition reads_only {A} (m : M A) : Prop := forall st, snd (m st) = st.

(** What may follow a number literal: nothing, or a code unit that does not
    go on with it. *)
Definition ends_number (rest : jsstring) : Prop :=
  match rest with
  | [] => True
  | c :: _ => is_digit c = false /\ c <> 46 /\ c <> 101 /\ c <> 69
  end.

(** A parser step that did not run out of fuel and, when it succeeded, left
    fewer than [n] code units. *)
Definition progress {A} (p : presult A) (n : nat) : Prop :=
  match p with
  | POk _ r => (List.length r < n)%nat
  | PErr => True
  | PFuel => False
  end.

(** A number with a clear sign bit that is not NaN: +0, a positive finite
    number or +Infinity. *)
Definition nonneg (x : number) : Prop :=
  match x with
  | S754_zero false | S754_infinity false | S754_finite false _ _ => True
  | _ => False
  end.

(** A positive finite number or +Infinity. *)
Definition positive_number (x : number) : Prop :=
  match x with
  | S754_infinity false | S754_finite false _ _ => True
  | _ => False
  end.

(** A positive finite number. *)
Definition finite_positive (x : number) : Prop :=
  match x with
  | S754_finite false _ _ => True
  | _ => False
  end.


(* ================================================================= *)
(** ** Quotes on the booking page and on the home page *)

(** [a > b] on numbers; false as soon as one of them is NaN. *)
Definition fgt (a b : number) : bool := SFltb b a.

(** The value [FormData.get('zone')] hands over, used as a property key:
    [null] (no such field) reads the key [null]. *)
Definition zone_key (z : option jsstring) : jsstring :=
  match z with
  | Some s => s
  | None => u "null"
  end.

(** The [input] handler of [#bookingForm], from the number [kg] on: the
    price handed to [fmt], or [None] for the dash. *)
Definition booking_quote (kg : number) (zone : option jsstring)
  : option number :=
  if fgt kg (of_Z 0)
  then Some (estimatePrice (Some kg) (Some (zone_key zone)) None)
  else None.

(** The [submit] handler of [#miniQuote]: the price handed to [fmt]. *)
Definition mini_quote (kg : number) (zone : option jsstring) : number :=
  estimatePrice (Some kg) (Some (zone_key zone)) None.

(* ================================================================= *)
(** ** Tracking *)

Record step :=
  { step_t : jsstring; step_title : jsstring; step_desc : jsstring }.

(** What [fakeTracking] returns: [{ steps, progress }]. *)
Record tracking := { steps : list step; tracking_progress : Z }.

(** [/^SS\d{6,}$/.test(tn)]: two letters S, then six digits or more, up to
    the end of the text. *)
Definition tracking_number_ok (tn : jsstring) : bool :=
  match tn with
  | c1 :: c2 :: ds =>
    (c1 =? 83) && (c2 =? 83) && forallb is_digit ds &&
    (6 <=? List.length ds)%nat
  | _ => false
  end.

Definition found_steps (tn : jsstring) : list step :=
  [ {| step_t := u "- 1d 6h"; step_title := u "Order created";
       step_desc := u "Label generated for " ++ tn |};
    {| step_t := u "- 1d 4h"; step_title := u "Picked up";
       step_desc := u "Courier collected the package" |};
    {| step_t := u "- 16h"; step_title := u "At facility";
       step_desc := u "Sorted at hub" |};
    {| step_t := u "- 6h"; step_title := u "In transit";
       step_desc := u "Departed regional center" |};
    {| step_t := u "ETA"; step_title := u "Out for delivery";
       step_desc := u "Courier is on the way" |} ].

(** The single step of an unknown number; its time is an em dash. *)
Definition not_found_steps : list step :=
  [ {| step_t := [8212]; step_title := u "Not found";
       step_desc :=
         u "Check the number and try again (format SS########)" |} ].

Definition fakeTracking (tn : jsstring) : tracking :=
  let ok := tracking_number_ok tn in
  {| steps := if ok then found_steps tn else not_found_steps;
     tracking_progress := if ok then 82 else 0 |}.

(** The template of one timeline item; 10 is the line feed and 34 the
    quotation mark of the source text. *)
Definition timeline_item (s : step) : jsstring :=
  10 :: u "    <div class=" ++ 34 :: u "timeline-item" ++ 34 :: u ">" ++
  10 :: u "      <div class=" ++ 34 :: u "timeline-dot" ++ 34 :: u "></div>" ++
  10 :: u "      <div class=" ++ 34 :: u "timeline-text" ++ 34 :: u ">" ++
  10 :: u "        <strong>" ++ step_title s ++ u "</strong><br/>" ++
  10 :: u "        <small>" ++ step_t s ++ u "</small><div>" ++
        step_desc s ++ u "</div>" ++
  10 :: u "      </div>" ++
  10 :: u "    </div>" ++
  10 :: u "  ".

(** [data.steps.map(s => ...).join('')]. *)
Definition renderTimeline (data : tracking) : jsstring :=
  List.concat (map timeline_item (steps data)).

(** White space and line terminators, as [String.prototype.trim] takes
    them off. *)
Definition is_space (c : N) : bool :=
  (c =? 9) || (c =? 10) || (c =? 11) || (c =? 12) || (c =? 13) ||
  (c =? 32) || (c =? 160) || (c =? 5760) ||
  ((8192 <=? c) && (c <=? 8202)) ||
  (c =? 8232) || (c =? 8233) || (c =? 8239) || (c =? 8287) ||
  (c =? 12288) || (c =? 65279).

Fixpoint trim_start (s : jsstring) : jsstring :=
  match s with
  | c :: r => if is_space c then trim_start r else s
  | [] => []
  end.

Definition trim (s : jsstring) : jsstring :=
  rev (trim_start (rev (trim_start s))).

(** The [submit] handler of [#trackForm]: the markup put in [#trackResult]
    and the width given to [#trackProgress]. *)
Definition track_page (input : jsstring) : jsstring * jsstring :=
  let data := fakeTracking (trim input) in
  (renderTimeline data, Number_toString (tracking_progress data) ++ u "%").

(** The [submit] handler of [#miniTrack]: the markup put in
    [#miniTrackOut]; the text is not trimmed there. *)
Definition mini_track (input : jsstring) : jsstring :=
  renderTimeline (fakeTracking input).

(* ================================================================= *)
(** ** Auth tabs *)

(** An element of the page: its class list, an ordered set of tokens, and
    its [data-tab] and [data-panel] attributes ([None]: not set, read as
    [undefined]). *)
Record element :=
  { classList : list jsstring;
    data_tab : option jsstring;
    data_panel : option jsstring }.

Definition has_class (token : jsstring) (e : element) : bool :=
  existsb (str_eqb token) (classList e).

(** [classList.toggle(token, force)]: the token is there afterwards exactly
    when [force] holds; a token that is added goes to the end. *)
Definition toggle (token : jsstring) (force : bool) (cl : list jsstring)
  : list jsstring :=
  if force
  then if existsb (str_eqb token) cl then cl else cl ++ [token]
  else filter (fun c => negb (str_eqb token c)) cl.

(** [a === b] where each side is a string or [undefined]. *)
Definition same_name (a b : option jsstring) : bool :=
  match a, b with
  | Some x, Some y => str_eqb x y
  | None, None => true
  | _, _ => false
  end.

Definition set_classes (e : element) (cl : list jsstring) : element :=
  {| classList := cl; data_tab := data_tab e; data_panel := data_panel e |}.

(** [switchTab(name)] on the elements of the document, in document order:
    the first pass visits the elements of class [tab], the second those of
    class [tabpanel]. *)
Definition switchTab (name : option jsstring) (doc : list element)
  : list element :=
  let pass1 :=
    map (fun e =>
           if has_class (u "tab") e
           then set_classes e
                  (toggle (u "active") (same_name (data_tab e) name)
                          (classList e))
           else e) doc in
  map (fun e =>
         if has_class (u "tabpanel") e
         then set_classes e
                (toggle (u "hidden") (negb (same_name (data_panel e) name))
                        (classList e))
         else e) pass1.

(** The click listener of the [i]-th element of the document, bound to the
    elements of class [tab]: [switchTab(btn.dataset.tab)]. *)
Definition click_tab (i : nat) (doc : list element) : list element :=
  match nth_error doc i with
  | Some btn =>
    if has_class (u "tab") btn then switchTab (data_tab btn) doc else doc
  | None => doc
  end.

(* ================================================================= *)
(** ** The buttons of the supplies page *)

(** The page: the storage and the ids on the [+] and [-] buttons of the
    rows that [renderCart] put in [#cartItems] last. *)
Record page := { slot : storage; shown : list jsstring }.

Inductive click :=
| ClickAdd (i : nat)       (* the [Add to cart] button of the i-th product *)
| ClickInc (i : nat)       (* the [+] button of the i-th row *)
| ClickDec (i : nat)       (* the [-] button of the i-th row *)
| ClickCheckout.

(** The ids of the rows after a handler ran [renderCart] to its end. *)
Definition rows_of (st : storage) (old : list jsstring) : list jsstring :=
  match (v <- getCart ;; asCart v) st with
  | (Normal c, _) => map id c
  | _ => old
  end.

(** A handler that ends with [renderCart]: the rows change only when it
    completes. *)
Definition with_render (m : M unit) (pg : page) : completion unit * page :=
  match m (slot pg) with
  | (Normal x, st') =>
    (Normal x, {| slot := st'; shown := rows_of st' (shown pg) |})
  | (r, st') => (r, {| slot := st'; shown := shown pg |})
  end.

Definition on_click (a : click) (pg : page) : completion unit * page :=
  match a with
  | ClickAdd i =>
    match nth_error PRODUCTS i with
    | Some p => with_render (addToCart (pid p) ;; renderCart ;; ret tt) pg
    | None => (Normal tt, pg)
    end
  | ClickInc i =>
    match nth_error (shown pg) i with
    | Some key => with_render (changeQty key 1) pg
    | None => (Normal tt, pg)
    end
  | ClickDec i =>
    match nth_error (shown pg) i with
    | Some key => with_render (changeQty key (-1)) pg
    | None => (Normal tt, pg)
    end
  | ClickCheckout =>
    match checkout (slot pg) with
    | (Normal m, st') =>
      (Normal tt,
       {| slot := st';
          shown := if str_eqb m msg_placed then rows_of st' (shown pg)
                   else shown pg |})
    | (Throw e, st') => (Throw e, {| slot := st'; shown := shown pg |})
    | (Unmodelled, st') => (Unmodelled, {| slot := st'; shown := shown pg |})
    end
  end.

(** A session: the clicks one after the other; collects how each handler
    ended. *)
Fixpoint session (clicks : list click) (pg : page)
  : list (completion unit) * page :=
  match clicks with
  | [] => ([], pg)
  | a :: rest =>
    let '(r, pg1) := on_click a pg in
    let '(rs, pg2) := session rest pg1 in
    (r :: rs, pg2)
  end.

(** The supplies page once loaded on an empty storage. *)
Definition fresh_page : page := {| slot := None; shown := [] |}.

(** The page shows the stored cart, and every line is one of a product. *)
Definition in_sync (pg : page) (c : cart) : Prop :=
  holds (slot pg) c /\ shown pg = map id c /\
  Forall (fun it => find_product PRODUCTS (id it) <> None) c.

(** The quantity a cart holds of a product: over all its lines. *)
Definition quantity_of (key : jsstring) (c : cart) : Z :=
  fold_right Z.add 0%Z
    (map qty (filter (fun it => str_eqb (id it) key) c)).

(** [a] is [b] with some elements left out, the order kept. *)
Inductive subseq {A : Type} : list A -> list A -> Prop :=
| subseq_nil : subseq [] []
| subseq_skip (x : A) (a b : list A) : subseq a b -> subseq a (x :: b)
| subseq_keep (x : A) (a b : list A) : subseq a b -> subseq (x :: a) (x :: b).

(** An element after [switchTab(name)], against the element before. *)
Definition switched (name : option jsstring) (e e' : element) : Prop :=
  data_tab e' = data_tab e /\ data_panel e' = data_panel e /\
  (forall token,
      token <> u "active" -> token <> u "hidden" ->
      (In token (classList e') <-> In token (classList e))) /\
  (In (u "active") (classList e') <->
   if has_class (u "tab") e then data_tab e = name
   else In (u "active") (classList e)) /\
  (In (u "hidden") (classList e') <->
   if has_class (u "tabpanel") e then data_panel e <> name
   else In (u "hidden") (classList e)).

(** The number of times a code unit occurs in a text. *)
Definition occurrences (c : N) (s : jsstring) : nat :=
  count_occ N.eq_dec s c.

(** What [switchTab(name)] does to one element. *)
Definition switch_one (name : option jsstring) (e : element) : element :=
  let e1 :=
    if has_class (u "tab") e
    then set_classes e
           (toggle (u "active") (same_name (data_tab e) name) (classList e))
    else e in
  if has_class (u "tabpanel") e1
  then set_classes e1
         (toggle (u "hidden") (negb (same_name (data_panel e1) name))
                 (classList e1))
  else e1.

(* ================================================================= *)
(** ** Booking references *)

(** [Math.floor(y)] as an integer; [None] for NaN and the infinities. *)
Definition floor_Z (y : number) : option Z :=
  match y with
  | S754_zero _ => Some 0%Z
  | S754_finite s m e =>
    let sm := if s then Z.neg m else Z.pos m in
    Some (if (0 <=? e)%Z then sm * 2 ^ e else sm / 2 ^ (- e))%Z
  | _ => None
  end.

(** The text of [Math.floor(y)] in a string concatenation: the digits of
    the integer while its magnitude is at most 2^53; [None] stands for the
    larger ones, whose shortest digits and exponent notation are not
    described. *)
Definition floor_text (y : number) : option jsstring :=
  match y with
  | S754_nan => Some (u "NaN")
  | S754_infinity false => Some (u "Infinity")
  | S754_infinity true => Some (u "-Infinity")
  | _ =>
    match floor_Z y with
    | Some n => if exact_integer n then Some (Number_toString n) else None
    | None => None
    end
  end.

(** ['SS' + Math.floor(1e8 + Math.random()*9e8)], as a function of the
    number [r] that [Math.random()] returned. *)
Definition makeRef (r : number) : option jsstring :=
  match floor_text (fadd (of_Z 100000000) (fmul r (of_Z 900000000))) with
  | Some digits => Some (u "SS" ++ digits)
  | None => None
  end.

(** What [Math.random()] may return: a binary64 number that is at least 0
    and below 1. *)
Definition random_value (r : number) : Prop :=
  valid_binary 53 1024 r = true /\
  SFleb (S754_zero false) r = true /\
  SFltb r (of_Z 1) = true.
(* ================================================================= *)
(** ** Strings: what [QuoteJSONString] writes, [JSON.parse] reads back *)

Lemma pbind_ok {A B} (a : A) (rest : jsstring)
      (k : A -> jsstring -> presult B) :
  pbind (POk a rest) k = k a rest.
Proof. reflexivity. Qed.

Lemma hexval_hexdigit (d : N) : d < 16 -> hexval (hexdigit d) = Some d.
Proof.
  intros H.
  assert (Hc : d = 0 \/ d = 1 \/ d = 2 \/ d = 3 \/ d = 4 \/ d = 5 \/ d = 6 \/
               d = 7 \/ d = 8 \/ d = 9 \/ d = 10 \/ d = 11 \/ d = 12 \/
               d = 13 \/ d = 14 \/ d = 15) by lia.
  repeat (destruct Hc as [-> | Hc]; [reflexivity | ]).
  subst d; reflexivity.
Qed.

Lemma hex4_uescape (c : N) :
  c < 65536 ->
  hex4 (hexdigit (c / 4096)) (hexdigit ((c / 256) mod 16))
       (hexdigit ((c / 16) mod 16)) (hexdigit (c mod 16)) = Some c.
Proof.
  intros H. unfold hex4.
  rewrite !hexval_hexdigit;
    try (apply N.mod_lt; discriminate).
  - f_equal.
    pose proof (N.div_mod c 4096) as H1.
    pose proof (N.div_mod c 256) as H2.
    pose proof (N.div_mod c 16) as H3.
    pose proof (N.div_mod (c / 256) 16) as H4.
    pose proof (N.div_mod (c / 16) 16) as H5.
    pose proof (N.mod_lt c 16) as H6.
    pose proof (N.mod_lt (c / 16) 16) as H7.
    pose proof (N.mod_lt (c / 256) 16) as H8.
    assert (E1 : c / 256 / 16 = c / 4096)
      by (rewrite N.Div0.div_div; reflexivity).
    assert (E2 : c / 16 / 16 = c / 256)
      by (rewrite N.Div0.div_div; reflexivity).
    rewrite E1 in H4. rewrite E2 in H5. lia.
  - apply N.Div0.div_lt_upper_bound. exact H.
Qed.

(** A code unit that stands for itself inside a string literal. *)
Lemma str_chars_plain (c : N) (r : jsstring) :
  c <> 34 -> c <> 92 -> 32 <= c ->
  str_chars (c :: r) = pbind (str_chars r) (fun t rest => POk (c :: t) rest).
Proof.
  intros H1 H2 H3. simpl.
  destruct (N.eqb_spec c 34); [contradiction | ].
  destruct (N.eqb_spec c 92); [contradiction | ].
  destruct (N.ltb_spec c 32); [lia | reflexivity].
Qed.

Lemma str_chars_uescape (c : N) (r : jsstring) :
  c < 65536 ->
  str_chars (uescape c ++ r)
  = pbind (str_chars r) (fun t rest => POk (c :: t) rest).
Proof.
  intros H. unfold uescape.
  cbn [app str_chars]. 
  change (92 =? 34) with false. change (92 =? 92) with true.
  change (117 =? 117) with true. cbv iota.
  rewrite hex4_uescape by exact H. reflexivity.
Qed.

Lemma str_chars_quote_unit (c : N) (r : jsstring) :
  str_chars (quote_unit c ++ r)
  = pbind (str_chars r) (fun t rest => POk (c :: t) rest).
Proof.
  unfold quote_unit.
  destruct (N.eqb_spec c 8) as [-> | H8]; [reflexivity | ].
  destruct (N.eqb_spec c 9) as [-> | H9]; [reflexivity | ].
  destruct (N.eqb_spec c 10) as [-> | H10]; [reflexivity | ].
  destruct (N.eqb_spec c 12) as [-> | H12]; [reflexivity | ].
  destruct (N.eqb_spec c 13) as [-> | H13]; [reflexivity | ].
  destruct (N.eqb_spec c 34) as [-> | H34]; [reflexivity | ].
  destruct (N.eqb_spec c 92) as [-> | H92]; [reflexivity | ].
  destruct (N.ltb_spec c 32) as [Hlt | Hge].
  - apply str_chars_uescape. lia.
  - apply str_chars_plain; assumption.
Qed.

Lemma surrogate_plain (c : N) :
  is_high c || is_low c = true -> c <> 34 /\ c <> 92 /\ 32 <= c /\ c < 65536.
Proof.
  unfold is_high, is_low. intros H.
  apply orb_true_iff in H.
  destruct H as [H | H]; apply andb_true_iff in H; destruct H as [Ha Hb];
    apply N.leb_le in Ha; apply N.leb_le in Hb; lia.
Qed.

Lemma str_chars_quote_body (rest : jsstring) :
  forall (s : jsstring) (paired : bool),
    (paired = true ->
     match s with d :: _ => is_low d = true | [] => False end) ->
    str_chars (quote_body paired s ++ 34 :: rest) = POk s rest.
Proof.
  induction s as [| c r IH]; intros paired Hp.
  - reflexivity.
  - cbn [quote_body].
    destruct (is_high c && negb paired &&
              match r with d :: _ => is_low d | [] => false end) eqn:Hopen.
    + apply andb_true_iff in Hopen. destruct Hopen as [Hh Hl].
      apply andb_true_iff in Hh. destruct Hh as [Hh _].
      destruct (surrogate_plain c) as (A & B & C & _).
      { rewrite Hh. reflexivity. }
      cbn [app]. rewrite str_chars_plain by assumption.
      rewrite IH.
      * reflexivity.
      * intros _. destruct r; [discriminate | exact Hl].
    + destruct paired.
      * specialize (Hp eq_refl). cbn in Hp.
        destruct (surrogate_plain c) as (A & B & C & _).
        { rewrite Hp. apply orb_true_r. }
        cbn [app]. rewrite str_chars_plain by assumption.
        rewrite IH by discriminate. reflexivity.
      * destruct (is_high c || is_low c) eqn:Hs.
        -- destruct (surrogate_plain c Hs) as (_ & _ & _ & D).
           rewrite <- app_assoc. rewrite str_chars_uescape by exact D.
           rewrite IH by discriminate. reflexivity.
        -- rewrite <- app_assoc. rewrite str_chars_quote_unit.
           rewrite IH by discriminate. reflexivity.
Qed.

(** Reading a quoted string: the value and what follows the closing quote. *)
Lemma str_chars_QuoteJSONString (s rest : jsstring) :
  exists body, QuoteJSONString s ++ rest = 34 :: body /\
               str_chars body = POk s rest.
Proof.
  exists (quote_body false s ++ 34 :: rest). split.
  - unfold QuoteJSONString. cbn [app]. rewrite <- app_assoc. reflexivity.
  - apply str_chars_quote_body. discriminate.
Qed.

(* ================================================================= *)
(** ** Numbers: the digits [Number::toString] writes are read back *)

Lemma is_digit_offset (d : N) : d < 10 -> is_digit (48 + d) = true.
Proof.
  intros H. unfold is_digit. apply andb_true_iff.
  split; apply N.leb_le; lia.
Qed.

Lemma digits_step (c : N) (r : jsstring) (a cnt : N) :
  is_digit c = true ->
  digits (c :: r) a cnt = digits r (10 * a + (c - 48)) (cnt + 1).
Proof. intros H. simpl. rewrite H. reflexivity. Qed.

Lemma digits_stop (c : N) (r : jsstring) (a cnt : N) :
  is_digit c = false -> digits (c :: r) a cnt = (a, cnt, c :: r).
Proof. intros H. simpl. rewrite H. reflexivity. Qed.

(** The digits of a positive [n] start with a non-zero digit, and reading
    on from that digit gives [n] back. *)
Lemma dec_digits_read :
  forall (f : nat) (n : N) (acc : jsstring),
    0 < n -> n < 10 ^ N.of_nat f ->
    exists d ds,
      dec_digits f n acc = (48 + d) :: ds /\ 1 <= d /\ d <= 9 /\
      forall tail cnt, exists cnt',
          digits (ds ++ tail) d cnt = digits (acc ++ tail) n cnt'.
Proof.
  induction f as [| f IH]; intros n acc Hpos Hlt.
  - simpl in Hlt. lia.
  - cbn [dec_digits].
    destruct (N.ltb_spec n 10) as [Hs | Hb].
    + exists (n mod 10), acc.
      rewrite N.mod_small by exact Hs.
      repeat split; try lia.
      intros tail cnt. exists cnt. reflexivity.
    + assert (Hq : 0 < n / 10).
      { apply N.div_str_pos. lia. }
      assert (Hq' : n / 10 < 10 ^ N.of_nat f).
      { apply N.Div0.div_lt_upper_bound.
        rewrite Nat2N.inj_succ, N.pow_succ_r' in Hlt. exact Hlt. }
      destruct (IH (n / 10) ((48 + n mod 10) :: acc) Hq Hq')
        as (d & ds & E & H1 & H9 & Hread).
      exists d, ds. repeat split; try assumption.
      intros tail cnt. destruct (Hread tail cnt) as (cnt' & Hr).
      exists (cnt' + 1). rewrite Hr. cbn [app].
      rewrite digits_step.
      * f_equal.
        pose proof (N.div_mod n 10 ltac:(discriminate)) as Hdm.
        replace (48 + n mod 10 - 48) with (n mod 10)
          by (rewrite N.add_comm; symmetry; apply N.add_sub).
        symmetry. exact Hdm.
      * apply is_digit_offset. apply N.mod_lt. discriminate.
Qed.

Lemma enough_digits (n : N) :
  0 < n -> n < 10 ^ N.of_nat (S (N.to_nat (N.log2 n))).
Proof.
  intros H. rewrite Nat2N.inj_succ, N2Nat.id.
  destruct (N.log2_spec n H) as [_ Hlt].
  eapply N.lt_le_trans; [exact Hlt | ].
  apply N.pow_le_mono_l. lia.
Qed.

Lemma digits_end (rest : jsstring) (a cnt : N) :
  ends_number rest -> digits rest a cnt = (a, cnt, rest).
Proof.
  destruct rest as [| c r]; intros H.
  - reflexivity.
  - destruct H as [H _]. apply digits_stop. exact H.
Qed.

Lemma num_frac_none (ip : N) (rest : jsstring) :
  ends_number rest -> num_frac ip rest = POk (ip, 0) rest.
Proof.
  destruct rest as [| c r]; intros H.
  - reflexivity.
  - destruct H as (_ & H & _). unfold num_frac.
    destruct (N.eqb_spec c 46); [contradiction | reflexivity].
Qed.

Lemma num_exp_none (rest : jsstring) :
  ends_number rest -> num_exp rest = POk 0%Z rest.
Proof.
  destruct rest as [| c r]; intros H.
  - reflexivity.
  - destruct H as (_ & _ & H1 & H2). unfold num_exp.
    destruct (N.eqb_spec c 101); [contradiction | ].
    destruct (N.eqb_spec c 69); [contradiction | reflexivity].
Qed.

Lemma num_int_digits (n : N) (rest : jsstring) :
  ends_number rest ->
  num_int (dec_digits (S (N.to_nat (N.log2 n))) n [] ++ rest) = POk n rest.
Proof.
  intros Hend.
  destruct (N.eq_dec n 0) as [-> | Hn].
  - reflexivity.
  - destruct (dec_digits_read (S (N.to_nat (N.log2 n))) n [])
      as (d & ds & E & H1 & H9 & Hread).
    + lia.
    + apply enough_digits. lia.
    + rewrite E. cbn [app num_int].
      destruct (N.eqb_spec (48 + d) 48); [lia | ].
      rewrite is_digit_offset by lia.
      destruct (Hread rest 0) as (cnt' & Hr).
      replace (48 + d - 48) with d by lia.
      rewrite Hr. cbn [app]. rewrite digits_end by exact Hend.
      reflexivity.
Qed.

(** The first code unit of a printed integer: a minus sign or a digit. *)
Lemma Number_toString_head (z : Z) :
  exists c r, Number_toString z = c :: r /\
              ((c =? 45) || is_digit c) = true.
Proof.
  unfold Number_toString.
  destruct (Z.ltb_spec z 0) as [Hneg | Hpos].
  - eexists _, _. split; reflexivity.
  - destruct (N.eq_dec (Z.abs_N z) 0) as [E | Hn].
    + rewrite E. eexists _, _. split; reflexivity.
    + destruct (dec_digits_read (S (N.to_nat (N.log2 (Z.abs_N z))))
                                (Z.abs_N z) [])
        as (d & ds & E & H1 & H9 & _).
      * lia.
      * apply enough_digits. lia.
      * exists (48 + d), ds. split; [exact E | ].
        rewrite is_digit_offset by lia. apply orb_true_r.
Qed.

Lemma number_after_sign_digits (neg : bool) (n : N) (rest : jsstring) :
  ends_number rest ->
  number_after_sign neg
    (dec_digits (S (N.to_nat (N.log2 n))) n [] ++ rest)
  = POk {| coeff := if neg then Z.opp (Z.of_N n) else Z.of_N n;
           exp10 := 0 |} rest.
Proof.
  intros Hend. unfold number_after_sign.
  rewrite num_int_digits by exact Hend. rewrite pbind_ok.
  rewrite num_frac_none by exact Hend. rewrite pbind_ok.
  rewrite num_exp_none by exact Hend. rewrite pbind_ok.
  reflexivity.
Qed.

Lemma parse_number_toString (z : Z) (rest : jsstring) :
  ends_number rest ->
  parse_number (Number_toString z ++ rest)
  = POk {| coeff := z; exp10 := 0 |} rest.
Proof.
  intros Hend. unfold Number_toString.
  destruct (Z.ltb_spec z 0) as [Hneg | Hpos].
  - unfold parse_number. cbn [app]. change (45 =? 45) with true. cbv iota.
    rewrite number_after_sign_digits by exact Hend.
    f_equal. f_equal. rewrite N2Z.inj_abs_N. lia.
  - pose proof (number_after_sign_digits false (Z.abs_N z) rest Hend) as Hn.
    destruct (dec_digits (S (N.to_nat (N.log2 (Z.abs_N z)))) (Z.abs_N z) [])
      as [| c r] eqn:E.
    + destruct (N.eq_dec (Z.abs_N z) 0) as [E0 | Hnz].
      * rewrite E0 in E. discriminate E.
      * destruct (dec_digits_read (S (N.to_nat (N.log2 (Z.abs_N z))))
                                  (Z.abs_N z) [])
          as (d & ds & E' & _); [lia | apply enough_digits; lia | ].
        rewrite E' in E. discriminate E.
    + assert (Hminus : (c =? 45) = false).
      { destruct (N.eq_dec (Z.abs_N z) 0) as [E0 | Hnz].
        - rewrite E0 in E. apply (f_equal (hd 0)) in E. cbn in E.
          subst c. reflexivity.
        - destruct (dec_digits_read (S (N.to_nat (N.log2 (Z.abs_N z))))
                                    (Z.abs_N z) [])
            as (d & ds & E' & H1 & H9 & _);
            [lia | apply enough_digits; lia | ].
          rewrite E' in E.
          apply (f_equal (hd 0)) in E. cbn [hd] in E.
          apply N.eqb_neq. lia. }
      cbn [app] in Hn |- *. unfold parse_number. rewrite Hminus, Hn.
      f_equal. f_equal. rewrite N2Z.inj_abs_N. lia.
Qed.

(* ================================================================= *)
(** ** Lines and carts: [JSON.parse] inverts [JSON.stringify] *)

Lemma u_id : u "id" = [105; 100].
Proof. reflexivity. Qed.

Lemma u_qty : u "qty" = [113; 116; 121].
Proof. reflexivity. Qed.

(** A value that starts with a minus sign or a digit is a number. *)
Lemma parse_value_number (f : nat) (c : N) (r : jsstring) :
  ((c =? 45) || is_digit c) = true ->
  parse_value (S f) (c :: r)
  = pbind (parse_number (c :: r)) (fun n rest => POk (JNum n) rest).
Proof.
  intros Hc.
  assert (Hr : c = 45 \/ (48 <= c /\ c <= 57)).
  { apply orb_true_iff in Hc. destruct Hc as [Hc | Hc].
    - left. apply N.eqb_eq. exact Hc.
    - right. unfold is_digit in Hc. apply andb_true_iff in Hc.
      destruct Hc as [Ha Hb]. apply N.leb_le in Ha. apply N.leb_le in Hb.
      split; assumption. }
  assert (Hws : is_ws c = false).
  { unfold is_ws.
    destruct (N.eqb_spec c 32); [lia | ].
    destruct (N.eqb_spec c 9); [lia | ].
    destruct (N.eqb_spec c 10); [lia | ].
    destruct (N.eqb_spec c 13); [lia | reflexivity]. }
  cbn [parse_value skip_ws]. rewrite Hws.
  destruct (N.eqb_spec c 34); [lia | ].
  destruct (N.eqb_spec c 91); [lia | ].
  destruct (N.eqb_spec c 123); [lia | ].
  destruct (N.eqb_spec c 116); [lia | ].
  destruct (N.eqb_spec c 102); [lia | ].
  destruct (N.eqb_spec c 110); [lia | ].
  rewrite Hc. reflexivity.
Qed.

(** A value that starts with a quotation mark is a string. *)
Lemma parse_value_string (f : nat) (body : jsstring) :
  parse_value (S f) (34 :: body)
  = pbind (str_chars body) (fun t rest => POk (JStr t) rest).
Proof. reflexivity. Qed.

Lemma ends_number_brace (rest : jsstring) : ends_number (125 :: rest).
Proof. cbn. repeat split; discriminate. Qed.

(** An object whose first member follows the brace at once. *)
Lemma parse_value_object (f : nat) (r : jsstring) :
  parse_value (S f) (123 :: 34 :: r) = parse_members f [] (34 :: r).
Proof. reflexivity. Qed.

(** A member [key : value] of an object, with no white space. *)
Lemma parse_members_step (f : nat) (acc : list (jsstring * json))
      (body : jsstring) :
  parse_members (S f) acc (34 :: body)
  = pbind (str_chars body) (fun k r1 =>
      match skip_ws r1 with
      | c :: r2 =>
        if c =? 58 then
          pbind (parse_value f r2) (fun v r3 =>
            match skip_ws r3 with
            | d :: r' =>
              if d =? 44 then parse_members f (obj_set k v acc) r'
              else if d =? 125 then POk (JObj (obj_set k v acc)) r'
              else PErr
            | [] => PErr
            end)
        else PErr
      | [] => PErr
      end).
Proof. reflexivity. Qed.

(** One line, read as a value. *)
Lemma parse_value_line (f : nat) (l : line) (rest : jsstring) :
  parse_value (4 + f) (stringify_line l ++ rest) = POk (json_of_line l) rest.
Proof.
  unfold stringify_line.
  destruct (str_chars_QuoteJSONString (id l)
              ([44] ++ QuoteJSONString (u "qty") ++ [58] ++
               Number_toString (qty l) ++ [125] ++ rest))
    as (body & Ebody & Hbody).
  repeat rewrite <- app_assoc.
  rewrite Ebody. clear Ebody.
  change (4 + f)%nat with (S (S (S (S f)))).
  cbn -[parse_value str_chars].
  (* the brace, the key [id] and the colon *)
  rewrite parse_value_object, parse_members_step.
  change (str_chars (105 :: 100 :: 34 :: 58 :: 34 :: body))
    with (POk (A := jsstring) [105; 100] (58 :: 34 :: body)).
  rewrite pbind_ok. cbn [skip_ws is_ws orb N.eqb Pos.eqb].
  (* the id, a string *)
  rewrite parse_value_string, Hbody, !pbind_ok.
  cbn -[parse_members Number_toString].
  (* the comma, the key [qty] and the colon *)
  rewrite parse_members_step.
  change (str_chars (113 :: 116 :: 121 :: 34 :: 58 ::
                     Number_toString (qty l) ++ 125 :: rest))
    with (POk (A := jsstring) [113; 116; 121]
              (58 :: Number_toString (qty l) ++ 125 :: rest)).
  rewrite pbind_ok. cbn [skip_ws is_ws orb N.eqb Pos.eqb].
  (* the quantity, a number, and the closing brace *)
  destruct (Number_toString_head (qty l)) as (c & r & En & Hc).
  pose proof (parse_number_toString (qty l) (125 :: rest)
                (ends_number_brace rest)) as Hn.
  rewrite En in Hn |- *. cbn [app] in Hn |- *.
  rewrite parse_value_number by exact Hc.
  rewrite Hn. reflexivity.
Qed.

Lemma stringify_line_head (l : line) :
  exists r, stringify_line l = 123 :: r.
Proof. unfold stringify_line. eexists. reflexivity. Qed.

Lemma parse_elements_step (f : nat) (acc : list json) (s : jsstring) :
  parse_elements (S f) acc s
  = pbind (parse_value f s) (fun v r =>
      match skip_ws r with
      | d :: r' =>
        if d =? 44 then parse_elements f (v :: acc) r'
        else if d =? 93 then POk (JArr (rev (v :: acc))) r'
        else PErr
      | [] => PErr
      end).
Proof. reflexivity. Qed.

(** The lines of a non-empty array, up to the closing bracket. *)
Lemma parse_elements_lines (rest : jsstring) :
  forall (ls : cart) (l : line) (acc : list json) (f : nat),
    (5 + List.length ls <= f)%nat ->
    parse_elements f acc
      (join_comma (map stringify_line (l :: ls)) ++ 93 :: rest)
    = POk (JArr (rev acc ++ map json_of_line (l :: ls))) rest.
Proof.
  induction ls as [| l' ls IH]; intros l acc f Hf.
  - destruct f as [| f]; [cbn in Hf; lia | ].
    replace f with (4 + (f - 4))%nat by (cbn in Hf; lia).
    rewrite parse_elements_step. cbn [map join_comma].
    rewrite parse_value_line. cbn. reflexivity.
  - destruct f as [| f]; [cbn in Hf; lia | ].
    rewrite parse_elements_step.
    change (join_comma (map stringify_line (l :: l' :: ls)))
      with (stringify_line l ++
            44 :: join_comma (map stringify_line (l' :: ls))).
    rewrite <- app_assoc.
    replace f with (4 + (f - 4))%nat at 1 by (cbn in Hf; lia).
    rewrite parse_value_line. rewrite pbind_ok.
    cbn [app skip_ws is_ws N.eqb Pos.eqb orb].
    change (44 =? 44) with true. cbv iota.
    rewrite IH by (cbn in Hf |- *; lia).
    cbn [rev map]. rewrite <- app_assoc. reflexivity.
Qed.

Lemma stringify_line_length (l : line) :
  (16 <= List.length (stringify_line l))%nat.
Proof.
  unfold stringify_line, QuoteJSONString. rewrite u_id, u_qty.
  change (quote_body false [105; 100]) with [105; 100].
  change (quote_body false [113; 116; 121]) with [113; 116; 121].
  repeat (rewrite ?length_app; cbn [List.length app]). lia.
Qed.

Lemma join_comma_length (c : cart) :
  (16 * List.length c <= List.length (join_comma (map stringify_line c)))%nat.
Proof.
  induction c as [| l [| l' c'] IH].
  - cbn. lia.
  - cbn [map join_comma List.length].
    pose proof (stringify_line_length l). lia.
  - change (join_comma (map stringify_line (l :: l' :: c')))
      with (stringify_line l ++
            44 :: join_comma (map stringify_line (l' :: c'))).
    rewrite length_app. cbn [List.length] in IH |- *.
    pose proof (stringify_line_length l). lia.
Qed.

(** The array of lines, read as a value. *)
Lemma parse_value_cart (c : cart) (rest : jsstring) (f : nat) :
  (1 + 5 * List.length c <= f)%nat ->
  parse_value f (JSON_stringify c ++ rest) = POk (json_of_cart c) rest.
Proof.
  intros Hf. unfold JSON_stringify, json_of_cart.
  destruct f as [| f]; [lia | ].
  destruct c as [| l ls].
  - reflexivity.
  - destruct (stringify_line_head l) as (r & Er).
    repeat rewrite <- app_assoc.
    change ([91] ++ join_comma (map stringify_line (l :: ls)) ++ [93] ++ rest)
      with (91 :: (join_comma (map stringify_line (l :: ls)) ++ 93 :: rest)).
    assert (Hhead : exists r',
               join_comma (map stringify_line (l :: ls)) ++ 93 :: rest
               = 123 :: r').
    { destruct ls; cbn [map join_comma]; rewrite Er; eexists; reflexivity. }
    destruct Hhead as (r' & Er').
    pose proof (parse_elements_lines rest ls l [] f) as Hp.
    cbn [List.length] in Hf.
    specialize (Hp ltac:(lia)).
    rewrite Er' in Hp |- *.
    cbn [parse_value skip_ws is_ws]. cbn -[parse_elements].
    exact Hp.
Qed.

(** [JSON.parse(JSON.stringify(items))] is the array of the same lines. *)
Lemma JSON_parse_stringify (c : cart) :
  JSON_parse (JSON_stringify c) = Normal (json_of_cart c).
Proof.
  unfold JSON_parse.
  pose proof (parse_value_cart c []
                (2 * List.length (JSON_stringify c) + 2)) as H.
  rewrite app_nil_r in H. rewrite H.
  - reflexivity.
  - unfold JSON_stringify. rewrite !length_app.
    pose proof (join_comma_length c). cbn [List.length].
    destruct c as [| l ls].
    + cbn. lia.
    + cbn [List.length] in *. lia.
Qed.

Lemma str_eqb_eq (a b : jsstring) : str_eqb a b = true <-> a = b.
Proof.
  revert b. induction a as [| x a IH]; intros [| y b]; cbn;
    try (split; [discriminate | discriminate]); try tauto.
  rewrite andb_true_iff, N.eqb_eq, IH.
  split.
  - intros [-> ->]. reflexivity.
  - intros E. injection E as -> ->. split; reflexivity.
Qed.

Lemma str_eqb_refl (a : jsstring) : str_eqb a a = true.
Proof. apply str_eqb_eq. reflexivity. Qed.

Lemma str_eqb_neq (a b : jsstring) : str_eqb a b = false <-> a <> b.
Proof.
  rewrite <- str_eqb_eq. destruct (str_eqb a b); split;
    congruence.
Qed.
(* ================================================================= *)
(** ** [JSON.parse] always answers: the fuel is never used up *)

Lemma progress_weaken {A} (p : presult A) (n m : nat) :
  (n <= m)%nat -> progress p n -> progress p m.
Proof. destruct p; cbn; intros; try assumption. lia. Qed.

Lemma progress_pbind {A B} (p : presult A) (k : A -> jsstring -> presult B)
      (n m : nat) :
  progress p n ->
  (forall a r, (List.length r < n)%nat -> progress (k a r) m) ->
  progress (pbind p k) m.
Proof.
  destruct p as [a r | |]; cbn; intros Hp Hk.
  - apply Hk. exact Hp.
  - exact I.
  - contradiction.
Qed.

Lemma skip_ws_length (s : jsstring) :
  (List.length (skip_ws s) <= List.length s)%nat.
Proof.
  induction s as [| c r IH].
  - cbn. lia.
  - cbn [skip_ws]. destruct (is_ws c); cbn [List.length] in *; lia.
Qed.

Lemma str_chars_progress (s : jsstring) :
  progress (str_chars s) (List.length s).
Proof.
  remember (List.length s) as n eqn:En.
  assert (Hle : (List.length s <= n)%nat) by lia. clear En.
  revert s Hle.
  induction n as [n IH] using (well_founded_induction Wf_nat.lt_wf).
  intros s Hle.
  assert (Hrec : forall (c : N) (r : jsstring),
             (List.length r < n)%nat ->
             progress (pbind (str_chars r) (fun t rest => POk (c :: t) rest))
                      n).
  { intros c r Hr. eapply progress_pbind.
    - apply (IH (List.length r) Hr r). lia.
    - intros a r' Hr'. cbn. lia. }
  destruct s as [| c r]; [exact I | ].
  cbn [List.length] in Hle. cbn [str_chars].
  destruct (c =? 34); [cbn; lia | ].
  destruct (c =? 92).
  - destruct r as [| e r1]; [exact I | ].
    cbn [List.length] in Hle.
    destruct (e =? 117).
    + destruct r1 as [| h1 [| h2 [| h3 [| h4 r2]]]]; try exact I.
      cbn [List.length] in Hle.
      destruct (hex4 h1 h2 h3 h4); [ | exact I].
      apply Hrec. lia.
    + destruct (unescape e); [ | exact I].
      apply Hrec. lia.
  - destruct (c <? 32); [exact I | ].
    apply Hrec. lia.
Qed.

Lemma digits_length (s : jsstring) :
  forall a cnt,
    (List.length (snd (digits s a cnt)) <= List.length s)%nat.
Proof.
  induction s as [| c r IH]; intros a cnt.
  - cbn. lia.
  - cbn [digits]. destruct (is_digit c).
    + specialize (IH (10 * a + (c - 48)) (cnt + 1)).
      cbn [List.length]. lia.
    + cbn. lia.
Qed.

Lemma num_int_progress (s : jsstring) : progress (num_int s) (List.length s).
Proof.
  destruct s as [| c r]; [exact I | ].
  cbn [num_int]. destruct (c =? 48); [cbn; lia | ].
  destruct (is_digit c); [ | exact I].
  pose proof (digits_length r (c - 48) 0) as H.
  destruct (digits r (c - 48) 0) as [[v k] rest]. cbn in H |- *. lia.
Qed.

Lemma num_frac_progress (ip : N) (s : jsstring) :
  progress (num_frac ip s) (S (List.length s)).
Proof.
  destruct s as [| c r]; [cbn; lia | ].
  cbn [num_frac]. destruct (c =? 46); [ | cbn; lia].
  pose proof (digits_length r ip 0) as H.
  destruct (digits r ip 0) as [[v k] rest]. cbn [snd] in H.
  destruct (k =? 0); [exact I | ]. cbn in *. lia.
Qed.

Lemma num_exp_progress (s : jsstring) :
  progress (num_exp s) (S (List.length s)).
Proof.
  destruct s as [| c r]; [cbn; lia | ].
  cbn [num_exp]. destruct ((c =? 101) || (c =? 69)); [ | cbn; lia].
  assert (Hr1 : forall r1 : jsstring,
             (List.length r1 <= List.length r)%nat ->
             progress
               (let '(v, k, rest) := digits r1 0 0 in
                if k =? 0 then PErr
                else POk (if false then Z.opp (Z.of_N v) else Z.of_N v) rest)
               (S (List.length (c :: r))) /\
             progress
               (let '(v, k, rest) := digits r1 0 0 in
                if k =? 0 then PErr
                else POk (if true then Z.opp (Z.of_N v) else Z.of_N v) rest)
               (S (List.length (c :: r)))).
  { intros r1 Hl. pose proof (digits_length r1 0 0) as H.
    destruct (digits r1 0 0) as [[v k] rest]. cbn [snd] in H.
    destruct (k =? 0); split; try exact I; cbn in *; lia. }
  destruct r as [| g r']; [apply Hr1; cbn; lia | ].
  destruct (g =? 45); [apply Hr1; cbn; lia | ].
  destruct (g =? 43); apply Hr1; cbn; lia.
Qed.

Lemma number_after_sign_progress (neg : bool) (s : jsstring) :
  progress (number_after_sign neg s) (List.length s).
Proof.
  unfold number_after_sign.
  eapply progress_pbind; [apply num_int_progress | ].
  intros ip s2 H2.
  eapply progress_pbind; [apply num_frac_progress | ].
  intros [m k] s3 H3.
  eapply progress_pbind; [apply num_exp_progress | ].
  intros ex s4 H4. cbn. lia.
Qed.

Lemma parse_number_progress (s : jsstring) :
  progress (parse_number s) (List.length s).
Proof.
  destruct s as [| c r]; [exact I | ].
  cbn [parse_number]. destruct (c =? 45).
  - eapply progress_weaken; [ | apply number_after_sign_progress].
    cbn. lia.
  - apply number_after_sign_progress.
Qed.

Lemma expect_length (w s rest : jsstring) :
  expect w s = Some rest -> (List.length rest <= List.length s)%nat.
Proof.
  revert s. induction w as [| x w IH]; intros s H.
  - cbn in H. injection H as ->. lia.
  - destruct s as [| y s]; [discriminate | ].
    cbn [expect] in H. destruct (x =? y); [ | discriminate].
    apply IH in H. cbn. lia.
Qed.

Lemma expect_progress (w : jsstring) (v : json) (s : jsstring) (n : nat) :
  (List.length s < n)%nat ->
  progress (match expect w s with
            | Some rest => POk v rest
            | None => PErr
            end) n.
Proof.
  intros H. destruct (expect w s) as [rest |] eqn:E; [ | exact I].
  apply expect_length in E. cbn. lia.
Qed.

Lemma parse_progress :
  forall f : nat,
    (forall s, (2 * List.length s + 1 <= f)%nat ->
               progress (parse_value f s) (List.length s)) /\
    (forall acc s, (2 * List.length s + 2 <= f)%nat ->
                   progress (parse_elements f acc s) (List.length s)) /\
    (forall acc s, (2 * List.length s + 2 <= f)%nat ->
                   progress (parse_members f acc s) (List.length s)).
Proof.
  induction f as [| f (IHv & IHe & IHm)].
  - repeat split; intros; lia.
  - split; [ | split].
    + intros s Hf. cbn [parse_value].
      pose proof (skip_ws_length s) as Hws.
      destruct (skip_ws s) as [| c r]; [exact I | ].
      cbn [List.length] in Hws.
      destruct (c =? 34).
      { eapply progress_pbind; [apply str_chars_progress | ].
        intros t rest Hr. cbn. lia. }
      destruct (c =? 91).
      { pose proof (skip_ws_length r) as Hws'.
        destruct (skip_ws r) as [| d r']; [exact I | ].
        cbn [List.length] in Hws'.
        destruct (d =? 93); [cbn; lia | ].
        eapply progress_weaken; [ | apply IHe; lia]. lia. }
      destruct (c =? 123).
      { pose proof (skip_ws_length r) as Hws'.
        destruct (skip_ws r) as [| d r']; [exact I | ].
        cbn [List.length] in Hws'.
        destruct (d =? 125); [cbn; lia | ].
        eapply progress_weaken; [ | apply IHm; lia]. lia. }
      destruct (c =? 116); [apply expect_progress; lia | ].
      destruct (c =? 102); [apply expect_progress; lia | ].
      destruct (c =? 110); [apply expect_progress; lia | ].
      destruct ((c =? 45) || is_digit c); [ | exact I].
      eapply progress_pbind; [apply parse_number_progress | ].
      intros n rest Hr. cbn in Hr |- *. lia.
    + intros acc s Hf. cbn [parse_elements].
      eapply progress_pbind; [apply IHv; lia | ].
      intros v r Hr.
      pose proof (skip_ws_length r) as Hws.
      destruct (skip_ws r) as [| d r']; [exact I | ].
      cbn [List.length] in Hws.
      destruct (d =? 44).
      { eapply progress_weaken; [ | apply IHe; lia]. lia. }
      destruct (d =? 93); [cbn; lia | exact I].
    + intros acc s Hf. cbn [parse_members].
      pose proof (skip_ws_length s) as Hws.
      destruct (skip_ws s) as [| q r]; [exact I | ].
      cbn [List.length] in Hws.
      destruct (q =? 34); [ | exact I].
      eapply progress_pbind; [apply str_chars_progress | ].
      intros k r1 Hr1.
      pose proof (skip_ws_length r1) as Hws1.
      destruct (skip_ws r1) as [| c r2]; [exact I | ].
      cbn [List.length] in Hws1.
      destruct (c =? 58); [ | exact I].
      eapply progress_pbind; [apply IHv; lia | ].
      intros v r3 Hr3.
      pose proof (skip_ws_length r3) as Hws3.
      destruct (skip_ws r3) as [| d r']; [exact I | ].
      cbn [List.length] in Hws3.
      destruct (d =? 44).
      { eapply progress_weaken; [ | apply IHm; lia]. lia. }
      destruct (d =? 125); [cbn; lia | exact I].
Qed.

(** [JSON.parse] returns a value or throws a SyntaxError. *)
Lemma JSON_parse_total (text : jsstring) :
  (exists v, JSON_parse text = Normal v) \/ JSON_parse text = Throw SyntaxError.
Proof.
  unfold JSON_parse.
  destruct (parse_progress (2 * List.length text + 2)) as (Hv & _ & _).
  specialize (Hv text ltac:(lia)).
  destruct (parse_value (2 * List.length text + 2) text) as [v rest | |].
  - destruct (skip_ws rest); [left; exists v; reflexivity | right; reflexivity].
  - right. reflexivity.
  - contradiction.
Qed.

(* ================================================================= *)
(** ** Signs in binary64 arithmetic *)

Lemma shr_1_nonneg (mrs : shr_record) :
  (0 <= shr_m mrs)%Z -> (0 <= shr_m (shr_1 mrs))%Z.
Proof.
  destruct mrs as [m r s]. cbn [shr_m]. intros H.
  destruct m as [| p | p]; cbn.
  - lia.
  - destruct p; cbn; lia.
  - lia.
Qed.

Lemma iter_pos_invariant {A} (P : A -> Prop) (f : A -> A) :
  (forall x, P x -> P (f x)) ->
  forall (p : positive) (x : A), P x -> P (iter_pos f p x).
Proof.
  intros Hf. induction p as [p IH | p IH |]; intros x Hx; cbn.
  - apply IH, IH, Hf, Hx.
  - apply IH, IH, Hx.
  - apply Hf, Hx.
Qed.

Lemma shr_nonneg (mrs : shr_record) (e n : Z) :
  (0 <= shr_m mrs)%Z -> (0 <= shr_m (fst (shr mrs e n)))%Z.
Proof.
  intros H. unfold shr. destruct n as [| p | p]; cbn [fst]; try exact H.
  apply (iter_pos_invariant (fun x => (0 <= shr_m x)%Z)); [ | exact H].
  exact shr_1_nonneg.
Qed.

Lemma shr_fexp_nonneg (m e : Z) (l : location) :
  (0 <= m)%Z -> (0 <= shr_m (fst (shr_fexp 53 1024 m e l)))%Z.
Proof.
  intros H. unfold shr_fexp. apply shr_nonneg.
  destruct l as [| []]; exact H.
Qed.

Lemma round_nearest_even_nonneg (m : Z) (l : location) :
  (0 <= m)%Z -> (0 <= round_nearest_even m l)%Z.
Proof.
  intros H. unfold round_nearest_even.
  destruct l as [| []]; try lia.
  destruct (Z.even m); lia.
Qed.

(** Rounding a non-negative significand keeps the sign it is given. *)
Lemma binary_round_aux_sign (m e : Z) (l : location) :
  (0 <= m)%Z -> nonneg (binary_round_aux 53 1024 false m e l).
Proof.
  intros H. unfold binary_round_aux.
  pose proof (shr_fexp_nonneg m e l H) as H1.
  destruct (shr_fexp 53 1024 m e l) as [mrs' e']. cbn [fst] in H1.
  pose proof (shr_fexp_nonneg _ e' loc_Exact
                (round_nearest_even_nonneg (shr_m mrs')
                   (loc_of_shr_record mrs') H1)) as H2.
  destruct (shr_fexp 53 1024 _ e' loc_Exact) as [mrs'' e'']. cbn [fst] in H2.
  destruct (shr_m mrs'') as [| p | p].
  - exact I.
  - destruct (e'' <=? 1024 - 53)%Z; exact I.
  - lia.
Qed.

Lemma binary_round_nonneg (m : positive) (e : Z) :
  nonneg (binary_round 53 1024 false m e).
Proof.
  unfold binary_round.
  destruct (shl_align m e _) as [mz ez].
  apply binary_round_aux_sign. lia.
Qed.

Lemma of_Z_nonneg (z : Z) : (0 <= z)%Z -> nonneg (of_Z z).
Proof.
  intros H. unfold of_Z, binary_normalize.
  destruct z as [| p | p].
  - exact I.
  - apply binary_round_nonneg.
  - lia.
Qed.

Lemma fmul_nonneg (x y : number) :
  nonneg x -> finite_positive y -> nonneg (fmul x y).
Proof.
  unfold fmul.
  destruct x as [[] | [] | | [] mx ex]; try contradiction;
    destruct y as [[] | [] | | [] my ey]; try contradiction; intros _ _;
      try exact I.
  cbn [SFmul xorb]. apply binary_round_aux_sign. lia.
Qed.

Lemma fmul_finite_positive (x y : number) :
  finite_positive x -> positive_number y -> nonneg (fmul x y).
Proof.
  unfold fmul.
  destruct x as [[] | [] | | [] mx ex]; try contradiction;
    destruct y as [[] | [] | | [] my ey]; try contradiction; intros _ _;
      try exact I.
  cbn [SFmul xorb]. apply binary_round_aux_sign. lia.
Qed.

Lemma fadd_nonneg (x y : number) :
  finite_positive x -> nonneg y -> nonneg (fadd x y).
Proof.
  unfold fadd.
  destruct x as [[] | [] | | [] mx ex]; try contradiction;
    destruct y as [[] | [] | | [] my ey]; try contradiction; intros _ _;
      try exact I.
  cbn [SFadd cond_Zopp].
  destruct (shl_align mx ex (Z.min ex ey)) as [ma ea].
  destruct (shl_align my ey (Z.min ex ey)) as [mb eb].
  cbn [fst]. cbn [Z.add binary_normalize].
  apply binary_round_nonneg.
Qed.

Lemma fdiv_nonneg (x y : number) :
  nonneg x -> finite_positive y -> nonneg (fdiv x y).
Proof.
  unfold fdiv.
  destruct x as [[] | [] | | [] mx ex]; try contradiction;
    destruct y as [[] | [] | | [] my ey]; try contradiction; intros _ _;
      try exact I.
  cbn [SFdiv xorb].
  destruct (SFdiv_core_binary 53 1024 (Z.pos mx) ex (Z.pos my) ey)
    as [[q e'] l] eqn:E.
  apply binary_round_aux_sign.
  unfold SFdiv_core_binary in E.
  set (m' := match (ex - ey - _)%Z with
             | Z0 => Z.pos mx
             | Z.pos _ => Z.shiftl (Z.pos mx) _
             | Z.neg _ => 0%Z
             end) in E.
  assert (Hm : (0 <= m')%Z).
  { subst m'. destruct (ex - ey - _)%Z; try lia.
    apply Z.shiftl_nonneg. lia. }
  pose proof (Z.div_pos m' (Z.pos my) Hm ltac:(lia)) as Hq.
  unfold Z.div in Hq.
  destruct (Z.div_eucl m' (Z.pos my)) as [q0 r0].
  injection E as <- _ _. exact Hq.
Qed.

Lemma Math_round_nonneg (x : number) : nonneg x -> nonneg (Math_round x).
Proof.
  destruct x as [[] | [] | | [] m e]; try contradiction; intros _;
    try exact I.
  cbn [Math_round]. destruct (0 <=? e)%Z eqn:He; [exact I | ].
  apply Z.leb_gt in He.
  set (n := ((2 * Z.pos m + 2 ^ (- e)) / 2 ^ (1 - e))%Z).
  assert (Hn : (0 <= n)%Z).
  { subst n. apply Z.div_pos.
    - pose proof (Z.pow_pos_nonneg 2 (- e)). lia.
    - apply Z.pow_pos_nonneg; lia. }
  destruct (n =? 0)%Z; [exact I | ].
  apply of_Z_nonneg. exact Hn.
Qed.

Lemma SFcompare_refl (a : number) : a <> NaN -> SFcompare a a = Some Eq.
Proof.
  unfold NaN. intros Ha.
  destruct a as [[] | [] | | [] m e]; try reflexivity;
    try congruence; cbn [SFcompare];
      rewrite Z.compare_refl, Pos.compare_cont_refl; reflexivity.
Qed.

Lemma SFcompare_defined (a x : number) :
  a <> NaN -> x <> NaN -> SFcompare a x <> None.
Proof.
  unfold NaN. intros Ha Hx.
  destruct a as [[] | [] | | [] ma ea]; try congruence;
    destruct x as [[] | [] | | [] mx ex]; try congruence; discriminate.
Qed.

(** [Math.max(a, x)] is at least [a] as soon as neither is NaN. *)
Lemma Math_max_ge (a x : number) :
  a <> NaN -> x <> NaN -> fge (Math_max a x) a = true.
Proof.
  intros Ha Hx. unfold fge, SFleb, Math_max.
  pose proof (SFcompare_defined a x Ha Hx) as Hd.
  destruct (SFcompare a x) as [[] |] eqn:E; try congruence.
  - destruct a as [[] | [] | | [] ma ea];
      try (rewrite SFcompare_refl by exact Ha; reflexivity).
    rewrite E. reflexivity.
  - rewrite E. reflexivity.
  - rewrite SFcompare_refl by exact Ha. reflexivity.
Qed.

Lemma nonneg_not_NaN (x : number) : nonneg x -> x <> NaN.
Proof. intros H E. subst x. exact H. Qed.

(** [Math.max(0.5, kg)] for a weight [kg >= 0]. *)
Lemma billable_weight_positive (kg : number) :
  fge kg (of_Z 0) = true -> positive_number (Math_max (lit 5 1) kg).
Proof.
  unfold fge, SFleb. change (of_Z 0) with (S754_zero false).
  change (lit 5 1) with (S754_finite false 4503599627370496 (-53)).
  intros H.
  destruct kg as [[] | [] | | [] m e]; try discriminate H; try exact I.
  unfold Math_max. cbn [SFcompare].
  destruct (-53 ?= e)%Z; try exact I.
  destruct (Pos.compare_cont Eq 4503599627370496 m); exact I.
Qed.

(* ================================================================= *)
(** ** The pricing estimate *)

(** A zone that is not the name of an [Object.prototype] member finds a
    base fee and a rate per kilogram, its own or the default ones. *)
Lemma zone_lookup (zone : jsstring) :
  get zoneBase_table zone <> Inherited ->
  exists b p,
    finite_positive b /\ finite_positive p /\
    nullish (get zoneBase_table zone) (of_Z 12) = VNum b /\
    nullish (get perKg_table zone) (lit 18 1) = VNum p.
Proof.
  unfold get, zoneBase_table, perKg_table. cbn [own_property].
  destruct (str_eqb (u "local") zone);
    [intros _; eexists _, _; repeat split; exact I | ].
  destruct (str_eqb (u "regional") zone);
    [intros _; eexists _, _; repeat split; exact I | ].
  destruct (str_eqb (u "national") zone);
    [intros _; eexists _, _; repeat split; exact I | ].
  destruct (str_eqb (u "international") zone);
    [intros _; eexists _, _; repeat split; exact I | ].
  destruct (existsb (str_eqb zone) Object_prototype_names);
    [intros H; contradiction H; reflexivity | ].
  intros _; eexists _, _; repeat split; exact I.
Qed.

Lemma service_lookup (service : jsstring) :
  get svc_table service <> Inherited ->
  exists m,
    finite_positive m /\
    nullish (get svc_table service) (lit 10 1) = VNum m.
Proof.
  unfold get, svc_table. cbn [own_property].
  destruct (str_eqb (u "express") service);
    [intros _; eexists; repeat split; exact I | ].
  destruct (str_eqb (u "standard") service);
    [intros _; eexists; repeat split; exact I | ].
  destruct (str_eqb (u "economy") service);
    [intros _; eexists; repeat split; exact I | ].
  destruct (existsb (str_eqb service) Object_prototype_names);
    [intros H; contradiction H; reflexivity | ].
  intros _; eexists; repeat split; exact I.
Qed.

(** For a weight [kg >= 0] and a zone and a service tier that are keys of
    the tables or unknown words, the estimate is at least 5. *)
Lemma estimatePrice_floor (kg : number) (zone service : jsstring) :
  fge kg (of_Z 0) = true ->
  get zoneBase_table zone <> Inherited ->
  get svc_table service <> Inherited ->
  fge (estimatePrice (Some kg) (Some zone) (Some service)) (of_Z 5) = true.
Proof.
  intros Hkg Hz Hs.
  destruct (zone_lookup zone Hz) as (b & p & Hb & Hp & Eb & Ep).
  destruct (service_lookup service Hs) as (m & Hm & Em).
  unfold estimatePrice. rewrite Eb, Ep, Em.
  cbn [js_times js_plus ToNumber].
  apply Math_max_ge; [discriminate | ].
  apply nonneg_not_NaN.
  apply fdiv_nonneg; [ | exact I].
  apply Math_round_nonneg.
  apply fmul_nonneg; [ | exact I].
  apply fmul_nonneg; [ | exact Hm].
  apply fadd_nonneg; [exact Hb | ].
  apply fmul_finite_positive; [exact Hp | ].
  apply billable_weight_positive. exact Hkg.
Qed.

(** C9: [estimatePrice(1, 'local', 'standard')] is the number 7.2, the
    value of [(6 + 1.2 * 1) * 1.0], which is above the floor of 5; the
    defaults of the three parameters give the same call. *)
Theorem estimatePrice_reference :
  estimatePrice (Some (of_Z 1)) (Some (u "local")) (Some (u "standard"))
  = lit 72 1 /\
  fmul (fadd (of_Z 6) (fmul (lit 12 1) (of_Z 1))) (lit 10 1) = lit 72 1 /\
  fge (lit 72 1) (of_Z 5) = true /\
  estimatePrice None None None = lit 72 1.
Proof. repeat split; vm_compute; reflexivity. Qed.

(** C4: [estimatePrice(1, 'constructor', 'standard')] is NaN, which is not
    at least 5: the zone names a member that the two zone tables inherit
    from [Object.prototype], so [??] keeps it instead of the default. *)
Theorem estimatePrice_inherited_zone :
  fge (of_Z 1) (of_Z 0) = true /\
  get zoneBase_table (u "constructor") = Inherited /\
  estimatePrice (Some (of_Z 1)) (Some (u "constructor")) (Some (u "standard"))
  = NaN /\
  fge (estimatePrice (Some (of_Z 1)) (Some (u "constructor"))
                     (Some (u "standard"))) (of_Z 5) = false.
Proof. repeat split; vm_compute; reflexivity. Qed.


(* ================================================================= *)
(** ** Magnitudes in binary64 arithmetic *)

Section Magnitudes.
Local Open Scope Z_scope.

Lemma digits2_pos_bounds (p : positive) :
  2 ^ (Z.pos (digits2_pos p) - 1) <= Z.pos p < 2 ^ Z.pos (digits2_pos p).
Proof.
  induction p as [p IH | p IH |]; cbn [digits2_pos].
  - rewrite Pos2Z.inj_succ.
    replace (Z.succ (Z.pos (digits2_pos p)) - 1)
      with (Z.succ (Z.pos (digits2_pos p) - 1)) by lia.
    rewrite !Z.pow_succ_r by lia. lia.
  - rewrite Pos2Z.inj_succ.
    replace (Z.succ (Z.pos (digits2_pos p)) - 1)
      with (Z.succ (Z.pos (digits2_pos p) - 1)) by lia.
    rewrite !Z.pow_succ_r by lia. lia.
  - cbn. lia.
Qed.

(** The number of bits of a positive integer below a power of two. *)
Lemma Zdigits2_le (m n : Z) :
  0 < m -> 0 <= n -> m < 2 ^ n -> Zdigits2 m <= n.
Proof.
  intros Hm Hn H. destruct m as [| p | p]; try lia.
  cbn [Zdigits2]. pose proof (digits2_pos_bounds p) as [Hlo _].
  apply Z.nlt_ge. intros Hc.
  assert (2 ^ n <= 2 ^ (Z.pos (digits2_pos p) - 1))
    by (apply Z.pow_le_mono_r; lia).
  lia.
Qed.

Lemma Zdigits2_le_succ (m n : Z) :
  0 < m -> 0 <= n -> m <= 2 ^ n -> Zdigits2 m <= n + 1.
Proof.
  intros Hm Hn H. apply Zdigits2_le; try lia.
  rewrite Z.pow_add_r by lia. change (2 ^ 1) with 2.
  pose proof (Z.pow_pos_nonneg 2 n). lia.
Qed.

Lemma shr_1_half (mrs : shr_record) :
  0 <= shr_m mrs -> shr_m (shr_1 mrs) = shr_m mrs / 2.
Proof.
  destruct mrs as [m r s]. cbn [shr_m]. intros H.
  destruct m as [| p | p]; try lia; cbn [shr_1 shr_m].
  - reflexivity.
  - destruct p as [p | p |]; cbn [shr_m].
    + apply Z.div_unique with (r := 1); lia.
    + apply Z.div_unique with (r := 0); lia.
    + reflexivity.
Qed.

Lemma iter_shr_1 (p : positive) :
  forall mrs : shr_record,
    0 <= shr_m mrs ->
    shr_m (iter_pos shr_1 p mrs) = shr_m mrs / 2 ^ Z.pos p.
Proof.
  assert (Hdd : forall a b c, 0 < b -> 0 < c -> a / b / c = a / (b * c)).
  { intros a b c Hb Hc. apply Z.div_div; lia. }
  assert (Hnn : forall q mrs, 0 <= shr_m mrs ->
                              0 <= shr_m (iter_pos shr_1 q mrs)).
  { intros q mrs H.
    apply (iter_pos_invariant (fun x => 0 <= shr_m x)); [ | exact H].
    exact shr_1_nonneg. }
  assert (HxO : forall q, 2 ^ Z.pos q~0 = 2 ^ Z.pos q * 2 ^ Z.pos q).
  { intros q. replace (Z.pos q~0) with (Z.pos q + Z.pos q) by lia.
    apply Z.pow_add_r; lia. }
  assert (HxI : forall q, 2 ^ Z.pos q~1 = 2 * (2 ^ Z.pos q * 2 ^ Z.pos q)).
  { intros q. replace (Z.pos q~1) with (1 + (Z.pos q + Z.pos q)) by lia.
    rewrite !Z.pow_add_r by lia. reflexivity. }
  induction p as [p IH | p IH |]; intros mrs H; cbn [iter_pos].
  - rewrite IH by (apply Hnn, shr_1_nonneg, H).
    rewrite IH by (apply shr_1_nonneg, H).
    rewrite shr_1_half by exact H.
    pose proof (Z.pow_pos_nonneg 2 (Z.pos p)) as Hp.
    rewrite !Hdd by lia. f_equal. rewrite HxI. lia.
  - rewrite IH by (apply Hnn, H). rewrite IH by exact H.
    pose proof (Z.pow_pos_nonneg 2 (Z.pos p)) as Hp.
    rewrite !Hdd by lia. f_equal. rewrite HxO. reflexivity.
  - rewrite shr_1_half by exact H. reflexivity.
Qed.

(** [shr_fexp] divides by the power of two that brings the significand to
    the precision, and moves the exponent accordingly. *)
Lemma shr_fexp_value (m e : Z) (l : location) :
  0 <= m ->
  let k := Z.max 0 (fexp 53 1024 (Zdigits2 m + e) - e) in
  shr_m (fst (shr_fexp 53 1024 m e l)) = m / 2 ^ k /\
  snd (shr_fexp 53 1024 m e l) = e + k.
Proof.
  intros Hm k. unfold shr_fexp, shr.
  assert (Hrec : shr_m (shr_record_of_loc m l) = m)
    by (destruct l as [| []]; reflexivity).
  subst k. destruct (fexp 53 1024 (Zdigits2 m + e) - e) as [| p | p] eqn:E;
    cbn [fst snd].
  - rewrite Hrec. cbn. rewrite Z.div_1_r. split; [reflexivity | lia].
  - rewrite iter_shr_1 by (rewrite Hrec; exact Hm).
    rewrite Hrec. rewrite Z.max_r by lia. split; reflexivity.
  - rewrite Hrec. rewrite Z.max_l by lia. cbn. rewrite Z.div_1_r.
    split; [reflexivity | lia].
Qed.

Lemma round_nearest_even_range (m : Z) (l : location) :
  m <= round_nearest_even m l <= m + 1.
Proof.
  unfold round_nearest_even. destruct l as [| []]; try lia.
  destruct (Z.even m); lia.
Qed.

(** The shape of a rounded result: the significand [M], cut to the
    precision, is kept or raised by one, and cut once more if that carried
    into one more bit. *)
Lemma binary_round_aux_shape (M E : Z) :
  0 <= M ->
  let k := Z.max 0 (fexp 53 1024 (Zdigits2 M + E) - E) in
  exists m2,
    M / 2 ^ k <= m2 <= M / 2 ^ k + 1 /\
    let k2 := Z.max 0 (fexp 53 1024 (Zdigits2 m2 + (E + k)) - (E + k)) in
    binary_round_aux 53 1024 false M E loc_Exact
    = match m2 / 2 ^ k2 with
      | Z0 => S754_zero false
      | Z.pos m =>
        if E + k + k2 <=? 1024 - 53 then S754_finite false m (E + k + k2)
        else S754_infinity false
      | Z.neg _ => S754_nan
      end.
Proof.
  intros HM k. unfold binary_round_aux.
  destruct (shr_fexp_value M E loc_Exact HM) as [Hm1 He1]. fold k in Hm1, He1.
  destruct (shr_fexp 53 1024 M E loc_Exact) as [mrs' e'].
  cbn [fst snd] in Hm1, He1. subst e'.
  set (m2 := round_nearest_even (shr_m mrs') (loc_of_shr_record mrs')).
  pose proof (round_nearest_even_range (shr_m mrs') (loc_of_shr_record mrs'))
    as Hr. fold m2 in Hr. rewrite Hm1 in Hr.
  assert (Hm2 : 0 <= m2).
  { pose proof (Z.pow_pos_nonneg 2 k ltac:(lia) ltac:(lia)).
    pose proof (Z.div_pos M (2 ^ k) HM ltac:(lia)). lia. }
  exists m2. split; [exact Hr | ].
  destruct (shr_fexp_value m2 (E + k) loc_Exact Hm2) as [Hm3 He3].
  destruct (shr_fexp 53 1024 m2 (E + k) loc_Exact) as [mrs'' e''].
  cbn [fst snd] in Hm3, He3. subst e''. rewrite Hm3. reflexivity.
Qed.

Lemma fexp_le (x b : Z) :
  x - 53 <= b -> -1074 <= b -> fexp 53 1024 x <= b.
Proof. unfold fexp, emin. lia. Qed.

Lemma pow2_split (a b : Z) :
  0 <= a -> 0 <= b -> 2 ^ (a + b) = 2 ^ a * 2 ^ b.
Proof. intros. apply Z.pow_add_r; assumption. Qed.

(** Cutting [k] bits keeps a significand below [2^n] below [2^(n-k)]. *)
Lemma div_pow2_lt (M n k : Z) :
  0 <= k <= n -> M < 2 ^ n -> M / 2 ^ k < 2 ^ (n - k).
Proof.
  intros Hk H. apply Z.div_lt_upper_bound.
  - apply Z.pow_pos_nonneg; lia.
  - rewrite <- pow2_split by lia. replace (k + (n - k)) with n by lia.
    exact H.
Qed.

Lemma div_pow2_le (M n k : Z) :
  0 <= k <= n -> M <= 2 ^ n -> M / 2 ^ k <= 2 ^ (n - k).
Proof.
  intros Hk H.
  replace (2 ^ (n - k)) with (2 ^ n / 2 ^ k).
  - apply Z.div_le_mono; [apply Z.pow_pos_nonneg; lia | exact H].
  - replace n with ((n - k) + k) at 1 by lia.
    rewrite pow2_split by lia. apply Z.div_mul.
    pose proof (Z.pow_pos_nonneg 2 k). lia.
Qed.

Lemma div_pow2_ge (M n k : Z) :
  0 <= k <= n -> 2 ^ n <= M -> 2 ^ (n - k) <= M / 2 ^ k.
Proof.
  intros Hk H. apply Z.div_le_lower_bound.
  - apply Z.pow_pos_nonneg; lia.
  - rewrite <- pow2_split by lia. replace (k + (n - k)) with n by lia.
    exact H.
Qed.

(** A positive significand below [2^(B-E)] is at an exponent below [B]. *)
Lemma exponent_below (M E B : Z) : 0 < M -> M < 2 ^ (B - E) -> E < B.
Proof.
  intros HM H. apply Z.nle_gt. intros Hc.
  assert (2 ^ (B - E) <= 1).
  { destruct (Z.eq_dec (B - E) 0) as [-> | Hn]; [cbn; lia | ].
    rewrite Z.pow_neg_r by lia. lia. }
  lia.
Qed.

(** Rounding a value below [2^B] gives +0 or a finite number of at most
    [2^B]. *)
Lemma round_upper (M E B : Z) :
  0 < M -> M < 2 ^ (B - E) -> -1074 <= B <= 970 ->
  binary_round_aux 53 1024 false M E loc_Exact = S754_zero false \/
  exists m' e',
    binary_round_aux 53 1024 false M E loc_Exact = S754_finite false m' e' /\
    e' <= B /\ Z.pos m' <= 2 ^ (B - e').
Proof.
  intros HM H HB.
  pose proof (exponent_below M E B HM H) as HE.
  destruct (binary_round_aux_shape M E ltac:(lia)) as (m2 & Hm2 & Er).
  cbv zeta in Er. rewrite Er. clear Er.
  set (k := Z.max 0 (fexp 53 1024 (Zdigits2 M + E) - E)) in *.
  assert (HD : Zdigits2 M <= B - E) by (apply Zdigits2_le; lia).
  assert (Hf : fexp 53 1024 (Zdigits2 M + E) <= B) by (apply fexp_le; lia).
  assert (Hk : 0 <= k <= B - E) by (subst k; lia).
  pose proof (div_pow2_lt M (B - E) k Hk H) as Hm1.
  pose proof (Z.div_pos M (2 ^ k) ltac:(lia)
                ltac:(apply Z.pow_pos_nonneg; lia)) as Hm1'.
  replace (B - E - k) with (B - (E + k)) in Hm1 by lia.
  set (e1 := E + k) in *.
  assert (He1 : e1 <= B) by (subst e1; lia).
  destruct (Z.eq_dec m2 0) as [-> | Hnz].
  { left. rewrite Z.div_0_l; [reflexivity | ].
    apply Z.pow_nonzero; lia. }
  assert (Hm2' : 0 < m2 <= 2 ^ (B - e1)) by lia.
  assert (HD2 : Zdigits2 m2 <= B - e1 + 1)
    by (apply Zdigits2_le_succ; lia).
  assert (Hf2 : fexp 53 1024 (Zdigits2 m2 + e1) <= B)
    by (apply fexp_le; lia).
  set (k2 := Z.max 0 (fexp 53 1024 (Zdigits2 m2 + e1) - e1)) in *.
  assert (Hk2 : 0 <= k2 <= B - e1) by (subst k2; lia).
  pose proof (div_pow2_le m2 (B - e1) k2 Hk2 ltac:(lia)) as Hm3.
  pose proof (Z.div_pos m2 (2 ^ k2) ltac:(lia)
                ltac:(apply Z.pow_pos_nonneg; lia)) as Hm3'.
  destruct (m2 / 2 ^ k2) as [| m3 | m3] eqn:E3; [left; reflexivity | | lia].
  right. exists m3, (e1 + k2).
  assert (Hle : (e1 + k2 <=? 1024 - 53) = true) by (apply Z.leb_le; lia).
  rewrite Hle. split; [reflexivity | ]. split; [lia | ].
  replace (B - (e1 + k2)) with (B - e1 - k2) by lia. exact Hm3.
Qed.

(** Rounding a value between [2^A] and [2^B] gives a finite number between
    [2^A] and [2^B]. *)
Lemma round_between (M E A B : Z) :
  2 ^ (A - E) <= M -> M < 2 ^ (B - E) -> E <= A ->
  -1074 <= A -> B - 52 <= A -> B <= 970 ->
  exists m' e',
    binary_round_aux 53 1024 false M E loc_Exact = S754_finite false m' e' /\
    e' <= A /\ 2 ^ (A - e') <= Z.pos m' <= 2 ^ (B - e').
Proof.
  intros Hlo H HEA HA HBA HB.
  assert (HM : 0 < M).
  { pose proof (Z.pow_pos_nonneg 2 (A - E)). lia. }
  pose proof (exponent_below M E B HM H) as HE.
  assert (HAB : A - E < B - E).
  { apply (Z.pow_lt_mono_r_iff 2); lia. }
  destruct (binary_round_aux_shape M E ltac:(lia)) as (m2 & Hm2 & Er).
  cbv zeta in Er. rewrite Er. clear Er.
  set (k := Z.max 0 (fexp 53 1024 (Zdigits2 M + E) - E)) in *.
  assert (HD : Zdigits2 M <= B - E) by (apply Zdigits2_le; lia).
  assert (Hf : fexp 53 1024 (Zdigits2 M + E) <= A) by (apply fexp_le; lia).
  assert (Hk : 0 <= k <= A - E) by (subst k; lia).
  pose proof (div_pow2_lt M (B - E) k ltac:(lia) H) as Hm1.
  pose proof (div_pow2_ge M (A - E) k Hk Hlo) as Hm1'.
  replace (B - E - k) with (B - (E + k)) in Hm1 by lia.
  replace (A - E - k) with (A - (E + k)) in Hm1' by lia.
  set (e1 := E + k) in *.
  assert (He1 : e1 <= A) by (subst e1; lia).
  assert (Hm2' : 2 ^ (A - e1) <= m2 <= 2 ^ (B - e1)) by lia.
  assert (Hm2p : 0 < m2).
  { pose proof (Z.pow_pos_nonneg 2 (A - e1)). lia. }
  assert (HD2 : Zdigits2 m2 <= B - e1 + 1)
    by (apply Zdigits2_le_succ; lia).
  assert (Hf2 : fexp 53 1024 (Zdigits2 m2 + e1) <= A)
    by (apply fexp_le; lia).
  set (k2 := Z.max 0 (fexp 53 1024 (Zdigits2 m2 + e1) - e1)) in *.
  assert (Hk2 : 0 <= k2 <= A - e1) by (subst k2; lia).
  pose proof (div_pow2_le m2 (B - e1) k2 ltac:(lia) ltac:(lia)) as Hm3.
  pose proof (div_pow2_ge m2 (A - e1) k2 Hk2 ltac:(lia)) as Hm3'.
  assert (Hp3 : 0 < 2 ^ (A - e1 - k2)) by (apply Z.pow_pos_nonneg; lia).
  destruct (m2 / 2 ^ k2) as [| m3 | m3] eqn:E3; [lia | | lia].
  exists m3, (e1 + k2).
  assert (Hle : (e1 + k2 <=? 1024 - 53) = true) by (apply Z.leb_le; lia).
  rewrite Hle. split; [reflexivity | ]. split; [lia | ].
  replace (A - (e1 + k2)) with (A - e1 - k2) by lia.
  replace (B - (e1 + k2)) with (B - e1 - k2) by lia. lia.
Qed.

Lemma iter_xO_value (m d : positive) :
  Z.pos (Pos.iter xO m d) = Z.pos m * 2 ^ Z.pos d.
Proof.
  induction d as [| d IH] using Pos.peano_ind.
  - cbn. lia.
  - rewrite Pos.iter_succ, Pos2Z.inj_xO, IH, Pos2Z.inj_succ.
    rewrite Z.pow_succ_r by lia. lia.
Qed.

(** [shl_align] keeps the value and lowers the exponent to the one asked
    for, when that is lower. *)
Lemma shl_align_value (m : positive) (e e' : Z) :
  exists m1,
    shl_align m e e' = (m1, Z.min e e') /\
    Z.pos m1 = Z.pos m * 2 ^ (e - Z.min e e').
Proof.
  unfold shl_align. destruct (e' - e) as [| d | d] eqn:E.
  - exists m. rewrite Z.min_l by lia. rewrite Z.sub_diag. cbn.
    split; [reflexivity | lia].
  - exists m. rewrite Z.min_l by lia. rewrite Z.sub_diag. cbn.
    split; [reflexivity | lia].
  - exists (Pos.iter xO m d). rewrite Z.min_r by lia.
    split; [reflexivity | ].
    rewrite iter_xO_value. f_equal. f_equal. lia.
Qed.


(** *** Integers of magnitude at most 2^53 are held and added exactly *)

Lemma digits2_pos_unique (m : positive) (d : Z) :
  2 ^ (d - 1) <= Z.pos m < 2 ^ d -> Z.pos (digits2_pos m) = d.
Proof.
  intros [Hlo Hhi]. pose proof (digits2_pos_bounds m) as [Blo Bhi].
  set (D := Z.pos (digits2_pos m)) in *.
  assert (HD : 0 < D) by (subst D; lia).
  destruct (Z.lt_trichotomy D d) as [Hlt | [E | Hgt]]; [ | exact E | ].
  - assert (2 ^ D <= 2 ^ (d - 1)) by (apply Z.pow_le_mono_r; lia). lia.
  - assert (2 ^ d <= 2 ^ (D - 1)) by (apply Z.pow_le_mono_r; lia). lia.
Qed.

(** Multiplying by [2^k] adds [k] bits. *)
Lemma digits2_pos_scale (M m' : positive) (k : Z) :
  0 <= k -> Z.pos m' = Z.pos M * 2 ^ k ->
  Z.pos (digits2_pos m') = Z.pos (digits2_pos M) + k.
Proof.
  intros Hk E. apply digits2_pos_unique.
  pose proof (digits2_pos_bounds M) as [Blo Bhi].
  set (D := Z.pos (digits2_pos M)) in *.
  assert (HD : 0 < D) by (subst D; lia).
  replace (D + k - 1) with ((D - 1) + k) by lia.
  rewrite !pow2_split by lia. rewrite E.
  pose proof (Z.pow_pos_nonneg 2 k ltac:(lia) Hk). nia.
Qed.

Lemma shr_1_exact (m : Z) :
  0 <= m ->
  shr_1 (Build_shr_record (m * 2) false false) = Build_shr_record m false false.
Proof.
  intros H. destruct m as [| p | p]; try lia.
  - reflexivity.
  - replace (Z.pos p * 2) with (Z.pos p~0) by lia. reflexivity.
Qed.

(** Cutting [p] bits that are all zero loses nothing. *)
Lemma iter_shr_1_exact (p : positive) :
  forall m : Z,
    0 <= m ->
    iter_pos shr_1 p (Build_shr_record (m * 2 ^ Z.pos p) false false)
    = Build_shr_record m false false.
Proof.
  induction p as [p IH | p IH |]; intros m Hm; cbn [iter_pos].
  - replace (m * 2 ^ Z.pos p~1)
      with ((m * 2 ^ Z.pos p * 2 ^ Z.pos p) * 2).
    + rewrite shr_1_exact.
      * rewrite IH; [apply IH; exact Hm | ].
        pose proof (Z.pow_pos_nonneg 2 (Z.pos p)). nia.
      * pose proof (Z.pow_pos_nonneg 2 (Z.pos p)). nia.
    + replace (Z.pos p~1) with (Z.pos p + Z.pos p + 1) by lia.
      rewrite !pow2_split by lia. change (2 ^ 1) with 2. lia.
  - replace (m * 2 ^ Z.pos p~0) with (m * 2 ^ Z.pos p * 2 ^ Z.pos p).
    + rewrite IH; [apply IH; exact Hm | ].
      pose proof (Z.pow_pos_nonneg 2 (Z.pos p)). nia.
    + replace (Z.pos p~0) with (Z.pos p + Z.pos p) by lia.
      rewrite pow2_split by lia. lia.
  - change (2 ^ 1) with 2. apply shr_1_exact. exact Hm.
Qed.

(** A significand that already has the exponent of its format is left as it
    is by the rounding. *)
Lemma shr_fexp_canonical (m : positive) (F : Z) :
  fexp 53 1024 (Z.pos (digits2_pos m) + F) = F ->
  shr_fexp 53 1024 (Z.pos m) F loc_Exact
  = (Build_shr_record (Z.pos m) false false, F).
Proof.
  intros E. unfold shr_fexp. cbn [Zdigits2 shr_record_of_loc].
  rewrite E, Z.sub_diag. reflexivity.
Qed.

Lemma binary_round_aux_canonical (s : bool) (m : positive) (F : Z) :
  fexp 53 1024 (Z.pos (digits2_pos m) + F) = F -> F <= 971 ->
  binary_round_aux 53 1024 s (Z.pos m) F loc_Exact = S754_finite s m F.
Proof.
  intros E HF. unfold binary_round_aux.
  rewrite (shr_fexp_canonical m F E).
  cbn [shr_m loc_of_shr_record round_nearest_even].
  rewrite (shr_fexp_canonical m F E). cbn [shr_m].
  change (1024 - 53) with 971.
  destruct (Z.leb_spec F 971); [reflexivity | lia].
Qed.

(** A significand with zero bits below the exponent of its format is cut
    to it without rounding. *)
Lemma binary_round_aux_exact (s : bool) (M m' : positive) (E F : Z) :
  E < F -> fexp 53 1024 (Z.pos (digits2_pos M) + E) = F -> F <= 971 ->
  Z.pos M = Z.pos m' * 2 ^ (F - E) ->
  binary_round_aux 53 1024 s (Z.pos M) E loc_Exact = S754_finite s m' F.
Proof.
  intros HEF HF H971 HM.
  assert (Hd : Z.pos (digits2_pos M) = Z.pos (digits2_pos m') + (F - E))
    by (apply digits2_pos_scale; [lia | exact HM]).
  assert (Hc : fexp 53 1024 (Z.pos (digits2_pos m') + F) = F).
  { rewrite <- HF at 2. f_equal. lia. }
  unfold binary_round_aux.
  assert (Hs : shr_fexp 53 1024 (Z.pos M) E loc_Exact
               = (Build_shr_record (Z.pos m') false false, F)).
  { unfold shr_fexp, shr. cbn [Zdigits2 shr_record_of_loc]. rewrite HF.
    destruct (F - E) as [| p | p] eqn:Ep; try lia.
    rewrite HM, iter_shr_1_exact by lia. f_equal. lia. }
  rewrite Hs. cbn [shr_m loc_of_shr_record round_nearest_even].
  rewrite (shr_fexp_canonical m' F Hc). cbn [shr_m].
  change (1024 - 53) with 971.
  destruct (Z.leb_spec F 971); [reflexivity | lia].
Qed.

(** [binary_round] returns the significand [m'] at the exponent [F] of the
    format, when the value [M * 2^E] is [m' * 2^F]. *)
Lemma binary_round_value (s : bool) (M m' : positive) (E F : Z) :
  fexp 53 1024 (Z.pos (digits2_pos M) + E) = F -> F <= 971 ->
  Z.pos M * 2 ^ Z.max 0 (E - F) = Z.pos m' * 2 ^ Z.max 0 (F - E) ->
  binary_round 53 1024 s M E = S754_finite s m' F.
Proof.
  intros HF H971 HM. unfold binary_round, shl_align. rewrite HF.
  destruct (F - E) as [| p | p] eqn:Ep.
  - assert (E = F) by lia. subst E.
    rewrite Z.sub_diag in HM. cbn in HM.
    assert (M = m') by lia. subst m'.
    apply binary_round_aux_canonical; assumption.
  - rewrite Z.max_l in HM by lia. rewrite Z.max_r in HM by lia.
    change (2 ^ 0) with 1 in HM. rewrite Z.mul_1_r in HM.
    apply binary_round_aux_exact with (F := F); try assumption; try lia.
    rewrite Ep. exact HM.
  - rewrite Z.max_r in HM by lia. rewrite Z.max_l in HM by lia.
    change (2 ^ 0) with 1 in HM. rewrite Z.mul_1_r in HM.
    assert (Hm : Pos.iter xO M p = m').
    { apply Pos2Z.inj. rewrite iter_xO_value, <- HM. f_equal. f_equal. lia. }
    rewrite Hm.
    apply binary_round_aux_canonical; [ | exact H971].
    rewrite <- HF at 2. f_equal.
    rewrite (digits2_pos_scale M m' (E - F)); [lia | lia | ].
    rewrite <- HM. reflexivity.
Qed.

(** A positive integer [N] of at most [2^53], given as [P * 2^(-k)], is
    rounded to itself: the result has the value [N]. *)
Lemma round_integer (s : bool) (N : Z) (P : positive) (k : Z) :
  0 < N <= 2 ^ 53 -> 0 <= k -> Z.pos P = N * 2 ^ k ->
  exists m F,
    binary_round 53 1024 s P (- k) = S754_finite s m F /\
    F = Zdigits2 N - 53 /\ -52 <= F <= 1 /\
    N * 2 ^ Z.max 0 (- F) = Z.pos m * 2 ^ Z.max 0 F.
Proof.
  intros [HN0 HN] Hk HP.
  destruct N as [| n | n]; try lia. cbn [Zdigits2].
  pose proof (digits2_pos_bounds n) as [Blo Bhi].
  set (d := Z.pos (digits2_pos n)) in *.
  assert (Hd1 : 1 <= d) by (subst d; lia).
  assert (Hd54 : d <= 54).
  { apply Z.nlt_ge. intros Hc.
    assert (H54 : 2 ^ 54 <= 2 ^ (d - 1)) by (apply Z.pow_le_mono_r; lia).
    change (2 ^ 54) with 18014398509481984 in H54.
    change (2 ^ 53) with 9007199254740992 in HN. lia. }
  assert (HdP : Z.pos (digits2_pos P) = d + k)
    by (apply (digits2_pos_scale n P k Hk HP)).
  assert (HF : fexp 53 1024 (Z.pos (digits2_pos P) + - k) = d - 53).
  { rewrite HdP. unfold fexp, emin. lia. }
  destruct (Z.le_gt_cases d 53) as [Hle | Hgt].
  - set (F := d - 53) in *.
    assert (Hpow : 0 < 2 ^ (- F)) by (apply Z.pow_pos_nonneg; lia).
    assert (Hm : Z.pos (Z.to_pos (Z.pos n * 2 ^ (- F)))
                 = Z.pos n * 2 ^ (- F)) by (apply Z2Pos.id; nia).
    exists (Z.to_pos (Z.pos n * 2 ^ (- F))), F.
    split; [ | split; [reflexivity | split; [lia | ]]].
    + apply binary_round_value; [exact HF | lia | ].
      rewrite Hm, HP.
      destruct (Z.le_gt_cases F (- k)).
      * rewrite (Z.max_r 0 (- k - F)) by lia.
        rewrite (Z.max_l 0 (F - - k)) by lia.
        change (2 ^ 0) with 1.
        rewrite Z.mul_1_r, <- Z.mul_assoc, <- pow2_split by lia.
        f_equal. f_equal. lia.
      * rewrite (Z.max_l 0 (- k - F)) by lia.
        rewrite (Z.max_r 0 (F - - k)) by lia.
        change (2 ^ 0) with 1.
        rewrite Z.mul_1_r, <- Z.mul_assoc, <- pow2_split by lia.
        f_equal. f_equal. lia.
    + rewrite Hm. rewrite (Z.max_r 0 (- F)) by lia.
      rewrite (Z.max_l 0 F) by lia. change (2 ^ 0) with 1. lia.
  - assert (Hd : d = 54) by lia.
    assert (HN53 : Z.pos n = 2 ^ 53).
    { rewrite Hd in Blo. change (2 ^ (54 - 1)) with (2 ^ 53) in Blo. lia. }
    exists 4503599627370496%positive, 1.
    split; [ | split; [lia | split; [lia | ]]].
    + apply binary_round_value; [rewrite HF; lia | lia | ].
      rewrite (Z.max_l 0 (- k - 1)) by lia.
      rewrite (Z.max_r 0 (1 - - k)) by lia.
      change (2 ^ 0) with 1. rewrite Z.mul_1_r, HP, HN53.
      replace (1 - - k) with (1 + k) by lia.
      rewrite pow2_split by lia.
      change (2 ^ 1) with 2. change (2 ^ 53) with 9007199254740992. lia.
    + rewrite HN53. reflexivity.
Qed.

(** The number of an integer [n] of magnitude at most [2^53] has the value
    [n]. *)
Lemma of_Z_exact (n : Z) :
  n <> 0 -> Z.abs n <= 2 ^ 53 ->
  exists m F,
    of_Z n = S754_finite (n <? 0) m F /\
    F = Zdigits2 (Z.abs n) - 53 /\ -52 <= F <= 1 /\
    Z.abs n * 2 ^ Z.max 0 (- F) = Z.pos m * 2 ^ Z.max 0 F.
Proof.
  intros Hn Hb. unfold of_Z.
  destruct n as [| p | p]; [contradiction | | ];
    cbn [binary_normalize Z.ltb Z.compare Z.abs].
  - apply (round_integer false (Z.pos p) p 0); [lia | lia | ].
    change (2 ^ 0) with 1. lia.
  - apply (round_integer true (Z.pos p) p 0); [cbn [Z.abs] in Hb; lia | lia | ].
    change (2 ^ 0) with 1. lia.
Qed.

(** The same integer at a lower exponent is normalised to the same
    number. *)
Lemma binary_normalize_scaled (n k : Z) :
  Z.abs n <= 2 ^ 53 -> 0 <= k ->
  binary_normalize 53 1024 (n * 2 ^ k) (- k) false = of_Z n.
Proof.
  intros Hb Hk.
  assert (Hpow : 0 < 2 ^ k) by (apply Z.pow_pos_nonneg; lia).
  assert (Hsame : forall (s : bool) (N : Z) (p P : positive),
             0 < N <= 2 ^ 53 -> Z.pos p = N -> Z.pos P = N * 2 ^ k ->
             binary_round 53 1024 s P (- k) = binary_round 53 1024 s p 0).
  { intros s N p P HN Hp HP.
    destruct (round_integer s N P k HN Hk HP) as (m1 & F1 & E1 & HF1 & _ & V1).
    destruct (round_integer s N p 0 HN ltac:(lia)
                ltac:(change (2 ^ 0) with 1; lia))
      as (m2 & F2 & E2 & HF2 & _ & V2).
    change (- 0) with 0 in E2. rewrite E1, E2. subst F1 F2.
    set (F := Zdigits2 N - 53) in *.
    assert (Hp2 : 0 < 2 ^ Z.max 0 F) by (apply Z.pow_pos_nonneg; lia).
    assert (m1 = m2).
    { apply Pos2Z.inj. apply (Z.mul_reg_r _ _ (2 ^ Z.max 0 F)); [lia | ].
      rewrite <- V1. exact V2. }
    subst m2. reflexivity. }
  unfold of_Z. destruct n as [| p | p].
  - reflexivity.
  - destruct (Z.pos p * 2 ^ k) as [| P | P] eqn:EP; try lia.
    cbn [binary_normalize].
    apply (Hsame false (Z.pos p) p P); [lia | reflexivity | lia].
  - destruct (Z.neg p * 2 ^ k) as [| P | P] eqn:EP; try lia.
    cbn [binary_normalize]. cbn [Z.abs] in Hb.
    apply (Hsame true (Z.pos p) p P); [lia | reflexivity | lia].
Qed.

(** [a + b] in binary64 is the integer sum, for integers of magnitude at
    most [2^53] with such a sum. *)
Lemma fadd_of_Z (a b : Z) :
  Z.abs a <= 2 ^ 53 -> Z.abs b <= 2 ^ 53 -> Z.abs (a + b) <= 2 ^ 53 ->
  fadd (of_Z a) (of_Z b) = of_Z (a + b).
Proof.
  intros Ha Hb Hab.
  destruct (Z.eq_dec a 0) as [-> | Ha0].
  { cbn [Z.add]. destruct (Z.eq_dec b 0) as [-> | Hb0]; [reflexivity | ].
    destruct (of_Z_exact b Hb0 Hb) as (mb & Fb & Eb & _). rewrite Eb.
    reflexivity. }
  destruct (Z.eq_dec b 0) as [-> | Hb0].
  { rewrite Z.add_0_r.
    destruct (of_Z_exact a Ha0 Ha) as (ma & Fa & Ea & _). rewrite Ea.
    reflexivity. }
  destruct (of_Z_exact a Ha0 Ha) as (ma & Fa & Ea & HFa & RFa & Va).
  destruct (of_Z_exact b Hb0 Hb) as (mb & Fb & Eb & HFb & RFb & Vb).
  (* the significand of [x], brought to an exponent [ez <= 0] *)
  assert (Hal : forall (x : Z) (m m1 : positive) (F ez : Z),
             -52 <= F <= 1 -> ez <= F -> ez <= 0 ->
             Z.abs x * 2 ^ Z.max 0 (- F) = Z.pos m * 2 ^ Z.max 0 F ->
             Z.pos m1 = Z.pos m * 2 ^ (F - ez) ->
             cond_Zopp (x <? 0) (Z.pos m1) = x * 2 ^ (- ez)).
  { intros x m m1 F ez RF Hez Hez0 V V1.
    assert (Hv : Z.pos m1 = Z.abs x * 2 ^ (- ez)).
    { rewrite V1. destruct (Z.le_gt_cases F 0) as [Hn | Hp].
      - rewrite (Z.max_r 0 (- F)) in V by lia.
        rewrite (Z.max_l 0 F) in V by lia.
        change (2 ^ 0) with 1 in V. rewrite Z.mul_1_r in V. rewrite <- V.
        rewrite <- Z.mul_assoc, <- pow2_split by lia.
        f_equal. f_equal. lia.
      - assert (F = 1) by lia. subst F.
        change (Z.max 0 (- (1))) with 0 in V. change (Z.max 0 1) with 1 in V.
        change (2 ^ 0) with 1 in V. change (2 ^ 1) with 2 in V.
        replace (1 - ez) with (1 + - ez) by lia.
        rewrite pow2_split by lia. change (2 ^ 1) with 2. lia. }
    unfold cond_Zopp. destruct (Z.ltb_spec x 0) as [Hneg | Hpos].
    - rewrite Hv, Z.abs_neq by lia. lia.
    - rewrite Hv, Z.abs_eq by lia. reflexivity. }
  rewrite Ea, Eb. unfold fadd. cbn [SFadd].
  set (ez := Z.min Fa Fb).
  destruct (shl_align_value ma Fa ez) as (m1a & E1a & V1a).
  destruct (shl_align_value mb Fb ez) as (m1b & E1b & V1b).
  replace (Z.min Fa ez) with ez in E1a, V1a by (subst ez; lia).
  replace (Z.min Fb ez) with ez in E1b, V1b by (subst ez; lia).
  rewrite E1a, E1b. cbn [fst].
  destruct (Z.le_gt_cases ez 0) as [Hez | Hez].
  - rewrite (Hal a ma m1a Fa ez RFa ltac:(subst ez; lia) Hez Va V1a).
    rewrite (Hal b mb m1b Fb ez RFb ltac:(subst ez; lia) Hez Vb V1b).
    rewrite <- Z.mul_add_distr_r.
    replace ez with (- - ez) at 2 by lia.
    apply binary_normalize_scaled; [exact Hab | lia].
  - assert (EFa : Fa = 1) by (subst ez; lia).
    assert (EFb : Fb = 1) by (subst ez; lia).
    assert (Hez1 : ez = 1) by (subst ez; lia).
    clearbody ez. subst ez.
    assert (Da : Zdigits2 (Z.abs a) = 54) by lia.
    assert (Db : Zdigits2 (Z.abs b) = 54) by lia.
    clear HFa HFb. subst Fa Fb.
    change (Z.max 0 (- (1))) with 0 in Va, Vb.
    change (Z.max 0 1) with 1 in Va, Vb.
    change (2 ^ 0) with 1 in Va, Vb. change (2 ^ 1) with 2 in Va, Vb.
    change (2 ^ (1 - 1)) with 1 in V1a, V1b.
    assert (Hbig : forall x, Zdigits2 (Z.abs x) = 54 -> 2 ^ 53 <= Z.abs x).
    { intros x Hx. destruct (Z.abs x) as [| p | p] eqn:Ex;
        cbn [Zdigits2] in Hx; try lia.
      pose proof (digits2_pos_bounds p) as [Hlo _]. rewrite Hx in Hlo.
      exact Hlo. }
    pose proof (Hbig a Da) as Ba. pose proof (Hbig b Db) as Bb.
    change (2 ^ 53) with 9007199254740992 in *.
    assert (Hsum : a + b = 0) by lia.
    rewrite Hsum. unfold cond_Zopp.
    destruct (Z.ltb_spec a 0), (Z.ltb_spec b 0); try lia.
    + replace (- Z.pos m1a + Z.pos m1b) with 0 by lia. reflexivity.
    + replace (Z.pos m1a + - Z.pos m1b) with 0 by lia. reflexivity.
Qed.

Lemma to_integer_of_Z (n : Z) :
  Z.abs n <= 2 ^ 53 -> to_integer (of_Z n) = Some n.
Proof.
  intros Hb. destruct (Z.eq_dec n 0) as [-> | Hn]; [reflexivity | ].
  destruct (of_Z_exact n Hn Hb) as (m & F & E & _ & RF & V).
  rewrite E. unfold to_integer.
  assert (Hex : exact_integer n = true)
    by (unfold exact_integer; apply Z.leb_le; exact Hb).
  set (sm := if n <? 0 then Z.neg m else Z.pos m).
  assert (Hsm : sm * 2 ^ Z.max 0 F = n * 2 ^ Z.max 0 (- F)).
  { subst sm. destruct (Z.ltb_spec n 0).
    - rewrite Z.abs_neq in V by lia.
      replace (Z.neg m) with (- Z.pos m) by reflexivity. lia.
    - rewrite Z.abs_eq in V by lia. lia. }
  destruct (Z.leb_spec 0 F) as [Hp | Hneg].
  - rewrite (Z.max_r 0 F) in Hsm by lia.
    rewrite (Z.max_l 0 (- F)) in Hsm by lia.
    change (2 ^ 0) with 1 in Hsm. rewrite Z.mul_1_r in Hsm.
    rewrite Hsm, Hex. reflexivity.
  - rewrite (Z.max_l 0 F) in Hsm by lia.
    rewrite (Z.max_r 0 (- F)) in Hsm by lia.
    change (2 ^ 0) with 1 in Hsm. rewrite Z.mul_1_r in Hsm.
    assert (Hpow : 0 < 2 ^ (- F)) by (apply Z.pow_pos_nonneg; lia).
    assert (Hm : Z.pos m = Z.abs n * 2 ^ (- F)).
    { rewrite (Z.max_l 0 F) in V by lia.
      rewrite (Z.max_r 0 (- F)) in V by lia.
      change (2 ^ 0) with 1 in V. lia. }
    rewrite Hm, Z.mod_mul by lia. cbn [Z.eqb].
    rewrite Hsm, Z.div_mul by lia. rewrite Hex. reflexivity.
Qed.

Lemma to_integer_bound (x : number) (n : Z) :
  to_integer x = Some n -> Z.abs n <= 2 ^ 53.
Proof.
  unfold to_integer. intros H.
  assert (G : forall o : option Z,
             match o with
             | Some z => if exact_integer z then Some z else None
             | None => None
             end = Some n -> Z.abs n <= 2 ^ 53).
  { intros [z |] Hz; [ | discriminate].
    destruct (exact_integer z) eqn:Ez; [ | discriminate].
    injection Hz as <-. apply Z.leb_le. exact Ez. }
  destruct x as [s | s | | s m e]; try discriminate.
  - injection H as <-. cbn. lia.
  - exact (G _ H).
Qed.

(** The sum of the source is the integer sum while that is of magnitude at
    most [2^53]. *)
Lemma plus_exact (a b : Z) :
  Z.abs a <= 2 ^ 53 -> Z.abs b <= 2 ^ 53 -> Z.abs (a + b) <= 2 ^ 53 ->
  plus a b = Normal (a + b).
Proof.
  intros Ha Hb Hab. unfold plus.
  rewrite (fadd_of_Z a b Ha Hb Hab), (to_integer_of_Z (a + b) Hab).
  reflexivity.
Qed.

(** [2^53 + 1] is not a number: the sum is [2^53] again. *)
Lemma plus_saturates : plus (2 ^ 53) 1 = Normal (2 ^ 53).
Proof. vm_compute. reflexivity. Qed.

Lemma plus_bound (a b n : Z) : plus a b = Normal n -> Z.abs n <= 2 ^ 53.
Proof.
  unfold plus. destruct (to_integer _) as [z |] eqn:E; [ | discriminate].
  intros H. injection H as <-. exact (to_integer_bound _ _ E).
Qed.
(** A number that [Math.random()] may return is a zero or a positive
    finite number below 1. *)
Lemma random_value_shape (r : number) :
  random_value r ->
  (exists s, r = S754_zero s) \/
  exists m e, r = S754_finite false m e /\ Z.pos m < 2 ^ (0 - e).
Proof.
  intros (Hv & H0 & H1).
  destruct r as [s | s | | s m e]; try discriminate.
  - left. exists s. reflexivity.
  - destruct s; try discriminate.
  - right. destruct s; [discriminate H0 | ].
    exists m, e. split; [reflexivity | ].
    cbn [valid_binary] in Hv. unfold bounded in Hv.
    apply andb_true_iff in Hv. destruct Hv as [Hc _].
    unfold canonical_mantissa in Hc. apply Z.eqb_eq in Hc.
    unfold fexp, emin in Hc.
    pose proof (digits2_pos_bounds m) as [_ Hm].
    assert (Hd : Z.pos (digits2_pos m) <= 53) by lia.
    assert (Hm53 : Z.pos m < 2 ^ 53).
    { eapply Z.lt_le_trans; [exact Hm | ].
      apply Z.pow_le_mono_r; lia. }
    unfold SFltb in H1.
    change (of_Z 1) with (S754_finite false 4503599627370496 (-52)) in H1.
    cbn [SFcompare] in H1.
    destruct (e ?= -52) eqn:Ee.
    + apply Z.compare_eq in Ee. subst e.
      rewrite Pos.compare_cont_spec in H1. cbn [Pos.switch_Eq] in H1.
      destruct (m ?= 4503599627370496)%positive eqn:Em;
        try discriminate H1.
      apply Pos.compare_lt_iff in Em.
      change (2 ^ (0 - -52)) with (Z.pos 4503599627370496).
      apply Pos2Z.pos_lt_pos. exact Em.
    + change (e < -52) in Ee.
      eapply Z.lt_le_trans; [exact Hm53 | ].
      apply Z.pow_le_mono_r; lia.
    + discriminate H1.
Qed.

(** [Math.random()*9e8] is +0, -0 or a finite positive number of at most
    [2^30]. *)
Lemma random_times_9e8 (r : number) :
  random_value r ->
  (exists s, fmul r (of_Z 900000000) = S754_zero s) \/
  exists m e, fmul r (of_Z 900000000) = S754_finite false m e /\
              e <= 30 /\ Z.pos m <= 2 ^ (30 - e).
Proof.
  intros Hr.
  change (of_Z 900000000) with (S754_finite false 7549747200000000 (-23)).
  destruct (random_value_shape r Hr) as [(s & ->) | (m & e & -> & Hm)].
  - left. exists s. destruct s; reflexivity.
  - unfold fmul. cbn [SFmul xorb].
    destruct (round_upper (Z.pos (m * 7549747200000000)) (e + -23) 30)
      as [E | (m' & e' & E & He & Hm')].
    + lia.
    + rewrite Pos2Z.inj_mul.
      replace (30 - (e + -23)) with ((0 - e) + 53) by lia.
      assert (He : 0 <= 0 - e).
      { apply Z.nlt_ge. intros Hc. rewrite Z.pow_neg_r in Hm by lia. lia. }
      rewrite pow2_split by lia.
      assert (7549747200000000 < 2 ^ 53) by (cbn; lia).
      nia.
    + lia.
    + left. exists false. exact E.
    + right. exists m', e'. split; [exact E | ]. split; assumption.
Qed.

(** [1e8 + Math.random()*9e8] is a finite number between [2^26] and
    [2^31]. *)
Lemma random_reference_number (r : number) :
  random_value r ->
  exists m e,
    fadd (of_Z 100000000) (fmul r (of_Z 900000000)) = S754_finite false m e /\
    e <= 26 /\ 2 ^ (26 - e) <= Z.pos m <= 2 ^ (31 - e).
Proof.
  intros Hr.
  change (of_Z 100000000) with (S754_finite false 6710886400000000 (-26)).
  destruct (random_times_9e8 r Hr) as [(s & ->) | (mx & ex & -> & Hex & Hmx)].
  - exists 6710886400000000%positive, (-26). split.
    + destruct s; reflexivity.
    + split; [lia | ]. cbn. lia.
  - unfold fadd. cbn [SFadd cond_Zopp].
    set (ez := Z.min (-26) ex).
    destruct (shl_align_value 6710886400000000 (-26) ez) as (ma' & Ea & Va).
    destruct (shl_align_value mx ex ez) as (mx' & Ex & Vx).
    assert (Hz1 : Z.min (-26) ez = ez) by (subst ez; lia).
    assert (Hz2 : Z.min ex ez = ez) by (subst ez; lia).
    rewrite Hz1 in Ea, Va. rewrite Hz2 in Ex, Vx.
    rewrite Ea, Ex. cbn [fst Z.add binary_normalize]. unfold binary_round.
    destruct (shl_align_value (ma' + mx') ez
                (fexp 53 1024 (Z.pos (digits2_pos (ma' + mx')) + ez)))
      as (mz & Ez & Vz).
    rewrite Ez.
    set (ez' := Z.min ez (fexp 53 1024 (Z.pos (digits2_pos (ma' + mx')) + ez)))
      in *.
    assert (Hez : ez <= -26) by (subst ez; lia).
    assert (Hez' : ez' <= ez) by (subst ez'; lia).
    (* the sum, at the exponent [ez] *)
    assert (Hsum : 2 ^ (26 - ez) <= Z.pos (ma' + mx') < 2 ^ (31 - ez)).
    { rewrite Pos2Z.inj_add, Va, Vx.
      assert (Ha : 2 ^ 52 <= 6710886400000000 < 2 ^ 53) by (cbn; lia).
      assert (P1 : 2 ^ (26 - ez) = 2 ^ 52 * 2 ^ (-26 - ez)).
      { rewrite <- pow2_split by lia. f_equal. lia. }
      assert (P2 : 2 ^ (31 - ez) = 32 * (2 ^ 52 * 2 ^ (-26 - ez))).
      { rewrite <- pow2_split by lia.
        replace (31 - ez) with (5 + (52 + (-26 - ez))) by lia.
        rewrite pow2_split by lia. reflexivity. }
      assert (P3 : Z.pos mx * 2 ^ (ex - ez)
                   <= 16 * (2 ^ 52 * 2 ^ (-26 - ez))).
      { assert (Hpe : 0 <= 30 - ex) by lia.
        replace (16 * (2 ^ 52 * 2 ^ (-26 - ez)))
          with (2 ^ (30 - ex) * 2 ^ (ex - ez)).
        - apply Z.mul_le_mono_nonneg_r; [ | exact Hmx].
          apply Z.pow_nonneg. lia.
        - rewrite <- pow2_split by (subst ez; lia).
          replace (30 - ex + (ex - ez)) with (4 + (52 + (-26 - ez))) by lia.
          rewrite pow2_split by lia. rewrite pow2_split by lia.
          reflexivity. }
      pose proof (Z.pow_pos_nonneg 2 (-26 - ez) ltac:(lia) ltac:(lia)).
      pose proof (Pos2Z.is_pos mx).
      pose proof (Z.pow_pos_nonneg 2 (ex - ez) ltac:(lia)
                    ltac:(subst ez; lia)).
      rewrite P1, P2. nia. }
    (* the same, at the exponent [ez'] *)
    assert (Hmz : 2 ^ (26 - ez') <= Z.pos mz < 2 ^ (31 - ez')).
    { rewrite Vz.
      replace (26 - ez') with ((26 - ez) + (ez - ez')) by lia.
      replace (31 - ez') with ((31 - ez) + (ez - ez')) by lia.
      rewrite !pow2_split by lia.
      pose proof (Z.pow_pos_nonneg 2 (ez - ez') ltac:(lia) ltac:(lia)).
      nia. }
    destruct (round_between (Z.pos mz) ez' 26 31)
      as (m' & e' & E & He' & Hm'); try lia.
    exists m', e'. split; [exact E | ]. split; [exact He' | exact Hm'].
Qed.

(** The integer under a finite number between [2^26] and [2^31]. *)
Lemma floor_Z_between (m : positive) (e : Z) :
  e <= 26 -> 2 ^ (26 - e) <= Z.pos m <= 2 ^ (31 - e) ->
  exists n, floor_Z (S754_finite false m e) = Some n /\
            2 ^ 26 <= n <= 2 ^ 31.
Proof.
  intros He Hm. cbn [floor_Z].
  destruct (Z.leb_spec 0 e) as [Hpos | Hneg].
  - eexists. split; [reflexivity | ].
    replace (2 ^ 26) with (2 ^ (26 - e) * 2 ^ e)
      by (rewrite <- pow2_split by lia; f_equal; lia).
    assert (He31 : e <= 31) by lia.
    replace (2 ^ 31) with (2 ^ (31 - e) * 2 ^ e)
      by (rewrite <- pow2_split by lia; f_equal; lia).
    pose proof (Z.pow_pos_nonneg 2 e ltac:(lia) Hpos). nia.
  - eexists. split; [reflexivity | ].
    pose proof (div_pow2_ge (Z.pos m) (26 - e) (- e) ltac:(lia)
                  (proj1 Hm)) as Hlo.
    pose proof (div_pow2_le (Z.pos m) (31 - e) (- e) ltac:(lia)
                  (proj2 Hm)) as Hhi.
    replace (26 - e - - e) with 26 in Hlo by lia.
    replace (31 - e - - e) with 31 in Hhi by lia.
    split; assumption.
Qed.

End Magnitudes.
(* ================================================================= *)
(** ** The typed view of a stored cart *)

Lemma exact_integer_spec (z : Z) :
  exact_integer z = true <-> (Z.abs z <= 2 ^ 53)%Z.
Proof. unfold exact_integer. apply Z.leb_le. Qed.

(** A quantity that [JSON.stringify] wrote is read back as it is. *)
Lemma as_integer_exact (q : Z) :
  (Z.abs q <= 2 ^ 53)%Z -> as_integer {| coeff := q; exp10 := 0 |} = Some q.
Proof.
  intros H. unfold as_integer. cbn [exp10 coeff Z.leb Z.compare].
  change (10 ^ 0)%Z with 1%Z. rewrite Z.mul_1_r.
  apply to_integer_of_Z. exact H.
Qed.

Lemma as_integer_bound (n : jnumber) (z : Z) :
  as_integer n = Some z -> (Z.abs z <= 2 ^ 53)%Z.
Proof.
  unfold as_integer. cbv zeta.
  destruct (0 <=? exp10 n)%Z; [apply to_integer_bound | ].
  destruct (_ =? 0)%Z; [apply to_integer_bound | discriminate].
Qed.

Lemma line_of_json_of_line (l : line) :
  (Z.abs (qty l) <= 2 ^ 53)%Z -> line_of_json (json_of_line l) = Some l.
Proof.
  intros H. destruct l as [i q]. unfold json_of_line, line_of_json.
  cbn [id qty] in *. rewrite !str_eqb_refl. cbn [andb].
  rewrite (as_integer_exact q H). reflexivity.
Qed.

Lemma cart_of_json_of_cart (c : cart) :
  exact_cart c -> cart_of_json (json_of_cart c) = Some c.
Proof.
  unfold cart_of_json, json_of_cart.
  induction 1 as [| l c Hl _ IH].
  - reflexivity.
  - cbn [map lines_of_json]. rewrite (line_of_json_of_line l Hl), IH.
    reflexivity.
Qed.

Lemma line_of_json_exact (v : json) (l : line) :
  line_of_json v = Some l -> (Z.abs (qty l) <= 2 ^ 53)%Z.
Proof.
  unfold line_of_json.
  destruct v as [| | | | | m]; try discriminate.
  destruct m as [| [k1 v1] m]; try discriminate.
  destruct v1; try discriminate.
  destruct m as [| [k2 v2] m]; try discriminate.
  destruct v2; try discriminate.
  destruct m; try discriminate.
  destruct (str_eqb k1 (u "id") && str_eqb k2 (u "qty")); try discriminate.
  destruct (as_integer n) as [q |] eqn:E; try discriminate.
  intros H. injection H as <-. cbn [qty].
  exact (as_integer_bound n q E).
Qed.

(** The typed view holds quantities of magnitude at most [2^53] only. *)
Lemma cart_of_json_exact (v : json) (c : cart) :
  cart_of_json v = Some c -> exact_cart c.
Proof.
  unfold cart_of_json. destruct v as [| | | | l |]; try discriminate.
  revert c. induction l as [| x l IH]; intros c H; cbn [lines_of_json] in H.
  - injection H as <-. constructor.
  - destruct (line_of_json x) as [y |] eqn:Ex; try discriminate.
    destruct (lines_of_json l) as [c' |]; try discriminate.
    injection H as <-. constructor.
    + exact (line_of_json_exact x y Ex).
    + apply IH. reflexivity.
Qed.

(* ================================================================= *)
(** ** The cart slot *)

Lemma JSON_stringify_nonempty (c : cart) :
  or_empty_array (Some (JSON_stringify c)) = JSON_stringify c.
Proof. reflexivity. Qed.

Lemma getCart_after_write (c : cart) :
  getCart (Some (JSON_stringify c))
  = (Normal (json_of_cart c), Some (JSON_stringify c)).
Proof.
  unfold getCart, bind, getItem, lift.
  rewrite JSON_stringify_nonempty, JSON_parse_stringify. reflexivity.
Qed.

Lemma forallb_exact (c : cart) :
  exact_cart c -> forallb (fun l => exact_integer (qty l)) c = true.
Proof.
  intros H. apply forallb_forall. intros x Hx.
  apply exact_integer_spec. exact (proj1 (Forall_forall _ _) H x Hx).
Qed.

Lemma setCart_exact (c : cart) (st : storage) :
  exact_cart c -> setCart c st = (Normal tt, Some (JSON_stringify c)).
Proof.
  intros H. unfold setCart. rewrite (forallb_exact c H). reflexivity.
Qed.

Lemma holds_after_write (c : cart) :
  exact_cart c -> holds (Some (JSON_stringify c)) c.
Proof.
  intros H. unfold holds, bind. rewrite getCart_after_write.
  unfold asCart. rewrite (cart_of_json_of_cart c H). reflexivity.
Qed.

Lemma holds_absent : holds None [].
Proof. reflexivity. Qed.

Lemma getCart_state (st : storage) : snd (getCart st) = st.
Proof. reflexivity. Qed.

(** What [holds] gives to a function that starts by reading the cart. *)
Lemma holds_read (st : storage) (c : cart) :
  holds st c ->
  exists v, getCart st = (Normal v, st) /\ cart_of_json v = Some c.
Proof.
  unfold holds, bind. intros H.
  pose proof (getCart_state st) as Hs.
  destruct (getCart st) as [[v | e |] st'] eqn:E; cbn in Hs; subst st';
    try discriminate.
  exists v. split; [reflexivity | ].
  unfold asCart in H. destruct (cart_of_json v) as [c' |]; [ | discriminate].
  unfold ret in H. congruence.
Qed.

Lemma holds_fun (st : storage) (c c' : cart) :
  holds st c -> holds st c' -> c = c'.
Proof. unfold holds. intros H H'. congruence. Qed.

(** A stored cart has quantities of magnitude at most [2^53]. *)
Lemma holds_exact (st : storage) (c : cart) : holds st c -> exact_cart c.
Proof.
  intros H. destruct (holds_read st c H) as (v & _ & Hc).
  exact (cart_of_json_exact v c Hc).
Qed.

Ltac read_cart st c H :=
  let v := fresh "v" in
  let Hg := fresh "Hget" in
  let Hc := fresh "Hcart" in
  destruct (holds_read st c H) as (v & Hg & Hc);
  unfold bind at 1; rewrite Hg;
  unfold bind at 1; unfold asCart at 1; rewrite Hc; unfold ret at 1.

Lemma reads_only_ret {A} (a : A) : reads_only (ret a).
Proof. intros st. reflexivity. Qed.

Lemma reads_only_lift {A} (c : completion A) : reads_only (lift c).
Proof. intros st. reflexivity. Qed.

Lemma reads_only_bind {A B} (m : M A) (k : A -> M B) :
  reads_only m -> (forall a, reads_only (k a)) -> reads_only (bind m k).
Proof.
  intros Hm Hk st. unfold bind. specialize (Hm st).
  destruct (m st) as [[a | e |] st']; cbn [snd] in Hm |- *; subst st';
    try reflexivity.
  apply Hk.
Qed.

Lemma reads_only_getCart : reads_only getCart.
Proof. intros st. reflexivity. Qed.

Lemma reads_only_asCart (v : json) : reads_only (asCart v).
Proof.
  unfold asCart. destruct (cart_of_json v);
    [apply reads_only_ret | apply reads_only_lift].
Qed.

Lemma renderCart_state (st : storage) : snd (renderCart st) = st.
Proof.
  revert st. change (reads_only renderCart). unfold renderCart.
  apply reads_only_bind; [apply reads_only_getCart | intros v].
  apply reads_only_bind; [apply reads_only_asCart | intros c].
  destruct (List.length c =? 0)%nat; [apply reads_only_ret | ].
  apply reads_only_bind; [apply reads_only_lift | intros rows].
  apply reads_only_bind; [apply reads_only_lift | intros sum].
  apply reads_only_ret.
Qed.

Lemma render_rows_followed (catalog : list product) (c : cart) :
  render_rows catalog c <> Unmodelled.
Proof.
  induction c as [| it c IH]; cbn [render_rows]; [discriminate | ].
  unfold render_row. destruct (find_product catalog (id it));
    [ | discriminate].
  destruct (render_rows catalog c); [discriminate | discriminate | ].
  contradiction.
Qed.

Lemma cart_sum_followed (catalog : list product) (c : cart) :
  forall s, cart_sum catalog s c <> Unmodelled.
Proof.
  induction c as [| it c IH]; intros s; cbn [cart_sum]; [discriminate | ].
  destruct (find_product catalog (id it)); [apply IH | discriminate].
Qed.

(** On a stored cart, [renderCart] completes or throws. *)
Lemma renderCart_followed (st : storage) (c : cart) :
  holds st c -> fst (renderCart st) <> Unmodelled.
Proof.
  intros H. unfold renderCart. read_cart st c H.
  destruct (List.length c =? 0)%nat; [discriminate | ].
  unfold bind, lift.
  pose proof (render_rows_followed PRODUCTS c) as Hr.
  destruct (render_rows PRODUCTS c) as [rows | e |];
    [ | discriminate | contradiction].
  pose proof (cart_sum_followed PRODUCTS c (of_Z 0)) as Hs.
  destruct (cart_sum PRODUCTS (of_Z 0) c) as [s | e |];
    [discriminate | discriminate | contradiction].
Qed.

(* ================================================================= *)
(** ** Sums of quantities *)

Lemma plus_in_range (q d : Z) :
  (Z.abs q <= 2 ^ 53)%Z -> in_range q d -> plus q d = Normal (sum64 q d).
Proof.
  intros Hq (Hd & Hlo & [Hhi | [-> ->]]).
  - unfold sum64. rewrite Z.min_l by exact Hhi.
    apply plus_exact; [exact Hq | exact Hd | ].
    change (2 ^ 53)%Z with 9007199254740992%Z in *. lia.
  - exact plus_saturates.
Qed.

Lemma sum64_bound (q d : Z) :
  in_range q d -> (Z.abs (sum64 q d) <= 2 ^ 53)%Z.
Proof.
  intros (Hd & Hlo & _). unfold sum64.
  change (2 ^ 53)%Z with 9007199254740992%Z in *. lia.
Qed.

Lemma in_range_one (q : Z) : (Z.abs q <= 2 ^ 53)%Z -> in_range q 1.
Proof.
  intros H. unfold in_range.
  change (2 ^ 53)%Z with 9007199254740992%Z in *. lia.
Qed.

Lemma in_range_small (q d : Z) :
  (0 < q <= 2 ^ 53)%Z -> (- 2 ^ 53 <= d <= 1)%Z -> in_range q d.
Proof.
  intros Hq Hd. unfold in_range.
  change (2 ^ 53)%Z with 9007199254740992%Z in *. lia.
Qed.

Lemma in_range_exact (q d : Z) :
  (Z.abs d <= 2 ^ 53)%Z -> (Z.abs (q + d) <= 2 ^ 53)%Z -> in_range q d.
Proof.
  intros Hd Hs. unfold in_range.
  change (2 ^ 53)%Z with 9007199254740992%Z in *. lia.
Qed.

Lemma sum64_exact (q d : Z) :
  (q + d <= 2 ^ 53)%Z -> sum64 q d = (q + d)%Z.
Proof. intros H. unfold sum64. apply Z.min_l. exact H. Qed.
(* ================================================================= *)
(** ** Lists of lines *)

Lemma find_absent (key : jsstring) (c : cart) :
  ~ In key (map id c) -> find (fun x => str_eqb (id x) key) c = None.
Proof.
  induction c as [| x c IH]; intros H.
  - reflexivity.
  - cbn [find]. destruct (str_eqb (id x) key) eqn:E.
    + apply str_eqb_eq in E. exfalso. apply H. left. exact E.
    + apply IH. intros Hin. apply H. right. exact Hin.
Qed.

Lemma find_present (key : jsstring) (c : cart) :
  In key (map id c) -> find (fun x => str_eqb (id x) key) c <> None.
Proof.
  intros Hin E. apply in_map_iff in Hin. destruct Hin as (y & Ey & Hy).
  pose proof (find_none _ _ E y Hy) as Hf. cbn in Hf.
  apply str_eqb_neq in Hf. exact (Hf Ey).
Qed.

Lemma find_first (key : jsstring) (q : Z) (l1 l2 : cart) :
  ~ In key (map id l1) ->
  find (fun x => str_eqb (id x) key) (l1 ++ {| id := key; qty := q |} :: l2)
  = Some {| id := key; qty := q |}.
Proof.
  induction l1 as [| x l1 IH]; intros H.
  - cbn. rewrite str_eqb_refl. reflexivity.
  - cbn [app find]. destruct (str_eqb (id x) key) eqn:E.
    + apply str_eqb_eq in E. exfalso. apply H. left. exact E.
    + apply IH. intros Hin. apply H. right. exact Hin.
Qed.

Lemma incremented_first (key : jsstring) (q : Z) (l1 l2 : cart) :
  ~ In key (map id l1) ->
  incremented key (l1 ++ {| id := key; qty := q |} :: l2)
  = l1 ++ {| id := key; qty := sum64 q 1 |} :: l2.
Proof.
  induction l1 as [| x l1 IH]; intros H.
  - cbn. rewrite str_eqb_refl. reflexivity.
  - cbn [app incremented]. destruct (str_eqb (id x) key) eqn:E.
    + apply str_eqb_eq in E. exfalso. apply H. left. exact E.
    + f_equal. apply IH. intros Hin. apply H. right. exact Hin.
Qed.

(** A line found by [find] splits the cart at its first occurrence. *)
Lemma find_split (key : jsstring) (c : cart) (x : line) :
  find (fun x => str_eqb (id x) key) c = Some x ->
  exists l1 l2, c = l1 ++ {| id := key; qty := qty x |} :: l2 /\
                ~ In key (map id l1).
Proof.
  induction c as [| y c IH]; intros H.
  - discriminate.
  - cbn [find] in H. destruct (str_eqb (id y) key) eqn:E.
    + injection H as ->. apply str_eqb_eq in E.
      exists [], c. split.
      * destruct x as [i q]. cbn in E |- *. subst i. reflexivity.
      * intros [].
    + destruct (IH H) as (l1 & l2 & Ec & Hn).
      exists (y :: l1), l2. split.
      * rewrite Ec. reflexivity.
      * intros [Hy | Hin]; [ | exact (Hn Hin)].
        apply str_eqb_neq in E. exact (E Hy).
Qed.

Lemma map_adjusted_other (key : jsstring) (d : Z) (c : cart) :
  ~ In key (map id c) -> map (adjusted key d) c = c.
Proof.
  induction c as [| x c IH]; intros H.
  - reflexivity.
  - cbn [map]. unfold adjusted at 1. destruct (str_eqb (id x) key) eqn:E.
    + apply str_eqb_eq in E. exfalso. apply H. left. exact E.
    + f_equal. apply IH. intros Hin. apply H. right. exact Hin.
Qed.

Lemma map_id_adjusted (key : jsstring) (d : Z) (c : cart) :
  map id (map (adjusted key d) c) = map id c.
Proof.
  induction c as [| x c IH].
  - reflexivity.
  - cbn [map]. rewrite IH. f_equal.
    unfold adjusted. destruct (str_eqb (id x) key); reflexivity.
Qed.

Lemma filter_positive_all (c : cart) :
  Forall (fun l => (0 < qty l)%Z) c ->
  filter (fun it => (0 <? qty it)%Z) c = c.
Proof.
  induction 1 as [| x c Hx _ IH].
  - reflexivity.
  - cbn [filter]. apply Z.ltb_lt in Hx. rewrite Hx, IH. reflexivity.
Qed.

Lemma filter_positive_Forall (c : cart) :
  Forall (fun l => (0 < qty l)%Z) (filter (fun it => (0 <? qty it)%Z) c).
Proof.
  apply Forall_forall. intros x Hx.
  apply filter_In in Hx. destruct Hx as [_ Hx]. apply Z.ltb_lt. exact Hx.
Qed.

Lemma NoDup_map_id_filter (f : line -> bool) (c : cart) :
  NoDup (map id c) -> NoDup (map id (filter f c)).
Proof.
  induction c as [| x c IH]; intros H.
  - constructor.
  - cbn [map] in H. inversion H as [| ? ? Hx Hc]; subst.
    cbn [filter]. destruct (f x).
    + cbn [map]. constructor; [ | apply IH; exact Hc].
      intros Hin. apply Hx.
      apply in_map_iff in Hin. destruct Hin as (y & Ey & Hy).
      apply filter_In in Hy. destruct Hy as [Hy _].
      apply in_map_iff. exists y. split; assumption.
    + apply IH. exact Hc.
Qed.

Lemma map_id_incremented (key : jsstring) (c : cart) :
  map id (incremented key c) = map id c.
Proof.
  induction c as [| x c IH].
  - reflexivity.
  - cbn [incremented]. destruct (str_eqb (id x) key).
    + reflexivity.
    + cbn [map]. rewrite IH. reflexivity.
Qed.

Lemma incremented_positive (key : jsstring) (c : cart) :
  Forall (fun l => (0 < qty l)%Z) c ->
  Forall (fun l => (0 < qty l)%Z) (incremented key c).
Proof.
  induction 1 as [| x c Hx Hc IH].
  - constructor.
  - cbn [incremented]. destruct (str_eqb (id x) key).
    + constructor; [ | exact Hc]. cbn [qty]. unfold sum64.
      change (2 ^ 53)%Z with 9007199254740992%Z. lia.
    + constructor; assumption.
Qed.

Lemma incremented_exact (key : jsstring) (c : cart) :
  exact_cart c -> exact_cart (incremented key c).
Proof.
  induction 1 as [| x c Hx Hc IH].
  - constructor.
  - cbn [incremented]. destruct (str_eqb (id x) key).
    + constructor; [ | exact Hc]. cbn [qty].
      apply sum64_bound, in_range_one. exact Hx.
    + constructor; assumption.
Qed.

(** On a stored cart [increment_found] is followed to its end. *)
Lemma increment_found_incremented (key : jsstring) (c : cart) :
  exact_cart c -> increment_found key c = Normal (incremented key c).
Proof.
  induction 1 as [| x c Hx Hc IH].
  - reflexivity.
  - cbn [increment_found incremented]. destruct (str_eqb (id x) key).
    + rewrite (plus_in_range (qty x) 1 Hx (in_range_one (qty x) Hx)).
      reflexivity.
    + rewrite IH. reflexivity.
Qed.

(** So is the [map] of [changeQty], on quantities and a delta in range. *)
Lemma map_adjust_adjusted (key : jsstring) (d : Z) (c : cart) :
  exact_cart c ->
  Forall (fun l => id l = key -> in_range (qty l) d) c ->
  map_completion (adjust key d) c = Normal (map (adjusted key d) c).
Proof.
  induction 1 as [| x c Hx Hc IH]; intros Hr.
  - reflexivity.
  - inversion Hr as [| ? ? Hrx Hrc]; subst.
    cbn [map_completion map]. rewrite (IH Hrc).
    unfold adjust, adjusted. destruct (str_eqb (id x) key) eqn:E.
    + apply str_eqb_eq in E.
      rewrite (plus_in_range (qty x) d Hx (Hrx E)). reflexivity.
    + reflexivity.
Qed.

Lemma adjusted_exact (key : jsstring) (d : Z) (c : cart) :
  exact_cart c ->
  Forall (fun l => id l = key -> in_range (qty l) d) c ->
  exact_cart (filter (fun it => (0 <? qty it)%Z) (map (adjusted key d) c)).
Proof.
  intros Hc Hr. apply Forall_forall. intros x Hx.
  apply filter_In in Hx. destruct Hx as [Hx _].
  apply in_map_iff in Hx. destruct Hx as (y & Ey & Hy). subst x.
  pose proof (proj1 (Forall_forall _ _) Hc y Hy) as Hq.
  pose proof (proj1 (Forall_forall _ _) Hr y Hy) as Hry.
  unfold adjusted. destruct (str_eqb (id y) key) eqn:E; [ | exact Hq].
  apply str_eqb_eq in E. cbn [qty].
  pose proof (sum64_bound (qty y) d (Hry E)) as Hb.
  change (2 ^ 53)%Z with 9007199254740992%Z in *. lia.
Qed.

Lemma range_absent (key : jsstring) (d : Z) (c : cart) :
  ~ In key (map id c) ->
  Forall (fun l => id l = key -> in_range (qty l) d) c.
Proof.
  intros Hn. apply Forall_forall. intros x Hx E. exfalso. apply Hn.
  rewrite <- E. apply in_map. exact Hx.
Qed.

Lemma range_app (key : jsstring) (d : Z) (a b : cart) :
  Forall (fun l => id l = key -> in_range (qty l) d) a ->
  Forall (fun l => id l = key -> in_range (qty l) d) b ->
  Forall (fun l => id l = key -> in_range (qty l) d) (a ++ b).
Proof. intros Ha Hb. apply Forall_app. split; assumption. Qed.

(** The cart with one line for [key], of a quantity in range. *)
Lemma range_split (key : jsstring) (q d : Z) (l1 l2 : cart) :
  ~ In key (map id l1) -> ~ In key (map id l2) -> in_range q d ->
  Forall (fun l => id l = key -> in_range (qty l) d)
         (l1 ++ {| id := key; qty := q |} :: l2).
Proof.
  intros H1 H2 Hr. apply range_app; [apply range_absent; exact H1 | ].
  constructor; [intros _; exact Hr | apply range_absent; exact H2].
Qed.

(** On a cart that keeps the invariant a delta of at most 1 is in range. *)
Lemma range_small (key : jsstring) (d : Z) (c : cart) :
  exact_cart c -> Forall (fun l => (0 < qty l)%Z) c ->
  (- 2 ^ 53 <= d <= 1)%Z ->
  Forall (fun l => id l = key -> in_range (qty l) d) c.
Proof.
  intros He Hp Hd. apply Forall_forall. intros x Hx _.
  pose proof (proj1 (Forall_forall _ _) He x Hx) as H1.
  pose proof (proj1 (Forall_forall _ _) Hp x Hx) as H2. cbn beta in H1, H2.
  apply in_range_small; [ | exact Hd].
  change (2 ^ 53)%Z with 9007199254740992%Z in *. lia.
Qed.

(* ================================================================= *)
(** ** What the two operations store *)

Lemma add_exact (key : jsstring) (c : cart) :
  exact_cart c ->
  exact_cart (match find (fun x => str_eqb (id x) key) c with
              | Some _ => incremented key c
              | None => c ++ [{| id := key; qty := 1 |}]
              end).
Proof.
  intros H. destruct (find _ c).
  - apply incremented_exact. exact H.
  - apply Forall_app. split; [exact H | ].
    constructor; [ | constructor]. cbn.
    change (2 ^ 53)%Z with 9007199254740992%Z. lia.
Qed.

Lemma addToCart_holds (st : storage) (c : cart) (key : jsstring) :
  holds st c ->
  addToCart key st
  = (Normal tt,
     Some (JSON_stringify
             (match find (fun x => str_eqb (id x) key) c with
              | Some _ => incremented key c
              | None => c ++ [{| id := key; qty := 1 |}]
              end))).
Proof.
  intros H. pose proof (holds_exact st c H) as He.
  pose proof (add_exact key c He) as Ha.
  unfold addToCart. read_cart st c H.
  destruct (find (fun x => str_eqb (id x) key) c).
  - unfold bind, lift. rewrite (increment_found_incremented key c He).
    apply setCart_exact. exact Ha.
  - apply setCart_exact. exact Ha.
Qed.

Lemma changeQty_run (st : storage) (c : cart) (key : jsstring) (d : Z) :
  holds st c ->
  Forall (fun l => id l = key -> in_range (qty l) d) c ->
  exists r,
    changeQty key d st
    = (r, Some (JSON_stringify
                  (filter (fun it => (0 <? qty it)%Z)
                          (map (adjusted key d) c)))) /\
    r <> Unmodelled.
Proof.
  intros H Hr. pose proof (holds_exact st c H) as He.
  unfold changeQty. read_cart st c H.
  unfold bind at 1. unfold lift at 1.
  rewrite (map_adjust_adjusted key d c He Hr).
  set (c' := filter _ _).
  assert (He' : exact_cart c') by (apply adjusted_exact; assumption).
  unfold bind at 1. rewrite (setCart_exact c' _ He').
  pose proof (renderCart_state (Some (JSON_stringify c'))) as Hs.
  pose proof (renderCart_followed _ c' (holds_after_write c' He')) as Hf.
  unfold bind, ret.
  destruct (renderCart (Some (JSON_stringify c'))) as [[w | e |] st'];
    cbn [fst snd] in Hs, Hf; subst st'.
  - eexists. split; [reflexivity | discriminate].
  - eexists. split; [reflexivity | discriminate].
  - contradiction.
Qed.

Lemma changeQty_state (st : storage) (c : cart) (key : jsstring) (d : Z) :
  holds st c ->
  Forall (fun l => id l = key -> in_range (qty l) d) c ->
  snd (changeQty key d st)
  = Some (JSON_stringify
            (filter (fun it => (0 <? qty it)%Z) (map (adjusted key d) c))).
Proof.
  intros H Hr. destruct (changeQty_run st c key d H Hr) as (r & E & _).
  rewrite E. reflexivity.
Qed.

Lemma changeQty_followed (st : storage) (c : cart) (key : jsstring) (d : Z) :
  holds st c ->
  Forall (fun l => id l = key -> in_range (qty l) d) c ->
  fst (changeQty key d st) <> Unmodelled.
Proof.
  intros H Hr. destruct (changeQty_run st c key d H Hr) as (r & E & Hn).
  rewrite E. exact Hn.
Qed.

(** Both operations keep the invariant of the data model. *)
Lemma add_keeps_cart_ok (key : jsstring) (c : cart) :
  cart_ok c ->
  cart_ok (match find (fun x => str_eqb (id x) key) c with
           | Some _ => incremented key c
           | None => c ++ [{| id := key; qty := 1 |}]
           end).
Proof.
  intros [Hnd Hpos]. destruct (find _ c) eqn:E.
  - split.
    + rewrite map_id_incremented. exact Hnd.
    + apply incremented_positive. exact Hpos.
  - split.
    + rewrite map_app. cbn [map].
      apply NoDup_app; [exact Hnd | repeat constructor; intros [] | ].
      intros k Hk [<- | []].
      exact (find_present key c Hk E).
    + apply Forall_app. split; [exact Hpos | ].
      repeat constructor.
Qed.

Lemma change_keeps_cart_ok (key : jsstring) (d : Z) (c : cart) :
  NoDup (map id c) ->
  cart_ok (filter (fun it => (0 <? qty it)%Z) (map (adjusted key d) c)).
Proof.
  intros Hnd. split.
  - apply NoDup_map_id_filter. rewrite map_id_adjusted. exact Hnd.
  - apply filter_positive_Forall.
Qed.

Lemma change_split (key : jsstring) (q d : Z) (l1 l2 : cart) :
  ~ In key (map id l1) -> ~ In key (map id l2) ->
  filter (fun it => (0 <? qty it)%Z)
         (map (adjusted key d) (l1 ++ {| id := key; qty := q |} :: l2))
  = filter (fun it => (0 <? qty it)%Z) l1 ++
    (if (0 <? sum64 q d)%Z then [{| id := key; qty := sum64 q d |}] else [])
    ++ filter (fun it => (0 <? qty it)%Z) l2.
Proof.
  intros Hn1 Hn2. rewrite map_app. cbn [map].
  rewrite (map_adjusted_other key d l1 Hn1),
          (map_adjusted_other key d l2 Hn2).
  rewrite filter_app. cbn [filter]. unfold adjusted. cbn [id qty].
  rewrite str_eqb_refl. cbn [qty]. f_equal.
  destruct (Z.ltb_spec 0 (sum64 q d)) as [Hp | Hz].
  - rewrite Z.max_r by lia. apply Z.ltb_lt in Hp. rewrite Hp. reflexivity.
  - rewrite Z.max_l by lia. reflexivity.
Qed.

(** A cart that keeps the invariant, split at the line of [key]. *)
Lemma cart_ok_split (key : jsstring) (c : cart) :
  cart_ok c -> In key (map id c) ->
  exists l1 q l2,
    c = l1 ++ {| id := key; qty := q |} :: l2 /\
    ~ In key (map id l1) /\ ~ In key (map id l2) /\ (0 < q)%Z /\
    Forall (fun l => (0 < qty l)%Z) l1 /\ Forall (fun l => (0 < qty l)%Z) l2.
Proof.
  intros [Hnd Hpos] Hin.
  destruct (find (fun x => str_eqb (id x) key) c) as [x |] eqn:E.
  - destruct (find_split key c x E) as (l1 & l2 & Ec & Hn1).
    exists l1, (qty x), l2. subst c.
    rewrite map_app in Hnd. cbn [map id] in Hnd.
    apply NoDup_remove_2 in Hnd.
    apply Forall_app in Hpos. destruct Hpos as [Hp1 Hp2].
    inversion Hp2 as [| ? ? Hq Hp2']; subst.
    repeat split; try assumption.
    intros H2. apply Hnd. apply in_or_app. right. exact H2.
  - exfalso. exact (find_present key c Hin E).
Qed.

Lemma exact_split (q : Z) (key : jsstring) (l1 l2 : cart) :
  exact_cart (l1 ++ {| id := key; qty := q |} :: l2) ->
  exact_cart l1 /\ (Z.abs q <= 2 ^ 53)%Z /\ exact_cart l2.
Proof.
  intros H. apply Forall_app in H. destruct H as [H1 H2].
  inversion H2 as [| ? ? Hq H2']; subst.
  split; [exact H1 | split; [exact Hq | exact H2']].
Qed.
(* ================================================================= *)
(** ** The cart operations *)

(** C5: [addToCart(id)] completes on every stored cart.  On a cart whose
    first line for [id] has a quantity [q] below [2^53] it adds 1 to the
    quantity of that line and adds no line; on a cart without a line for
    [id] it appends [{id, qty: 1}] at the end; two calls from the empty cart
    leave one line with quantity 2. *)
Theorem addToCart_increments_or_appends :
  forall (st : storage) (c : cart) (key : jsstring),
    holds st c ->
    fst (addToCart key st) = Normal tt /\
    (In key (map id c) ->
     exists l1 q l2,
       c = l1 ++ {| id := key; qty := q |} :: l2 /\ ~ In key (map id l1)) /\
    (forall l1 q l2,
        c = l1 ++ {| id := key; qty := q |} :: l2 ->
        ~ In key (map id l1) -> (q < 2 ^ 53)%Z ->
        holds (snd (addToCart key st))
              (l1 ++ {| id := key; qty := q + 1 |} :: l2)) /\
    (~ In key (map id c) ->
     holds (snd (addToCart key st)) (c ++ [{| id := key; qty := 1 |}])) /\
    holds (snd ((addToCart key ;; addToCart key) None))
          [{| id := key; qty := 2 |}].
Proof.
  intros st c key H. pose proof (holds_exact st c H) as He.
  pose proof (add_exact key c He) as Ha.
  rewrite (addToCart_holds st c key H). cbn [fst snd].
  split; [reflexivity | ]. split; [ | split; [ | split]].
  - intros Hin.
    destruct (find (fun x => str_eqb (id x) key) c) as [x |] eqn:E.
    + destruct (find_split key c x E) as (l1 & l2 & Ec & Hn).
      exists l1, (qty x), l2. split; assumption.
    + exfalso. exact (find_present key c Hin E).
  - intros l1 q l2 Ec Hn Hq. subst c.
    rewrite (find_first key q l1 l2 Hn) in Ha |- *.
    rewrite (incremented_first key q l1 l2 Hn) in Ha |- *.
    rewrite (sum64_exact q 1) in Ha |- * by lia.
    apply holds_after_write. exact Ha.
  - intros Hn. rewrite (find_absent key c Hn) in Ha |- *.
    apply holds_after_write. exact Ha.
  - unfold bind at 1.
    rewrite (addToCart_holds None [] key holds_absent).
    cbn [find app].
    assert (H1 : exact_cart [{| id := key; qty := 1 |}]).
    { constructor; [ | constructor]. cbn.
      change (2 ^ 53)%Z with 9007199254740992%Z. lia. }
    rewrite (addToCart_holds _ _ key (holds_after_write _ H1)).
    cbn [find id snd]. rewrite str_eqb_refl.
    cbn [incremented id qty]. rewrite str_eqb_refl.
    apply holds_after_write.
    constructor; [ | constructor]. vm_compute. discriminate.
Qed.

Lemma addToCart_increments_or_appends_witness :
  let st := Some (JSON_stringify [{| id := u "bx-s"; qty := 1 |}]) in
  holds st ([] ++ {| id := u "bx-s"; qty := 1 |} :: []) /\
  (1 < 2 ^ 53)%Z /\
  holds (snd (addToCart (u "bx-s") st)) [{| id := u "bx-s"; qty := 2 |}].
Proof.
  intros st.
  assert (H : holds st ([] ++ {| id := u "bx-s"; qty := 1 |} :: []))
    by (vm_compute; reflexivity).
  assert (Hq : (1 < 2 ^ 53)%Z) by reflexivity.
  split; [exact H | ]. split; [exact Hq | ].
  exact (proj1 (proj2 (proj2
           (addToCart_increments_or_appends st _ (u "bx-s") H)))
           [] 1%Z [] eq_refl (fun F => F) Hq).
Defined.

(** C6: [changeQty(id, d)], for a delta and a sum [q + d] of magnitude at
    most [2^53], adds [d] to the quantity of the line with that id and keeps
    the line only while the result is positive; no line is left in the cart
    with a quantity of 0 or less. *)
Theorem changeQty_adjusts_or_removes :
  forall (st : storage) (l1 l2 : cart) (key : jsstring) (q d : Z),
    holds st (l1 ++ {| id := key; qty := q |} :: l2) ->
    ~ In key (map id (l1 ++ l2)) ->
    (Z.abs d <= 2 ^ 53)%Z -> (Z.abs (q + d) <= 2 ^ 53)%Z ->
    let kept := filter (fun it => (0 <? qty it)%Z) in
    let after :=
      kept l1 ++
      (if (0 <? q + d)%Z then [{| id := key; qty := q + d |}] else []) ++
      kept l2 in
    fst (changeQty key d st) <> Unmodelled /\
    holds (snd (changeQty key d st)) after /\
    Forall (fun l => (0 < qty l)%Z) after /\
    (q = 1%Z -> d = (-1)%Z -> after = kept l1 ++ kept l2).
Proof.
  intros st l1 l2 key q d H Hn Hd Hs kept after.
  assert (Hn1 : ~ In key (map id l1)).
  { intros Hin. apply Hn. rewrite map_app. apply in_or_app. left. exact Hin. }
  assert (Hn2 : ~ In key (map id l2)).
  { intros Hin. apply Hn. rewrite map_app. apply in_or_app. right. exact Hin. }
  pose proof (holds_exact _ _ H) as He.
  assert (Hr : Forall (fun l => id l = key -> in_range (qty l) d)
                      (l1 ++ {| id := key; qty := q |} :: l2)).
  { apply range_split; try assumption. apply in_range_exact; assumption. }
  assert (Hsum : sum64 q d = (q + d)%Z).
  { apply sum64_exact. change (2 ^ 53)%Z with 9007199254740992%Z in *. lia. }
  assert (Eafter :
            filter (fun it => (0 <? qty it)%Z)
                   (map (adjusted key d)
                        (l1 ++ {| id := key; qty := q |} :: l2))
            = after).
  { rewrite (change_split key q d l1 l2 Hn1 Hn2), Hsum. reflexivity. }
  split; [ | split; [ | split]].
  - exact (changeQty_followed st _ key d H Hr).
  - rewrite (changeQty_state st _ key d H Hr), Eafter.
    apply holds_after_write. rewrite <- Eafter.
    apply adjusted_exact; assumption.
  - rewrite <- Eafter. apply filter_positive_Forall.
  - intros -> ->. subst after. reflexivity.
Qed.

Lemma changeQty_adjusts_or_removes_witness :
  let c := [{| id := u "tap"; qty := 2 |}; {| id := u "bx-s"; qty := 1 |}] in
  holds (Some (JSON_stringify c))
        ([{| id := u "tap"; qty := 2 |}]
           ++ {| id := u "bx-s"; qty := 1 |} :: []) /\
  holds (snd (changeQty (u "bx-s") (-1) (Some (JSON_stringify c))))
        [{| id := u "tap"; qty := 2 |}].
Proof.
  intros c.
  assert (H : holds (Some (JSON_stringify c))
                    ([{| id := u "tap"; qty := 2 |}]
                       ++ {| id := u "bx-s"; qty := 1 |} :: []))
    by (vm_compute; reflexivity).
  split; [exact H | ].
  apply (changeQty_adjusts_or_removes (Some (JSON_stringify c))
           [{| id := u "tap"; qty := 2 |}] [] (u "bx-s") 1 (-1) H).
  - cbn. intros [E | []]. discriminate E.
  - vm_compute. discriminate.
  - vm_compute. discriminate.
Defined.

(** C7: whatever sequence of [addToCart] and [changeQty] calls starts from
    an empty storage, with the deltas +1 and -1 of the row buttons (or any
    delta of at most 1 and at least [-2^53]), every call is followed and the
    stored cart has at most one line per product id and only positive
    quantities. *)
Theorem reachable_cart_ok :
  forall acts : list action,
    Forall small_delta acts ->
    all_followed acts None /\
    exists c, holds (run acts None) c /\ cart_ok c.
Proof.
  intros acts.
  assert (G : forall (acts : list action) (st : storage) (c : cart),
             Forall small_delta acts -> holds st c -> cart_ok c ->
             all_followed acts st /\
             exists c', holds (run acts st) c' /\ cart_ok c').
  { clear acts. induction acts as [| a acts IH]; intros st c Hsm H Hok.
    - split; [exact I | ]. exists c. split; assumption.
    - inversion Hsm as [| ? ? Ha Hacts]; subst.
      pose proof (holds_exact st c H) as He.
      cbn [run all_followed]. destruct a as [key | key d]; cbn [perform].
      + rewrite (addToCart_holds st c key H). cbn [fst snd].
        destruct (IH _ _ Hacts
                    (holds_after_write _ (add_exact key c He))
                    (add_keeps_cart_ok key c Hok)) as [Hf Hc].
        split; [split; [discriminate | exact Hf] | exact Hc].
      + cbn [small_delta] in Ha.
        pose proof (range_small key d c He (proj2 Hok) Ha) as Hr.
        rewrite (changeQty_state st c key d H Hr).
        destruct (IH _ _ Hacts
                    (holds_after_write _ (adjusted_exact key d c He Hr))
                    (change_keeps_cart_ok key d c (proj1 Hok))) as [Hf Hc].
        split; [ | exact Hc].
        split; [exact (changeQty_followed st c key d H Hr) | exact Hf]. }
  intros Hsm. apply (G acts None []).
  - exact Hsm.
  - exact holds_absent.
  - split; constructor.
Qed.

Lemma reachable_cart_ok_witness :
  let acts := [Add (u "tap"); Change (u "tap") 1; Add (u "bx-s");
               Change (u "tap") (-1); Change (u "tap") (-1)] in
  Forall small_delta acts /\
  exists c, holds (run acts None) c /\ cart_ok c.
Proof.
  intros acts.
  assert (H : Forall small_delta acts).
  { repeat constructor; vm_compute; discriminate. }
  split; [exact H | ].
  exact (proj2 (reachable_cart_ok acts H)).
Defined.

(** C10: on a stored cart whose quantities are all positive,
    [changeQty(id, d)] for an id that has no line leaves the cart as it was,
    whatever [d].  The stored cart is the one the typed view reads: its
    quantities are the numbers [JSON.parse] returns, integers of magnitude
    at most [2^53]. *)
Theorem changeQty_absent_id :
  forall (st : storage) (c : cart) (key : jsstring) (d : Z),
    holds st c ->
    Forall (fun l => (0 < qty l)%Z) c ->
    ~ In key (map id c) ->
    exact_cart c /\
    fst (changeQty key d st) <> Unmodelled /\
    holds (snd (changeQty key d st)) c.
Proof.
  intros st c key d H Hpos Hn.
  pose proof (range_absent key d c Hn) as Hr.
  split; [exact (holds_exact st c H) | ].
  split; [exact (changeQty_followed st c key d H Hr) | ].
  rewrite (changeQty_state st c key d H Hr).
  rewrite (map_adjusted_other key d c Hn), (filter_positive_all c Hpos).
  apply holds_after_write. exact (holds_exact st c H).
Qed.

Lemma changeQty_absent_id_witness :
  holds (Some (JSON_stringify [{| id := u "tap"; qty := 2 |}]))
        [{| id := u "tap"; qty := 2 |}] /\
  holds (snd (changeQty (u "bx-s") (-1)
                (Some (JSON_stringify [{| id := u "tap"; qty := 2 |}]))))
        [{| id := u "tap"; qty := 2 |}].
Proof.
  assert (H : holds (Some (JSON_stringify [{| id := u "tap"; qty := 2 |}]))
                    [{| id := u "tap"; qty := 2 |}])
    by (vm_compute; reflexivity).
  split; [exact H | ].
  refine (proj2 (proj2 (changeQty_absent_id
           (Some (JSON_stringify [{| id := u "tap"; qty := 2 |}]))
           [{| id := u "tap"; qty := 2 |}] (u "bx-s") (-1) H _ _))).
  - repeat constructor.
  - cbn. intros [E | []]. discriminate E.
Defined.

(** C3: the checkout handler, on a non-empty cart, stores the empty cart
    and shows the order notice; on an empty cart it shows the other notice
    and writes nothing. *)
Theorem checkout_outcomes :
  forall (st : storage) (c : cart),
    holds st c ->
    (c <> [] ->
     checkout st = (Normal msg_placed, Some (JSON_stringify [])) /\
     holds (Some (JSON_stringify [])) []) /\
    (c = [] -> checkout st = (Normal msg_empty, st)) /\
    msg_placed <> msg_empty.
Proof.
  intros st c H. split; [ | split].
  - intros Hne. split; [ | apply holds_after_write; constructor].
    unfold checkout. read_cart st c H.
    destruct c as [| x c]; [contradiction | ].
    cbn [List.length Nat.eqb]. reflexivity.
  - intros ->. unfold checkout. read_cart st (@nil line) H. reflexivity.
  - discriminate.
Qed.

Lemma checkout_outcomes_witness :
  holds (Some (JSON_stringify [{| id := u "tap"; qty := 2 |}]))
        [{| id := u "tap"; qty := 2 |}] /\
  checkout (Some (JSON_stringify [{| id := u "tap"; qty := 2 |}]))
  = (Normal msg_placed, Some (JSON_stringify [])).
Proof.
  split; [reflexivity | ].
  apply (checkout_outcomes
           (Some (JSON_stringify [{| id := u "tap"; qty := 2 |}]))
           [{| id := u "tap"; qty := 2 |}]).
  - reflexivity.
  - discriminate.
Defined.

(** C8: for every cart whose quantities are integers of magnitude at most
    [2^53], [getCart()] after [setCart(items)] returns the array of the same
    lines, whatever was stored before. *)
Theorem setCart_getCart_roundtrip :
  forall (items : cart) (st : storage),
    exact_cart items ->
    (setCart items ;; getCart) st
    = (Normal (json_of_cart items), Some (JSON_stringify items)) /\
    cart_of_json (json_of_cart items) = Some items /\
    holds (snd (setCart items st)) items.
Proof.
  intros items st He. split; [ | split].
  - unfold bind at 1. rewrite (setCart_exact items st He).
    apply getCart_after_write.
  - apply cart_of_json_of_cart. exact He.
  - rewrite (setCart_exact items st He). apply holds_after_write. exact He.
Qed.

Lemma setCart_getCart_roundtrip_witness :
  let items := [{| id := u "bx-s"; qty := 3 |};
                {| id := 34 :: u "a\b"; qty := (2 ^ 53)%Z |}] in
  exact_cart items /\ holds (snd (setCart items None)) items.
Proof.
  intros items.
  assert (H : exact_cart items).
  { repeat constructor; vm_compute; discriminate. }
  split; [exact H | ].
  exact (proj2 (proj2 (setCart_getCart_roundtrip items None H))).
Defined.
(* ================================================================= *)
(** ** Reading the slot *)

(** C1, as the code has it: [getCart()] returns the empty array when the
    slot is not set or holds the empty string, returns the parsed value when
    the stored text parses (the stored cart after [setCart]), and lets the
    SyntaxError of [JSON.parse] reach the caller when a non-empty stored
    text does not parse. *)
Theorem getCart_outcomes :
  forall st : storage,
    (st = None \/ st = Some [] -> getCart st = (Normal (JArr []), st)) /\
    (forall text v,
        st = Some text -> JSON_parse text = Normal v ->
        getCart st = (Normal v, st)) /\
    (forall items,
        st = Some (JSON_stringify items) ->
        getCart st = (Normal (json_of_cart items), st)) /\
    (forall text,
        st = Some text -> text <> [] ->
        JSON_parse text = Throw SyntaxError ->
        getCart st = (Throw SyntaxError, st)) /\
    ((exists v, fst (getCart st) = Normal v) \/
     fst (getCart st) = Throw SyntaxError).
Proof.
  intros st. repeat split.
  - intros [-> | ->]; reflexivity.
  - intros text v -> H. destruct text as [| c r]; [discriminate H | ].
    unfold getCart, bind, getItem, lift. cbn [or_empty_array].
    rewrite H. reflexivity.
  - intros items ->. apply getCart_after_write.
  - intros text -> Hne H. destruct text as [| c r]; [contradiction | ].
    unfold getCart, bind, getItem, lift. cbn [or_empty_array].
    rewrite H. reflexivity.
  - unfold getCart, bind, getItem, lift. cbn [fst].
    apply JSON_parse_total.
Qed.

Lemma getCart_outcomes_witness :
  Some (u "not json") = Some (u "not json") /\
  u "not json" <> [] /\
  JSON_parse (u "not json") = Throw SyntaxError /\
  getCart (Some (u "not json")) = (Throw SyntaxError, Some (u "not json")).
Proof.
  assert (H : JSON_parse (u "not json") = Throw SyntaxError)
    by (vm_compute; reflexivity).
  assert (Hne : u "not json" <> []) by discriminate.
  split; [reflexivity | ]. split; [exact Hne | ]. split; [exact H | ].
  exact (proj1 (proj2 (proj2 (proj2 (getCart_outcomes (Some (u "not json"))))))
           (u "not json") eq_refl Hne H).
Defined.

(** C1 as stated fails: the stored text [not json] does not parse, and
    [getCart()] throws instead of returning the empty array. *)
Lemma getCart_corrupted_counterexample :
  JSON_parse (u "not json") = Throw SyntaxError /\
  fst (getCart (Some (u "not json"))) = Throw SyntaxError /\
  fst (getCart (Some (u "not json"))) <> Normal (JArr []).
Proof. repeat split; try (vm_compute; reflexivity). discriminate. Qed.

(* ================================================================= *)
(** ** The cart total *)

Section Total.
Variable catalog : list product.

Lemma cart_sum_known :
  forall (c : cart) (s : number),
    Forall (fun it => find_product catalog (id it) <> None) c ->
    cart_sum catalog s c = Normal (fold_left (add_line_total catalog) c s).
Proof.
  induction c as [| it c IH]; intros s H.
  - reflexivity.
  - inversion H as [| ? ? Hit Hc]; subst.
    cbn [cart_sum fold_left]. unfold add_line_total at 2.
    destruct (find_product catalog (id it)) as [p |]; [ | congruence].
    apply IH. exact Hc.
Qed.

Lemma cart_sum_unknown :
  forall (c : cart) (s : number),
    Exists (fun it => find_product catalog (id it) = None) c ->
    cart_sum catalog s c = Throw TypeError.
Proof.
  induction c as [| it c IH]; intros s H.
  - inversion H.
  - cbn [cart_sum].
    destruct (find_product catalog (id it)) as [p |] eqn:E; [ | reflexivity].
    apply IH. inversion H as [? ? Hit | ? ? Hc]; subst;
      [congruence | exact Hc].
Qed.

End Total.

(** C2, as the code has it: when every line names a product of the catalog,
    the total is the sum, in cart order from 0, of price times quantity over
    the lines, and nothing is thrown; a line that names no product of the
    catalog makes the computation throw a TypeError. *)
Theorem cart_sum_total :
  forall (catalog : list product) (c : cart),
    (Forall (fun it => find_product catalog (id it) <> None) c ->
     cart_sum catalog (of_Z 0) c = Normal (computeTotal_spec catalog c)) /\
    (Exists (fun it => find_product catalog (id it) = None) c ->
     cart_sum catalog (of_Z 0) c = Throw TypeError).
Proof.
  intros catalog c. split.
  - intros H. apply cart_sum_known. exact H.
  - intros H. apply cart_sum_unknown. exact H.
Qed.

Lemma cart_sum_total_witness :
  Forall (fun it => find_product PRODUCTS (id it) <> None)
         [{| id := u "bx-s"; qty := 2 |}; {| id := u "tap"; qty := 1 |}] /\
  cart_sum PRODUCTS (of_Z 0)
           [{| id := u "bx-s"; qty := 2 |}; {| id := u "tap"; qty := 1 |}]
  = Normal (fadd (fadd (of_Z 0) (fmul (lit 199 2) (of_Z 2)))
                 (fmul (lit 249 2) (of_Z 1))).
Proof.
  assert (H : Forall (fun it => find_product PRODUCTS (id it) <> None)
                [{| id := u "bx-s"; qty := 2 |};
                 {| id := u "tap"; qty := 1 |}])
    by (repeat constructor; discriminate).
  split; [exact H | ].
  exact (proj1 (cart_sum_total PRODUCTS _) H).
Defined.

(** C2 as stated fails: a line of a product that is not in the catalog does
    not add nothing; the sum throws. *)
Lemma cart_sum_counterexample :
  find_product PRODUCTS (u "zz") = None /\
  cart_sum PRODUCTS (of_Z 0) [{| id := u "zz"; qty := 1 |}] = Throw TypeError /\
  cart_sum PRODUCTS (of_Z 0) [{| id := u "zz"; qty := 1 |}]
  <> Normal (computeTotal_spec PRODUCTS [{| id := u "zz"; qty := 1 |}]) /\
  fst (renderCart (Some (JSON_stringify [{| id := u "zz"; qty := 1 |}])))
  = Throw TypeError.
Proof. repeat split; try (vm_compute; reflexivity). discriminate. Qed.

(* ================================================================= *)
(** ** More on the pricing estimate *)

(** The two zone tables have the same keys. *)
Lemma zone_tables_same_keys (zone : jsstring) :
  (get zoneBase_table zone = Absent -> get perKg_table zone = Absent) /\
  (get zoneBase_table zone = Inherited -> get perKg_table zone = Inherited).
Proof.
  unfold get, zoneBase_table, perKg_table. cbn [own_property].
  destruct (str_eqb (u "local") zone); [split; discriminate | ].
  destruct (str_eqb (u "regional") zone); [split; discriminate | ].
  destruct (str_eqb (u "national") zone); [split; discriminate | ].
  destruct (str_eqb (u "international") zone); [split; discriminate | ].
  destruct (existsb (str_eqb zone) Object_prototype_names);
    split; intros H; try discriminate H; reflexivity.
Qed.

(** X1: a zone that is neither a key of the zone tables nor the name of a
    member of [Object.prototype] is priced as [regional], and such a service
    tier as [standard], whatever the other arguments are. *)
Theorem estimatePrice_unknown_keys :
  forall (kg : option number) (zone service : jsstring),
    (get zoneBase_table zone = Absent ->
     forall s, estimatePrice kg (Some zone) s
               = estimatePrice kg (Some (u "regional")) s) /\
    (get svc_table service = Absent ->
     forall z, estimatePrice kg z (Some service)
               = estimatePrice kg z (Some (u "standard"))).
Proof.
  intros kg zone service. split.
  - intros Hz s.
    pose proof (proj1 (zone_tables_same_keys zone) Hz) as Hp.
    unfold estimatePrice. rewrite Hz, Hp. reflexivity.
  - intros Hs z. unfold estimatePrice. rewrite Hs. reflexivity.
Qed.

Lemma estimatePrice_unknown_keys_witness :
  get zoneBase_table (u "mars") = Absent /\
  estimatePrice (Some (of_Z 3)) (Some (u "mars")) (Some (u "express"))
  = estimatePrice (Some (of_Z 3)) (Some (u "regional")) (Some (u "express")).
Proof.
  split; [reflexivity | ].
  apply (proj1 (estimatePrice_unknown_keys (Some (of_Z 3)) (u "mars") [])).
  reflexivity.
Defined.

Lemma SFcompare_antisym (a b : number) :
  SFcompare b a = match SFcompare a b with
                  | Some c => Some (CompOpp c)
                  | None => None
                  end.
Proof.
  destruct a as [[] | [] | | [] ma ea]; destruct b as [[] | [] | | [] mb eb];
    try reflexivity; cbn [SFcompare];
      rewrite (Z.compare_antisym ea eb);
      destruct (ea ?= eb)%Z; cbn [CompOpp]; try reflexivity;
        rewrite (Pos.compare_cont_antisym ma mb Eq); cbn [CompOpp];
          destruct (Pos.compare_cont Eq ma mb); reflexivity.
Qed.

(** [Math.max(a, x)] is [a] when [x <= a] and [a] is not a zero. *)
Lemma Math_max_left (a x : number) :
  SFleb x a = true ->
  match a with S754_zero _ => False | _ => True end ->
  Math_max a x = a.
Proof.
  unfold SFleb, Math_max. intros H Ha.
  rewrite (SFcompare_antisym x a).
  destruct (SFcompare x a) as [[] |]; try discriminate H; cbn [CompOpp].
  - destruct a as [[] | | |]; try contradiction; reflexivity.
  - reflexivity.
Qed.

(** X2: the billable weight has a floor of 0.5: every weight up to 0.5,
    zero and the negative ones included, is priced as 0.5. *)
Theorem estimatePrice_minimum_weight :
  forall (kg : number) (zone service : option jsstring),
    SFleb kg (lit 5 1) = true ->
    estimatePrice (Some kg) zone service
    = estimatePrice (Some (lit 5 1)) zone service.
Proof.
  intros kg zone service H. unfold estimatePrice.
  rewrite (Math_max_left (lit 5 1) kg H I).
  rewrite (Math_max_left (lit 5 1) (lit 5 1) eq_refl I).
  reflexivity.
Qed.

Lemma estimatePrice_minimum_weight_witness :
  SFleb (of_Z (-3)) (lit 5 1) = true /\
  estimatePrice (Some (of_Z (-3))) (Some (u "national")) None
  = estimatePrice (Some (lit 5 1)) (Some (u "national")) None.
Proof.
  split; [reflexivity | ].
  apply (estimatePrice_minimum_weight (of_Z (-3))). reflexivity.
Defined.

(** [Math.max(0.5, kg)] is positive for every weight but NaN. *)
Lemma billable_weight_any (kg : number) :
  kg <> NaN -> positive_number (Math_max (lit 5 1) kg).
Proof.
  unfold NaN. intros H.
  change (lit 5 1) with (S754_finite false 4503599627370496 (-53)).
  destruct kg as [[] | [] | | [] m e]; try congruence; try exact I.
  unfold Math_max. cbn [SFcompare].
  destruct (-53 ?= e)%Z; try exact I.
  destruct (Pos.compare_cont Eq 4503599627370496 m); exact I.
Qed.

Lemma fmul_NaN_r (x : number) : fmul x NaN = NaN.
Proof. destruct x as [[] | [] | | [] m e]; reflexivity. Qed.

Lemma fmul_NaN_l (x : number) : fmul NaN x = NaN.
Proof. reflexivity. Qed.

Lemma fadd_NaN_r (x : number) : fadd x NaN = NaN.
Proof. destruct x as [[] | [] | | [] m e]; reflexivity. Qed.

Lemma Math_max_NaN_r (a : number) : Math_max a NaN = NaN.
Proof. destruct a as [[] | [] | | [] m e]; reflexivity. Qed.

(** The estimate once the price is NaN. *)
Lemma estimate_of_NaN_price :
  Math_max (of_Z 5) (fdiv (Math_round (fmul NaN (of_Z 100))) (of_Z 100)) = NaN.
Proof. reflexivity. Qed.

(** X3: the estimate is NaN in exactly three cases: the weight is NaN, the
    zone names a member of [Object.prototype], or the service tier does; in
    every other case, whatever the weight, it is at least 5. *)
Theorem estimatePrice_NaN_or_floor :
  forall (kg : number) (zone service : jsstring),
    let e := estimatePrice (Some kg) (Some zone) (Some service) in
    (kg = NaN \/ get zoneBase_table zone = Inherited \/
     get svc_table service = Inherited -> e = NaN) /\
    (kg <> NaN -> get zoneBase_table zone <> Inherited ->
     get svc_table service <> Inherited -> fge e (of_Z 5) = true).
Proof.
  intros kg zone service e. subst e. split.
  - intros H. unfold estimatePrice.
    assert (Hprice :
              ToNumber
                (js_times
                   (js_plus (nullish (get zoneBase_table zone) (of_Z 12))
                      (js_times (nullish (get perKg_table zone) (lit 18 1))
                                (VNum (Math_max (lit 5 1) kg))))
                   (nullish (get svc_table service) (lit 10 1))) = NaN).
    { destruct H as [-> | [Hz | Hs]].
      - rewrite Math_max_NaN_r. unfold js_times at 2. cbn [ToNumber].
        rewrite fmul_NaN_r.
        destruct (nullish (get zoneBase_table zone) (of_Z 12)) as [b | |];
          cbn [js_plus js_times ToNumber]; try reflexivity.
        rewrite fadd_NaN_r. reflexivity.
      - rewrite Hz, (proj2 (zone_tables_same_keys zone) Hz). reflexivity.
      - rewrite Hs. cbn [nullish js_times ToNumber]. apply fmul_NaN_r. }
    rewrite Hprice. exact estimate_of_NaN_price.
  - intros Hkg Hz Hs.
    destruct (zone_lookup zone Hz) as (b & p & Hb & Hp & Eb & Ep).
    destruct (service_lookup service Hs) as (m & Hm & Em).
    unfold estimatePrice. rewrite Eb, Ep, Em.
    cbn [js_times js_plus ToNumber].
    apply Math_max_ge; [discriminate | ].
    apply nonneg_not_NaN.
    apply fdiv_nonneg; [ | exact I].
    apply Math_round_nonneg.
    apply fmul_nonneg; [ | exact I].
    apply fmul_nonneg; [ | exact Hm].
    apply fadd_nonneg; [exact Hb | ].
    apply fmul_finite_positive; [exact Hp | ].
    apply billable_weight_any. exact Hkg.
Qed.

Lemma estimatePrice_NaN_or_floor_witness :
  of_Z (-2) <> NaN /\
  get zoneBase_table (u "mars") <> Inherited /\
  get svc_table (u "economy") <> Inherited /\
  fge (estimatePrice (Some (of_Z (-2))) (Some (u "mars"))
                     (Some (u "economy"))) (of_Z 5) = true.
Proof.
  assert (H1 : of_Z (-2) <> NaN) by discriminate.
  assert (H2 : get zoneBase_table (u "mars") <> Inherited) by discriminate.
  assert (H3 : get svc_table (u "economy") <> Inherited) by discriminate.
  split; [exact H1 | ]. split; [exact H2 | ]. split; [exact H3 | ].
  exact (proj2 (estimatePrice_NaN_or_floor (of_Z (-2)) (u "mars")
                  (u "economy")) H1 H2 H3).
Defined.

(** X4: the booking form shows a price only for a weight above zero (not
    for zero, a negative weight or NaN, where it shows the dash); the price
    it shows is at least 5 unless the zone names a member of
    [Object.prototype]. *)
Theorem booking_quote_guard :
  forall (kg : number) (zone : option jsstring),
    (fgt kg (of_Z 0) = false -> booking_quote kg zone = None) /\
    (fgt kg (of_Z 0) = true ->
     get zoneBase_table (zone_key zone) <> Inherited ->
     exists p, booking_quote kg zone = Some p /\ fge p (of_Z 5) = true).
Proof.
  intros kg zone. unfold booking_quote. split.
  - intros ->. reflexivity.
  - intros H Hz. rewrite H. eexists. split; [reflexivity | ].
    apply (estimatePrice_NaN_or_floor kg (zone_key zone) (u "standard")).
    + intros ->. discriminate H.
    + exact Hz.
    + discriminate.
Qed.

Lemma booking_quote_guard_witness :
  fgt (lit 25 1) (of_Z 0) = true /\
  get zoneBase_table (zone_key None) <> Inherited /\
  exists p, booking_quote (lit 25 1) None = Some p /\ fge p (of_Z 5) = true.
Proof.
  assert (H1 : fgt (lit 25 1) (of_Z 0) = true) by reflexivity.
  assert (H2 : get zoneBase_table (zone_key None) <> Inherited)
    by discriminate.
  split; [exact H1 | ]. split; [exact H2 | ].
  exact (proj2 (booking_quote_guard (lit 25 1) None) H1 H2).
Defined.

(** X5: the home-page quote has no such guard: a weight that is NaN gives
    a NaN price for every zone; any other weight, with a zone that does not
    name a member of [Object.prototype], gives a price of at least 5. *)
Theorem mini_quote_unguarded :
  forall (kg : number) (zone : option jsstring),
    (kg = NaN -> mini_quote kg zone = NaN) /\
    (kg <> NaN -> get zoneBase_table (zone_key zone) <> Inherited ->
     fge (mini_quote kg zone) (of_Z 5) = true).
Proof.
  intros kg zone. unfold mini_quote. split.
  - intros H.
    apply (estimatePrice_NaN_or_floor kg (zone_key zone) (u "standard")).
    left. exact H.
  - intros H Hz.
    apply (estimatePrice_NaN_or_floor kg (zone_key zone) (u "standard"));
      [exact H | exact Hz | discriminate].
Qed.

Lemma mini_quote_unguarded_witness :
  NaN = NaN /\ mini_quote NaN (Some (u "local")) = NaN.
Proof.
  split; [reflexivity | ].
  exact (proj1 (mini_quote_unguarded NaN (Some (u "local"))) eq_refl).
Defined.

(* ================================================================= *)
(** ** Tracking numbers and the timeline *)

Lemma occurrences_app (c : N) (a b : jsstring) :
  occurrences c (a ++ b) = (occurrences c a + occurrences c b)%nat.
Proof. unfold occurrences. apply count_occ_app. Qed.

(** A tracking number that is accepted is made of the letter S and of
    digits. *)
Lemma tracking_number_ok_shape (tn : jsstring) :
  tracking_number_ok tn = true ->
  exists ds, tn = 83 :: 83 :: ds /\
             Forall (fun c => is_digit c = true) ds /\
             (6 <= List.length ds)%nat.
Proof.
  destruct tn as [| c1 [| c2 ds]]; try discriminate.
  cbn [tracking_number_ok]. intros H.
  apply andb_true_iff in H. destruct H as [H Hlen].
  apply andb_true_iff in H. destruct H as [H Hds].
  apply andb_true_iff in H. destruct H as [H1 H2].
  apply N.eqb_eq in H1. apply N.eqb_eq in H2. subst c1 c2.
  exists ds. split; [reflexivity | ]. split.
  - apply Forall_forall. intros c Hc.
    exact (proj1 (forallb_forall _ _) Hds c Hc).
  - apply Nat.leb_le. exact Hlen.
Qed.

Lemma digits_no_occurrence (c : N) (ds : jsstring) :
  is_digit c = false ->
  Forall (fun d => is_digit d = true) ds -> occurrences c ds = 0%nat.
Proof.
  intros Hc. induction 1 as [| d ds Hd _ IH].
  - reflexivity.
  - unfold occurrences in *. cbn [count_occ].
    destruct (N.eq_dec d c) as [-> | _]; [congruence | exact IH].
Qed.

Lemma tracking_number_no_occurrence (c : N) (tn : jsstring) :
  tracking_number_ok tn = true -> is_digit c = false -> c <> 83 ->
  occurrences c tn = 0%nat.
Proof.
  intros H Hc Hs.
  destruct (tracking_number_ok_shape tn H) as (ds & -> & Hds & _).
  unfold occurrences. cbn [count_occ].
  destruct (N.eq_dec 83 c) as [E | _]; [congruence | ].
  apply digits_no_occurrence; assumption.
Qed.

(** X6: [fakeTracking(tn)] has two shapes.  When [tn] is the letters SS
    followed by six digits or more and nothing else, it is the five-step
    timeline, whose first step names [tn], with progress 82; for any other
    text it is the one step [Not found] with progress 0, the same for all
    such texts.  The progress is within 0 and 100. *)
Theorem fakeTracking_shapes :
  forall tn : jsstring,
    ((exists ds, tn = 83 :: 83 :: ds /\
                 Forall (fun c => is_digit c = true) ds /\
                 (6 <= List.length ds)%nat) /\
     tracking_progress (fakeTracking tn) = 82%Z /\
     List.length (steps (fakeTracking tn)) = 5%nat /\
     map step_desc (firstn 1 (steps (fakeTracking tn)))
     = [u "Label generated for " ++ tn])
    \/
    ((forall ds, tn = 83 :: 83 :: ds ->
                 Forall (fun c => is_digit c = true) ds ->
                 (List.length ds < 6)%nat) /\
     fakeTracking tn
     = {| steps := not_found_steps; tracking_progress := 0 |}).
Proof.
  intros tn. unfold fakeTracking.
  destruct (tracking_number_ok tn) eqn:E.
  - left. split; [apply tracking_number_ok_shape; exact E | ].
    repeat split.
  - right. split; [ | reflexivity].
    intros ds -> Hds.
    cbn [tracking_number_ok] in E.
    change (83 =? 83) with true in E. cbn [andb] in E.
    assert (Hall : forallb is_digit ds = true).
    { apply forallb_forall. intros c Hc.
      exact (proj1 (Forall_forall _ _) Hds c Hc). }
    rewrite Hall in E. cbn [andb] in E.
    apply Nat.leb_gt in E. exact E.
Qed.

(** The code units of one item: the fixed markup and the three fields. *)
Lemma timeline_item_occurrences (c : N) (s : step) :
  occurrences c (timeline_item s)
  = (occurrences c
       (timeline_item {| step_t := []; step_title := []; step_desc := [] |})
     + occurrences c (step_title s) + occurrences c (step_t s)
     + occurrences c (step_desc s))%nat.
Proof.
  unfold timeline_item. cbn [step_t step_title step_desc].
  set (p1 := 10 :: u "    <div class=" ++ 34 :: u "timeline-item" ++
             34 :: u ">" ++
             10 :: u "      <div class=" ++ 34 :: u "timeline-dot" ++
             34 :: u "></div>" ++
             10 :: u "      <div class=" ++ 34 :: u "timeline-text" ++
             34 :: u ">" ++ 10 :: u "        <strong>").
  set (p2 := u "</strong><br/>" ++ 10 :: u "        <small>").
  set (p3 := u "</small><div>").
  set (p4 := u "</div>" ++ 10 :: u "      </div>" ++ 10 :: u "    </div>" ++
             10 :: u "  ").
  change (occurrences c (p1 ++ step_title s ++ p2 ++ step_t s ++ p3 ++
                         step_desc s ++ p4)
          = (occurrences c (p1 ++ [] ++ p2 ++ [] ++ p3 ++ [] ++ p4)
             + occurrences c (step_title s) + occurrences c (step_t s)
             + occurrences c (step_desc s))%nat).
  rewrite !occurrences_app.
  change (occurrences c []) with 0%nat. lia.
Qed.

Lemma renderTimeline_occurrences (c : N) (l : list step) (p : Z) :
  occurrences c (renderTimeline {| steps := l; tracking_progress := p |})
  = (List.length l
     * occurrences c
         (timeline_item {| step_t := []; step_title := []; step_desc := [] |})
     + fold_right
         (fun s n => (occurrences c (step_title s) + occurrences c (step_t s)
                      + occurrences c (step_desc s) + n)%nat) 0%nat l)%nat.
Proof.
  unfold renderTimeline. cbn [steps].
  induction l as [| s l IH].
  - reflexivity.
  - cbn [map List.concat fold_right List.length].
    rewrite occurrences_app, IH, (timeline_item_occurrences c s). lia.
Qed.

(** X7: the markup of a rendered timeline does not depend on the text that
    was typed: whatever [tn] is, [renderTimeline(fakeTracking(tn))] has 13
    less-than signs per step, those of the template, and no ampersand. *)
Theorem timeline_markup_fixed :
  forall tn : jsstring,
    occurrences 60 (renderTimeline (fakeTracking tn))
    = (13 * List.length (steps (fakeTracking tn)))%nat /\
    occurrences 38 (renderTimeline (fakeTracking tn)) = 0%nat.
Proof.
  intros tn. unfold fakeTracking.
  destruct (tracking_number_ok tn) eqn:E.
  - rewrite !renderTimeline_occurrences.
    unfold found_steps.
    cbn [fold_right List.length step_t step_title step_desc].
    rewrite !occurrences_app.
    rewrite (tracking_number_no_occurrence 60 tn E eq_refl)
      by discriminate.
    rewrite (tracking_number_no_occurrence 38 tn E eq_refl)
      by discriminate.
    split; vm_compute; reflexivity.
  - split; vm_compute; reflexivity.
Qed.

Lemma trim_start_spaces (pad s : jsstring) :
  Forall (fun c => is_space c = true) pad ->
  trim_start (pad ++ s) = trim_start s.
Proof.
  induction 1 as [| c pad Hc _ IH].
  - reflexivity.
  - cbn [app trim_start]. rewrite Hc. exact IH.
Qed.

Lemma trim_start_none (c : N) (s : jsstring) :
  is_space c = false -> trim_start (c :: s) = c :: s.
Proof. intros H. cbn [trim_start]. rewrite H. reflexivity. Qed.

Lemma digit_not_space (c : N) : is_digit c = true -> is_space c = false.
Proof.
  unfold is_digit. intros H. apply andb_true_iff in H.
  destruct H as [Ha Hb]. apply N.leb_le in Ha. apply N.leb_le in Hb.
  unfold is_space.
  repeat match goal with
         | |- context [?x =? ?y] =>
           destruct (N.eqb_spec x y); [lia | ]
         end.
  destruct (N.leb_spec 8192 c); [lia | reflexivity].
Qed.

(** An accepted tracking number starts and ends with a code unit that is
    not white space. *)
Lemma tracking_number_ends (tn : jsstring) :
  tracking_number_ok tn = true ->
  (exists r, tn = 83 :: r) /\
  (exists d r, rev tn = d :: r /\ is_space d = false).
Proof.
  intros H.
  destruct (tracking_number_ok_shape tn H) as (ds & -> & Hds & Hlen).
  split; [eexists; reflexivity | ].
  destruct (rev ds) as [| d r] eqn:E.
  - apply (f_equal (@List.length N)) in E. rewrite length_rev in E.
    cbn in E. lia.
  - exists d, (r ++ [83] ++ [83]). split.
    + cbn [rev]. rewrite E. cbn [app]. rewrite <- app_assoc. reflexivity.
    + apply digit_not_space.
      apply (proj1 (Forall_forall _ _) Hds).
      apply in_rev. rewrite E. left. reflexivity.
Qed.

Lemma trim_padded (a b tn : jsstring) :
  tracking_number_ok tn = true ->
  Forall (fun c => is_space c = true) a ->
  Forall (fun c => is_space c = true) b ->
  trim (a ++ tn ++ b) = tn.
Proof.
  intros H Ha Hb.
  destruct (tracking_number_ends tn H) as ((r & Er) & (d & r' & Erev & Hd)).
  unfold trim. rewrite trim_start_spaces by exact Ha.
  rewrite Er at 1. cbn [app]. rewrite trim_start_none by reflexivity.
  change (83 :: r ++ b) with ((83 :: r) ++ b). rewrite <- Er.
  rewrite rev_app_distr.
  rewrite trim_start_spaces by (apply Forall_rev; exact Hb).
  rewrite Erev, trim_start_none by exact Hd.
  rewrite <- Erev. apply rev_involutive.
Qed.

(** X8: the tracking page trims what was typed: an accepted number with
    white space around it is found there as without it, while the form of
    the home page, which does not trim, answers [Not found] as soon as there
    is white space before or after. *)
Theorem track_page_trims :
  forall a b tn : jsstring,
    tracking_number_ok tn = true ->
    Forall (fun c => is_space c = true) a ->
    Forall (fun c => is_space c = true) b ->
    track_page (a ++ tn ++ b) = track_page tn /\
    snd (track_page tn) = u "82%" /\
    (a <> [] \/ b <> [] ->
     mini_track (a ++ tn ++ b)
     = renderTimeline {| steps := not_found_steps; tracking_progress := 0 |}).
Proof.
  intros a b tn H Ha Hb.
  assert (Etn : trim tn = tn).
  { pose proof (trim_padded [] [] tn H (Forall_nil _) (Forall_nil _)) as E.
    cbn [app] in E. rewrite app_nil_r in E. exact E. }
  split; [ | split].
  - unfold track_page.
    rewrite (trim_padded a b tn H Ha Hb), Etn. reflexivity.
  - unfold track_page. rewrite Etn.
    unfold fakeTracking. rewrite H. reflexivity.
  - intros Hpad. unfold mini_track, fakeTracking.
    assert (E : tracking_number_ok (a ++ tn ++ b) = false).
    { destruct (tracking_number_ok (a ++ tn ++ b)) eqn:E; [ | reflexivity].
      exfalso.
      destruct (tracking_number_ok_shape _ E) as (ds & Eds & Hds & _).
      destruct a as [| c a'].
      - destruct Hpad as [Hpad | Hpad]; [contradiction | ].
        cbn [app] in Eds.
        (* the last code unit is a space, and a digit *)
        destruct (rev b) as [| d r] eqn:Eb.
        { apply (f_equal (@List.length N)) in Eb.
          rewrite length_rev in Eb. destruct b; [contradiction | ].
          discriminate Eb. }
        assert (Hsp : is_space d = true).
        { apply (proj1 (Forall_forall _ _) Hb). apply in_rev.
          rewrite Eb. left. reflexivity. }
        assert (Hin : In d (83 :: 83 :: ds)).
        { rewrite <- Eds. apply in_or_app. right. apply in_rev.
          rewrite Eb. left. reflexivity. }
        destruct Hin as [<- | [<- | Hin]]; try discriminate Hsp.
        pose proof (proj1 (Forall_forall _ _) Hds d Hin) as Hdig.
        apply digit_not_space in Hdig. congruence.
      - cbn [app] in Eds. injection Eds as -> _.
        inversion Ha as [| ? ? Hc _]. discriminate Hc. }
    rewrite E. reflexivity.
Qed.

Lemma track_page_trims_witness :
  tracking_number_ok (u "SS123456") = true /\
  Forall (fun c => is_space c = true) [32] /\
  Forall (fun c => is_space c = true) [10] /\
  track_page ([32] ++ u "SS123456" ++ [10]) = track_page (u "SS123456").
Proof.
  assert (H1 : tracking_number_ok (u "SS123456") = true) by reflexivity.
  assert (H2 : Forall (fun c => is_space c = true) [32])
    by (repeat constructor).
  assert (H3 : Forall (fun c => is_space c = true) [10])
    by (repeat constructor).
  split; [exact H1 | ]. split; [exact H2 | ]. split; [exact H3 | ].
  exact (proj1 (track_page_trims [32] [10] (u "SS123456") H1 H2 H3)).
Defined.

(* ================================================================= *)
(** ** Auth tabs *)

Lemma existsb_str_eqb (token : jsstring) (cl : list jsstring) :
  existsb (str_eqb token) cl = true <-> In token cl.
Proof.
  rewrite existsb_exists. split.
  - intros (x & Hx & E). apply str_eqb_eq in E. subst x. exact Hx.
  - intros H. exists token. split; [exact H | apply str_eqb_refl].
Qed.

Lemma same_name_eq (a b : option jsstring) : same_name a b = true <-> a = b.
Proof.
  destruct a as [x |], b as [y |]; cbn; try (split; congruence).
  rewrite str_eqb_eq. split; congruence.
Qed.

(** After [toggle], the token is there exactly when [force] holds, and the
    other tokens are as before. *)
Lemma toggle_spec (token : jsstring) (force : bool) (cl : list jsstring) :
  (In token (toggle token force cl) <-> force = true) /\
  (forall other, other <> token ->
                 (In other (toggle token force cl) <-> In other cl)).
Proof.
  unfold toggle. destruct force.
  - destruct (existsb (str_eqb token) cl) eqn:E.
    + apply existsb_str_eqb in E. split; [tauto | tauto].
    + split.
      * split; [reflexivity | intros _].
        apply in_or_app. right. left. reflexivity.
      * intros other Ho. rewrite in_app_iff. cbn [In].
        split; [intros [H | [H | []]]; [exact H | congruence] | tauto].
  - split.
    + split; [ | discriminate].
      intros H. apply filter_In in H. destruct H as [_ H].
      rewrite str_eqb_refl in H. discriminate H.
    + intros other Ho. rewrite filter_In. split; [tauto | ].
      intros H. split; [exact H | ].
      destruct (str_eqb token other) eqn:E; [ | reflexivity].
      apply str_eqb_eq in E. congruence.
Qed.

Lemma toggle_idempotent (token : jsstring) (force : bool)
      (cl : list jsstring) :
  toggle token force (toggle token force cl) = toggle token force cl.
Proof.
  unfold toggle. destruct force.
  - destruct (existsb (str_eqb token) cl) eqn:E.
    + rewrite E. reflexivity.
    + rewrite existsb_app. cbn [existsb]. rewrite str_eqb_refl.
      rewrite orb_true_r. reflexivity.
  - induction cl as [| c cl IH].
    + reflexivity.
    + cbn [filter]. destruct (negb (str_eqb token c)) eqn:E.
      * cbn [filter]. rewrite E, IH. reflexivity.
      * exact IH.
Qed.

Lemma has_class_toggle_other (k token : jsstring) (force : bool)
      (e : element) :
  k <> token ->
  has_class k (set_classes e (toggle token force (classList e)))
  = has_class k e.
Proof.
  intros Hk. unfold has_class. cbn [classList set_classes].
  apply eq_true_iff_eq. rewrite !existsb_str_eqb.
  apply (proj2 (toggle_spec token force (classList e))). exact Hk.
Qed.

Lemma toggle_settled (token : jsstring) (force : bool) (cl : list jsstring) :
  (In token cl <-> force = true) -> toggle token force cl = cl.
Proof.
  intros H. unfold toggle. destruct force.
  - assert (E : existsb (str_eqb token) cl = true).
    { apply existsb_str_eqb. apply H. reflexivity. }
    rewrite E. reflexivity.
  - assert (Hn : ~ In token cl) by (intros Hin; apply H in Hin; discriminate).
    clear H. induction cl as [| c cl IH].
    + reflexivity.
    + cbn [filter]. destruct (str_eqb token c) eqn:E.
      * apply str_eqb_eq in E. exfalso. apply Hn. left. congruence.
      * cbn [negb]. f_equal. apply IH. intros Hin. apply Hn. right. exact Hin.
Qed.

Lemma switchTab_map (name : option jsstring) (doc : list element) :
  switchTab name doc = map (switch_one name) doc.
Proof. unfold switchTab. rewrite map_map. reflexivity. Qed.

Lemma iff_trans3 (A B C : Prop) : (A <-> B) -> (B <-> C) -> (A <-> C).
Proof. tauto. Qed.

Lemma same_name_neq (a b : option jsstring) :
  negb (same_name a b) = true <-> a <> b.
Proof.
  rewrite negb_true_iff. rewrite <- same_name_eq.
  destruct (same_name a b); split; congruence.
Qed.

Lemma switch_one_switched (name : option jsstring) (e : element) :
  switched name e (switch_one name e).
Proof.
  assert (Hah : u "active" <> u "hidden") by discriminate.
  assert (Hha : u "hidden" <> u "active") by discriminate.
  unfold switch_one, switched.
  destruct (has_class (u "tab") e) eqn:Et.
  - rewrite has_class_toggle_other by discriminate.
    destruct (toggle_spec (u "active") (same_name (data_tab e) name)
                          (classList e)) as [Ta To].
    destruct (has_class (u "tabpanel") e) eqn:Ep;
      cbn [classList data_tab data_panel set_classes].
    + destruct (toggle_spec (u "hidden")
                  (negb (same_name (data_panel e) name))
                  (toggle (u "active") (same_name (data_tab e) name)
                          (classList e))) as [Ha Ho].
      refine (conj eq_refl (conj eq_refl (conj _ (conj _ _)))).
      * intros token H1 H2.
        exact (iff_trans3 _ _ _ (Ho token H2) (To token H1)).
      * exact (iff_trans3 _ _ _ (Ho _ Hah)
                 (iff_trans3 _ _ _ Ta (same_name_eq _ _))).
      * exact (iff_trans3 _ _ _ Ha (same_name_neq _ _)).
    + refine (conj eq_refl (conj eq_refl (conj _ (conj _ _)))).
      * intros token H1 H2. exact (To token H1).
      * exact (iff_trans3 _ _ _ Ta (same_name_eq _ _)).
      * exact (To _ Hha).
  - destruct (has_class (u "tabpanel") e) eqn:Ep;
      cbn [classList data_tab data_panel set_classes].
    + destruct (toggle_spec (u "hidden")
                  (negb (same_name (data_panel e) name))
                  (classList e)) as [Ha Ho].
      refine (conj eq_refl (conj eq_refl (conj _ (conj _ _)))).
      * intros token H1 H2. exact (Ho token H2).
      * exact (Ho _ Hah).
      * exact (iff_trans3 _ _ _ Ha (same_name_neq _ _)).
    + refine (conj eq_refl (conj eq_refl (conj _ (conj _ _)))).
      * intros token H1 H2. reflexivity.
      * reflexivity.
      * reflexivity.
Qed.

(** X9: after [switchTab(name)], element by element in document order: an
    element of class [tab] has the class [active] exactly when its
    [data-tab] is [name]; an element of class [tabpanel] has the class
    [hidden] exactly when its [data-panel] is not [name]; every other class
    of every element, and the attributes, are as before. *)
Theorem switchTab_postcondition :
  forall (name : option jsstring) (doc : list element),
    Forall2 (switched name) doc (switchTab name doc).
Proof.
  intros name doc. rewrite switchTab_map.
  induction doc as [| e doc IH].
  - constructor.
  - cbn [map]. constructor; [apply switch_one_switched | exact IH].
Qed.

Lemma has_class_switch_one (k : jsstring) (name : option jsstring)
      (e : element) :
  k <> u "active" -> k <> u "hidden" ->
  has_class k (switch_one name e) = has_class k e.
Proof.
  intros Ha Hh. unfold has_class.
  apply eq_true_iff_eq. rewrite !existsb_str_eqb.
  destruct (switch_one_switched name e) as (_ & _ & Ho & _).
  apply Ho; assumption.
Qed.

Lemma set_classes_same (e : element) : set_classes e (classList e) = e.
Proof. destruct e. reflexivity. Qed.

Lemma switch_one_idempotent (name : option jsstring) (e : element) :
  switch_one name (switch_one name e) = switch_one name e.
Proof.
  destruct (switch_one_switched name e) as (Et & Ep & Ho & Ha & Hh).
  pose proof (has_class_switch_one (u "tab") name e
                ltac:(discriminate) ltac:(discriminate)) as Htab.
  pose proof (has_class_switch_one (u "tabpanel") name e
                ltac:(discriminate) ltac:(discriminate)) as Hpan.
  set (e' := switch_one name e) in *.
  assert (Hact : toggle (u "active") (same_name (data_tab e') name)
                        (classList e') = classList e'
                 \/ has_class (u "tab") e' = false).
  { destruct (has_class (u "tab") e) eqn:E; [left | right; exact Htab].
    apply toggle_settled. rewrite Ha, Et. symmetry. apply same_name_eq. }
  assert (Hhid : toggle (u "hidden") (negb (same_name (data_panel e') name))
                        (classList e') = classList e'
                 \/ has_class (u "tabpanel") e' = false).
  { destruct (has_class (u "tabpanel") e) eqn:E; [left | right; exact Hpan].
    apply toggle_settled. rewrite Hh, Ep. symmetry. apply same_name_neq. }
  clearbody e'. clear - Hact Hhid.
  unfold switch_one.
  assert (E1 : (if has_class (u "tab") e'
                then set_classes e'
                       (toggle (u "active") (same_name (data_tab e') name)
                               (classList e'))
                else e') = e').
  { destruct Hact as [-> | ->]; [ | reflexivity].
    rewrite set_classes_same. destruct (has_class (u "tab") e'); reflexivity. }
  rewrite E1.
  destruct Hhid as [-> | ->]; [ | reflexivity].
  rewrite set_classes_same. destruct (has_class (u "tabpanel") e'); reflexivity.
Qed.

Lemma switchTab_idempotent (name : option jsstring) (doc : list element) :
  switchTab name (switchTab name doc) = switchTab name doc.
Proof.
  rewrite !switchTab_map, map_map.
  apply map_ext. intros e. apply switch_one_idempotent.
Qed.

(** X10: a click on a tab makes it the active one: afterwards the clicked
    element has the class [active], no tab with another [data-tab] has it,
    and a second click on the same tab changes nothing. *)
Theorem click_tab_activates :
  forall (i : nat) (doc : list element) (btn : element),
    nth_error doc i = Some btn ->
    has_class (u "tab") btn = true ->
    (exists btn', nth_error (click_tab i doc) i = Some btn' /\
                  In (u "active") (classList btn')) /\
    (forall j e,
        nth_error doc j = Some e -> has_class (u "tab") e = true ->
        data_tab e <> data_tab btn ->
        exists e', nth_error (click_tab i doc) j = Some e' /\
                   ~ In (u "active") (classList e')) /\
    click_tab i (click_tab i doc) = click_tab i doc.
Proof.
  intros i doc btn Hi Ht.
  assert (Eclick : click_tab i doc = map (switch_one (data_tab btn)) doc).
  { unfold click_tab. rewrite Hi, Ht. apply switchTab_map. }
  split; [ | split].
  - exists (switch_one (data_tab btn) btn). split.
    + rewrite Eclick. rewrite nth_error_map, Hi. reflexivity.
    + destruct (switch_one_switched (data_tab btn) btn) as (_ & _ & _ & Ha & _).
      rewrite Ht in Ha. apply Ha. reflexivity.
  - intros j e Hj Hte Hne.
    exists (switch_one (data_tab btn) e). split.
    + rewrite Eclick. rewrite nth_error_map, Hj. reflexivity.
    + destruct (switch_one_switched (data_tab btn) e) as (_ & _ & _ & Ha & _).
      rewrite Hte in Ha. intros Hin. apply Ha in Hin. contradiction.
  - unfold click_tab at 1. rewrite Eclick at 1.
    rewrite nth_error_map, Hi. cbn [option_map].
    rewrite (has_class_switch_one (u "tab") (data_tab btn) btn) by discriminate.
    rewrite Ht.
    destruct (switch_one_switched (data_tab btn) btn) as (Et & _).
    rewrite Et, Eclick, <- switchTab_map. apply switchTab_idempotent.
Qed.

Lemma click_tab_activates_witness :
  let login := {| classList := [u "tab"; u "active"];
                  data_tab := Some (u "login"); data_panel := None |} in
  let signup := {| classList := [u "tab"];
                   data_tab := Some (u "signup"); data_panel := None |} in
  nth_error [login; signup] 1 = Some signup /\
  has_class (u "tab") signup = true /\
  click_tab 1 (click_tab 1 [login; signup]) = click_tab 1 [login; signup].
Proof.
  intros login signup.
  assert (H1 : nth_error [login; signup] 1 = Some signup) by reflexivity.
  assert (H2 : has_class (u "tab") signup = true) by reflexivity.
  split; [exact H1 | ]. split; [exact H2 | ].
  exact (proj2 (proj2 (click_tab_activates 1 [login; signup] signup H1 H2))).
Defined.
(* ================================================================= *)
(** ** More on the cart operations *)

(** X11: on a stored cart that keeps the invariant, where the line of [id]
    (if there is one) has a quantity below [2^53], [changeQty(id, -1)]
    undoes [addToCart(id)]: after the two calls the stored cart is the one
    before, whether or not it had a line for [id]. *)
Theorem add_then_decrement_restores :
  forall (st : storage) (c : cart) (key : jsstring),
    holds st c -> cart_ok c ->
    (forall l, In l c -> id l = key -> (qty l < 2 ^ 53)%Z) ->
    holds (run [Add key; Change key (-1)] st) c.
Proof.
  intros st c key H Hok Hlt. pose proof (holds_exact st c H) as He.
  cbn [run perform].
  rewrite (addToCart_holds st c key H). cbn [snd].
  pose proof (add_exact key c He) as Ha.
  destruct (in_dec (list_eq_dec N.eq_dec) key (map id c)) as [Hin | Hout].
  - destruct (cart_ok_split key c Hok Hin)
      as (l1 & q & l2 & -> & Hn1 & Hn2 & Hq & Hp1 & Hp2).
    assert (Hq53 : (q < 2 ^ 53)%Z).
    { apply (Hlt {| id := key; qty := q |}); [ | reflexivity].
      apply in_or_app. right. left. reflexivity. }
    change (2 ^ 53)%Z with 9007199254740992%Z in Hq53.
    rewrite (find_first key q l1 l2 Hn1) in Ha |- *.
    rewrite (incremented_first key q l1 l2 Hn1) in Ha |- *.
    rewrite (sum64_exact q 1) in Ha |- *
      by (change (2 ^ 53)%Z with 9007199254740992%Z; lia).
    assert (Hr : Forall (fun l => id l = key -> in_range (qty l) (-1))
                        (l1 ++ {| id := key; qty := q + 1 |} :: l2)).
    { apply range_split; try assumption. apply in_range_exact.
      - vm_compute. discriminate.
      - change (2 ^ 53)%Z with 9007199254740992%Z. lia. }
    rewrite (changeQty_state _ _ key (-1) (holds_after_write _ Ha) Hr).
    rewrite (change_split key (q + 1) (-1) l1 l2 Hn1 Hn2).
    rewrite (filter_positive_all l1 Hp1), (filter_positive_all l2 Hp2).
    rewrite (sum64_exact (q + 1) (-1))
      by (change (2 ^ 53)%Z with 9007199254740992%Z; lia).
    replace (q + 1 + -1)%Z with q by lia.
    apply Z.ltb_lt in Hq. rewrite Hq. apply holds_after_write. exact He.
  - rewrite (find_absent key c Hout) in Ha |- *.
    assert (Hr : Forall (fun l => id l = key -> in_range (qty l) (-1))
                        (c ++ {| id := key; qty := 1 |} :: [])).
    { apply range_split; [exact Hout | intros [] | ].
      apply in_range_exact; vm_compute; discriminate. }
    rewrite (changeQty_state _ _ key (-1) (holds_after_write _ Ha) Hr).
    rewrite (change_split key 1 (-1) c [] Hout (fun F => F)).
    change (sum64 1 (-1)) with 0%Z. cbn [filter Z.ltb Z.compare app].
    rewrite (filter_positive_all c (proj2 Hok)), app_nil_r.
    apply holds_after_write. exact He.
Qed.

Lemma add_then_decrement_restores_witness :
  let c := [{| id := u "tap"; qty := 2 |}; {| id := u "bx-s"; qty := 1 |}] in
  holds (Some (JSON_stringify c)) c /\ cart_ok c /\
  holds (run [Add (u "tap"); Change (u "tap") (-1)] (Some (JSON_stringify c)))
        c.
Proof.
  intros c.
  assert (H1 : holds (Some (JSON_stringify c)) c) by (vm_compute; reflexivity).
  assert (H2 : cart_ok c).
  { split; repeat constructor.
    - cbn. intros [E | []]. discriminate E.
    - intros []. }
  assert (H3 : forall l, In l c -> id l = u "tap" -> (qty l < 2 ^ 53)%Z).
  { intros l [<- | [<- | []]] _; reflexivity. }
  split; [exact H1 | ]. split; [exact H2 | ].
  exact (add_then_decrement_restores (Some (JSON_stringify c)) c (u "tap")
           H1 H2 H3).
Defined.

(** X12: for a product that is already in a cart that keeps the invariant,
    the [Add to cart] button and the [+] button of its row write the same
    text to the storage. *)
Theorem add_is_increment_when_present :
  forall (st : storage) (c : cart) (key : jsstring),
    holds st c -> cart_ok c -> In key (map id c) ->
    snd (addToCart key st) = snd (changeQty key 1 st).
Proof.
  intros st c key H Hok Hin. pose proof (holds_exact st c H) as He.
  assert (Hr : Forall (fun l => id l = key -> in_range (qty l) 1) c).
  { apply range_small; [exact He | exact (proj2 Hok) | ].
    vm_compute. split; discriminate. }
  rewrite (addToCart_holds st c key H), (changeQty_state st c key 1 H Hr).
  cbn [snd].
  destruct (cart_ok_split key c Hok Hin)
    as (l1 & q & l2 & -> & Hn1 & Hn2 & Hq & Hp1 & Hp2).
  rewrite (find_first key q l1 l2 Hn1).
  rewrite (incremented_first key q l1 l2 Hn1).
  rewrite (change_split key q 1 l1 l2 Hn1 Hn2).
  rewrite (filter_positive_all l1 Hp1), (filter_positive_all l2 Hp2).
  assert (Hq1 : (0 <? sum64 q 1)%Z = true).
  { apply Z.ltb_lt. unfold sum64.
    change (2 ^ 53)%Z with 9007199254740992%Z. lia. }
  rewrite Hq1. reflexivity.
Qed.

Lemma add_is_increment_when_present_witness :
  let st := Some (JSON_stringify [{| id := u "tap"; qty := 2 |}]) in
  holds st [{| id := u "tap"; qty := 2 |}] /\
  cart_ok [{| id := u "tap"; qty := 2 |}] /\
  In (u "tap") (map id [{| id := u "tap"; qty := 2 |}]) /\
  snd (addToCart (u "tap") st) = snd (changeQty (u "tap") 1 st).
Proof.
  intros st.
  assert (H1 : holds st [{| id := u "tap"; qty := 2 |}]) by reflexivity.
  assert (H2 : cart_ok [{| id := u "tap"; qty := 2 |}]).
  { split; repeat constructor. intros []. }
  assert (H3 : In (u "tap") (map id [{| id := u "tap"; qty := 2 |}]))
    by (left; reflexivity).
  split; [exact H1 | ]. split; [exact H2 | ]. split; [exact H3 | ].
  exact (add_is_increment_when_present st _ (u "tap") H1 H2 H3).
Defined.

(** X13: two [changeQty] calls for the same id add up as long as the line
    survives the first and the deltas and sums are of magnitude at most
    [2^53]: with a quantity [q] and [q + d1 > 0] they leave what one call
    with [d1 + d2] leaves; when [q + d1 <= 0] the first call removes the
    line and the second changes nothing. *)
Theorem changeQty_twice :
  forall (st : storage) (c : cart) (key : jsstring) (d1 d2 : Z),
    holds st c -> cart_ok c ->
    forall l1 q l2,
      c = l1 ++ {| id := key; qty := q |} :: l2 ->
      (Z.abs d1 <= 2 ^ 53)%Z -> (q + d1 <= 2 ^ 53)%Z ->
      ((0 < q + d1)%Z ->
       (Z.abs d2 <= 2 ^ 53)%Z -> (Z.abs (d1 + d2) <= 2 ^ 53)%Z ->
       (Z.abs (q + d1 + d2) <= 2 ^ 53)%Z ->
       run [Change key d1; Change key d2] st = run [Change key (d1 + d2)] st)
      /\
      ((q + d1 <= 0)%Z ->
       run [Change key d1; Change key d2] st = run [Change key d1] st).
Proof.
  intros st c key d1 d2 H Hok l1 q l2 Ec Hd1 Hs1.
  pose proof (holds_exact st c H) as He.
  destruct Hok as [Hnd Hpos]. subst c.
  rewrite map_app in Hnd. cbn [map id] in Hnd.
  pose proof (NoDup_remove_2 _ _ _ Hnd) as Hn.
  assert (Hn1 : ~ In key (map id l1))
    by (intros F; apply Hn; apply in_or_app; left; exact F).
  assert (Hn2 : ~ In key (map id l2))
    by (intros F; apply Hn; apply in_or_app; right; exact F).
  apply Forall_app in Hpos. destruct Hpos as [Hp1 Hp2].
  inversion Hp2 as [| ? ? Hq Hp2']; subst. cbn [qty] in Hq.
  destruct (exact_split q key l1 l2 He) as (He1 & Heq & He2).
  change (2 ^ 53)%Z with 9007199254740992%Z in *.
  assert (R1 : Forall (fun l => id l = key -> in_range (qty l) d1)
                      (l1 ++ {| id := key; qty := q |} :: l2)).
  { apply range_split; try assumption. apply in_range_exact;
      change (2 ^ 53)%Z with 9007199254740992%Z; lia. }
  assert (S1 : sum64 q d1 = (q + d1)%Z)
    by (apply sum64_exact; change (2 ^ 53)%Z with 9007199254740992%Z; lia).
  cbn [run perform].
  rewrite (changeQty_state st _ key d1 H R1).
  rewrite (change_split key q d1 l1 l2 Hn1 Hn2), S1.
  rewrite (filter_positive_all l1 Hp1), (filter_positive_all l2 Hp2').
  split.
  - intros Hd Hd2 Hd12 Hs2.
    assert (E : (0 <? q + d1)%Z = true) by (apply Z.ltb_lt; lia).
    rewrite E. cbn [app].
    assert (He' : exact_cart (l1 ++ {| id := key; qty := q + d1 |} :: l2)).
    { apply Forall_app. split; [exact He1 | ].
      constructor; [ | exact He2]. cbn [qty].
      change (2 ^ 53)%Z with 9007199254740992%Z. lia. }
    assert (R2 : Forall (fun l => id l = key -> in_range (qty l) d2)
                        (l1 ++ {| id := key; qty := q + d1 |} :: l2)).
    { apply range_split; try assumption. apply in_range_exact;
        change (2 ^ 53)%Z with 9007199254740992%Z; lia. }
    assert (R3 : Forall (fun l => id l = key -> in_range (qty l) (d1 + d2))
                        (l1 ++ {| id := key; qty := q |} :: l2)).
    { apply range_split; try assumption. apply in_range_exact;
        change (2 ^ 53)%Z with 9007199254740992%Z; lia. }
    rewrite (changeQty_state _ _ key d2 (holds_after_write _ He') R2).
    rewrite (changeQty_state st _ key (d1 + d2) H R3).
    rewrite (change_split key (q + d1) d2 l1 l2 Hn1 Hn2).
    rewrite (change_split key q (d1 + d2) l1 l2 Hn1 Hn2).
    rewrite (sum64_exact (q + d1) d2)
      by (change (2 ^ 53)%Z with 9007199254740992%Z; lia).
    rewrite (sum64_exact q (d1 + d2))
      by (change (2 ^ 53)%Z with 9007199254740992%Z; lia).
    rewrite Z.add_assoc. reflexivity.
  - intros Hd.
    assert (E : (0 <? q + d1)%Z = false) by (apply Z.ltb_ge; lia).
    rewrite E. cbn [app].
    assert (Hn12 : ~ In key (map id (l1 ++ l2))).
    { rewrite map_app. intros F. apply in_app_or in F. tauto. }
    assert (He' : exact_cart (l1 ++ l2))
      by (apply Forall_app; split; assumption).
    rewrite (changeQty_state _ _ key d2 (holds_after_write _ He')
               (range_absent key d2 _ Hn12)).
    rewrite (map_adjusted_other key d2 (l1 ++ l2) Hn12).
    rewrite filter_positive_all; [reflexivity | ].
    apply Forall_app. split; assumption.
Qed.

Lemma changeQty_twice_witness :
  let st := Some (JSON_stringify [{| id := u "tap"; qty := 2 |}]) in
  holds st [{| id := u "tap"; qty := 2 |}] /\
  cart_ok [{| id := u "tap"; qty := 2 |}] /\
  (0 < 2 + 3)%Z /\
  run [Change (u "tap") 3; Change (u "tap") (-4)] st
  = run [Change (u "tap") (3 + -4)] st.
Proof.
  intros st.
  assert (H1 : holds st [{| id := u "tap"; qty := 2 |}]) by reflexivity.
  assert (H2 : cart_ok [{| id := u "tap"; qty := 2 |}]).
  { split; repeat constructor. intros []. }
  assert (H3 : (0 < 2 + 3)%Z) by reflexivity.
  split; [exact H1 | ]. split; [exact H2 | ]. split; [exact H3 | ].
  apply (proj1 (changeQty_twice st _ (u "tap") 3 (-4) H1 H2 [] 2 []
                  eq_refl ltac:(vm_compute; discriminate)
                  ltac:(vm_compute; discriminate)));
    [exact H3 | vm_compute; discriminate ..].
Defined.

Lemma quantity_of_app (key : jsstring) (a b : cart) :
  quantity_of key (a ++ b) = (quantity_of key a + quantity_of key b)%Z.
Proof.
  unfold quantity_of. rewrite filter_app, map_app.
  induction (map qty (filter (fun it => str_eqb (id it) key) a))
    as [| x l IH]; cbn [app fold_right]; lia.
Qed.

Lemma quantity_of_incremented (k key : jsstring) (c : cart) :
  (forall x, find (fun x => str_eqb (id x) key) c = Some x ->
             (qty x < 2 ^ 53)%Z) ->
  In key (map id c) ->
  quantity_of k (incremented key c)
  = (quantity_of k c + if str_eqb key k then 1 else 0)%Z.
Proof.
  induction c as [| x c IH]; intros Hlt Hin.
  - destruct Hin.
  - cbn [incremented]. cbn [find] in Hlt.
    destruct (str_eqb (id x) key) eqn:E.
    + apply str_eqb_eq in E. unfold quantity_of. cbn [filter id].
      rewrite (sum64_exact (qty x) 1).
      * rewrite E. destruct (str_eqb key k); cbn [map fold_right qty]; lia.
      * pose proof (Hlt x eq_refl) as Hx.
        change (2 ^ 53)%Z with 9007199254740992%Z in *. lia.
    + assert (Hin' : In key (map id c)).
      { destruct Hin as [F | F]; [ | exact F].
        apply str_eqb_neq in E. contradiction. }
      specialize (IH Hlt Hin'). unfold quantity_of in *. cbn [filter].
      destruct (str_eqb (id x) k); cbn [map fold_right]; lia.
Qed.

(** X14: [addToCart(id)] adds exactly one unit of the product [id] and
    leaves the quantity of every other product as it was, on any stored
    cart whose first line for [id] (if any) has a quantity below [2^53],
    lines with a repeated id included. *)
Theorem addToCart_counts_one :
  forall (st : storage) (c : cart) (key : jsstring),
    holds st c ->
    (forall x, find (fun x => str_eqb (id x) key) c = Some x ->
               (qty x < 2 ^ 53)%Z) ->
    exists c',
      holds (snd (addToCart key st)) c' /\
      quantity_of key c' = (quantity_of key c + 1)%Z /\
      forall k, k <> key -> quantity_of k c' = quantity_of k c.
Proof.
  intros st c key H Hlt. pose proof (holds_exact st c H) as He.
  rewrite (addToCart_holds st c key H). cbn [snd].
  eexists. split; [apply holds_after_write, add_exact; exact He | ].
  destruct (find (fun x => str_eqb (id x) key) c) as [x |] eqn:E.
  - assert (Hin : In key (map id c)).
    { destruct (find_split key c x E) as (l1 & l2 & -> & _).
      rewrite map_app. apply in_or_app. right. left. reflexivity. }
    rewrite <- E in Hlt. split.
    + rewrite (quantity_of_incremented key key c Hlt Hin).
      rewrite str_eqb_refl. reflexivity.
    + intros k Hk. rewrite (quantity_of_incremented k key c Hlt Hin).
      assert (Ek : str_eqb key k = false)
        by (apply str_eqb_neq; congruence).
      rewrite Ek. lia.
  - split.
    + rewrite quantity_of_app. unfold quantity_of at 2. cbn [filter id].
      rewrite str_eqb_refl. cbn. lia.
    + intros k Hk. rewrite quantity_of_app. unfold quantity_of at 2.
      cbn [filter id].
      assert (Ek : str_eqb key k = false)
        by (apply str_eqb_neq; congruence).
      rewrite Ek. cbn. lia.
Qed.

Lemma addToCart_counts_one_witness :
  let c := [{| id := u "tap"; qty := 2 |}; {| id := u "tap"; qty := 5 |}] in
  holds (Some (JSON_stringify c)) c /\
  exists c',
    holds (snd (addToCart (u "tap") (Some (JSON_stringify c)))) c' /\
    quantity_of (u "tap") c' = (quantity_of (u "tap") c + 1)%Z /\
    forall k, k <> u "tap" -> quantity_of k c' = quantity_of k c.
Proof.
  intros c.
  assert (H : holds (Some (JSON_stringify c)) c) by reflexivity.
  assert (Hlt : forall x,
             find (fun x => str_eqb (id x) (u "tap")) c = Some x ->
             (qty x < 2 ^ 53)%Z).
  { intros x E. vm_compute in E. injection E as <-. reflexivity. }
  split; [exact H | ].
  exact (addToCart_counts_one (Some (JSON_stringify c)) c (u "tap") H Hlt).
Defined.

Lemma subseq_refl {A} (l : list A) : subseq l l.
Proof. induction l; constructor; assumption. Qed.

Lemma subseq_filter_map_id (f : line -> bool) (c : cart) :
  subseq (map id (filter f c)) (map id c).
Proof.
  induction c as [| x c IH].
  - constructor.
  - cbn [filter map]. destruct (f x); cbn [map]; constructor; exact IH.
Qed.

(** X15: neither operation reorders the cart.  After [changeQty], for a
    delta of magnitude at most [2^53] that leaves the lines of [id] within
    that magnitude, the ids of the lines are those before with some left
    out, in the same order, so no line is added; after [addToCart] they are
    those before, followed by the new id when it had no line. *)
Theorem cart_order_kept :
  forall (st : storage) (c : cart) (key : jsstring) (d : Z),
    holds st c ->
    ((Z.abs d <= 2 ^ 53)%Z ->
     Forall (fun l => id l = key -> (Z.abs (qty l + d) <= 2 ^ 53)%Z) c ->
     fst (changeQty key d st) <> Unmodelled /\
     exists c', holds (snd (changeQty key d st)) c' /\
                subseq (map id c') (map id c)) /\
    (fst (addToCart key st) = Normal tt /\
     exists c', holds (snd (addToCart key st)) c' /\
                map id c'
                = map id c ++ (if in_dec (list_eq_dec N.eq_dec) key (map id c)
                               then [] else [key])).
Proof.
  intros st c key d H. pose proof (holds_exact st c H) as He. split.
  - intros Hd Hs.
    assert (Hr : Forall (fun l => id l = key -> in_range (qty l) d) c).
    { apply Forall_forall. intros x Hx E.
      apply in_range_exact; [exact Hd | ].
      exact (proj1 (Forall_forall _ _) Hs x Hx E). }
    split; [exact (changeQty_followed st c key d H Hr) | ].
    rewrite (changeQty_state st c key d H Hr).
    eexists. split; [apply holds_after_write, adjusted_exact; assumption | ].
    rewrite <- (map_id_adjusted key d c).
    apply subseq_filter_map_id.
  - rewrite (addToCart_holds st c key H). cbn [fst snd].
    split; [reflexivity | ].
    eexists. split; [apply holds_after_write, add_exact; exact He | ].
    destruct (in_dec (list_eq_dec N.eq_dec) key (map id c)) as [Hin | Hout].
    + destruct (find (fun x => str_eqb (id x) key) c) eqn:E.
      * rewrite map_id_incremented, app_nil_r. reflexivity.
      * exfalso. exact (find_present key c Hin E).
    + rewrite (find_absent key c Hout), map_app. reflexivity.
Qed.

Lemma cart_order_kept_witness :
  let c := [{| id := u "tap"; qty := 2 |}; {| id := u "bx-s"; qty := 1 |};
            {| id := u "lbl"; qty := 4 |}] in
  holds (Some (JSON_stringify c)) c /\
  exists c',
    holds (snd (changeQty (u "bx-s") (-1) (Some (JSON_stringify c)))) c' /\
    subseq (map id c') [u "tap"; u "bx-s"; u "lbl"].
Proof.
  intros c.
  assert (H : holds (Some (JSON_stringify c)) c) by (vm_compute; reflexivity).
  split; [exact H | ].
  refine (proj2 (proj1 (cart_order_kept (Some (JSON_stringify c)) c
                          (u "bx-s") (-1) H) _ _)).
  - vm_compute. discriminate.
  - repeat constructor; intros _; vm_compute; discriminate.
Defined.

(** X20: at a stored quantity of [2^53] the sum [qty + 1] is [2^53] again
    ([2^53 + 1] is not a binary64 number): [addToCart(id)] completes and
    leaves the stored cart as it is, and so does [changeQty(id, +1)] on a
    cart that keeps the invariant. *)
Theorem addToCart_at_the_limit :
  forall (st : storage) (l1 l2 : cart) (key : jsstring),
    let c := l1 ++ {| id := key; qty := (2 ^ 53)%Z |} :: l2 in
    holds st c -> ~ In key (map id l1) ->
    fst (addToCart key st) = Normal tt /\
    holds (snd (addToCart key st)) c /\
    (cart_ok c ->
     fst (changeQty key 1 st) <> Unmodelled /\
     holds (snd (changeQty key 1 st)) c).
Proof.
  intros st l1 l2 key c H Hn1. pose proof (holds_exact st c H) as He.
  rewrite (addToCart_holds st c key H). cbn [fst snd].
  split; [reflexivity | ]. split.
  - subst c. rewrite (find_first key _ l1 l2 Hn1).
    rewrite (incremented_first key _ l1 l2 Hn1).
    change (sum64 (2 ^ 53) 1) with (2 ^ 53)%Z.
    apply holds_after_write. exact He.
  - intros Hok.
    assert (Hr : Forall (fun l => id l = key -> in_range (qty l) 1) c).
    { apply range_small; [exact He | exact (proj2 Hok) | ].
      vm_compute. split; discriminate. }
    split; [exact (changeQty_followed st c key 1 H Hr) | ].
    rewrite (changeQty_state st c key 1 H Hr).
    assert (Hin : In key (map id c)).
    { subst c. rewrite map_app. apply in_or_app. right. left. reflexivity. }
    destruct Hok as [Hnd Hpos]. subst c.
    rewrite map_app in Hnd. cbn [map id] in Hnd.
    pose proof (NoDup_remove_2 _ _ _ Hnd) as Hn.
    assert (Hn2 : ~ In key (map id l2))
      by (intros F; apply Hn; apply in_or_app; right; exact F).
    apply Forall_app in Hpos. destruct Hpos as [Hp1 Hp2].
    inversion Hp2 as [| ? ? Hq Hp2']; subst.
    rewrite (change_split key _ 1 l1 l2 Hn1 Hn2).
    rewrite (filter_positive_all l1 Hp1), (filter_positive_all l2 Hp2').
    change (sum64 (2 ^ 53) 1) with (2 ^ 53)%Z.
    change (0 <? 2 ^ 53)%Z with true. cbn [app].
    apply holds_after_write. exact He.
Qed.

Lemma addToCart_at_the_limit_witness :
  let c := [{| id := u "tap"; qty := 2 |};
            {| id := u "bx-s"; qty := (2 ^ 53)%Z |}] in
  holds (Some (JSON_stringify c)) c /\
  holds (snd (addToCart (u "bx-s") (Some (JSON_stringify c)))) c.
Proof.
  intros c.
  assert (H : holds (Some (JSON_stringify c)) c) by (vm_compute; reflexivity).
  split; [exact H | ].
  refine (proj1 (proj2 (addToCart_at_the_limit (Some (JSON_stringify c))
                          [{| id := u "tap"; qty := 2 |}] [] (u "bx-s")
                          H _))).
  cbn. intros [E | []]. discriminate E.
Defined.

(* ================================================================= *)
(** ** Rendering the cart *)

Section Rows.
Variable catalog : list product.

(** With every product known, [map] builds one row per line, and the sum
    of [reduce] is the sum of the line totals of the rows. *)
Lemma render_rows_known :
  forall c : cart,
    Forall (fun it => find_product catalog (id it) <> None) c ->
    exists rows,
      render_rows catalog c = Normal rows /\
      map row_qty rows = map qty c /\
      Forall (fun r => row_total r = fmul (row_each r) (of_Z (row_qty r)))
             rows /\
      forall s, cart_sum catalog s c
                = Normal (fold_left fadd (map row_total rows) s).
Proof.
  induction c as [| it c IH]; intros H.
  - exists []. repeat split. constructor.
  - inversion H as [| ? ? Hit Hc]; subst.
    destruct (IH Hc) as (rows & Er & Eq & Ht & Es).
    cbn [render_rows cart_sum]. unfold render_row.
    destruct (find_product catalog (id it)) as [p |]; [ | congruence].
    rewrite Er. eexists. split; [reflexivity | ].
    cbn [map row_qty row_total fold_left]. split; [ | split].
    + rewrite Eq. reflexivity.
    + constructor; [reflexivity | exact Ht].
    + intros s. apply Es.
Qed.

Lemma known_in_catalog (p : product) :
  In p catalog -> find_product catalog (pid p) <> None.
Proof.
  intros Hin E. unfold find_product in E.
  pose proof (find_none _ _ E p Hin) as Hf. cbn in Hf.
  rewrite str_eqb_refl in Hf. discriminate Hf.
Qed.

End Rows.



(* ================================================================= *)
(** ** A stored text that does not parse *)

Lemma getCart_throws (text : jsstring) :
  text <> [] -> JSON_parse text = Throw SyntaxError ->
  getCart (Some text) = (Throw SyntaxError, Some text).
Proof.
  intros Hne H. destruct text as [| c r]; [contradiction | ].
  unfold getCart, bind, getItem, lift. cbn [or_empty_array].
  rewrite H. reflexivity.
Qed.

(** X17: once the slot holds a text that is not empty and does not parse,
    every cart function throws the SyntaxError before it writes: [addToCart],
    [changeQty], [renderCart] and the checkout handler all leave the text in
    place, so no action on the page repairs it. *)
Theorem corrupted_cart_stays :
  forall (text key : jsstring) (d : Z) (acts : list action),
    text <> [] -> JSON_parse text = Throw SyntaxError ->
    addToCart key (Some text) = (Throw SyntaxError, Some text) /\
    changeQty key d (Some text) = (Throw SyntaxError, Some text) /\
    renderCart (Some text) = (Throw SyntaxError, Some text) /\
    checkout (Some text) = (Throw SyntaxError, Some text) /\
    run acts (Some text) = Some text.
Proof.
  intros text key d acts Hne H.
  pose proof (getCart_throws text Hne H) as Hg.
  assert (Ha : forall k, addToCart k (Some text)
                         = (Throw SyntaxError, Some text)).
  { intros k. unfold addToCart, bind at 1. rewrite Hg. reflexivity. }
  assert (Hc : forall k d', changeQty k d' (Some text)
                            = (Throw SyntaxError, Some text)).
  { intros k d'. unfold changeQty, bind at 1. rewrite Hg. reflexivity. }
  split; [apply Ha | ]. split; [apply Hc | ]. split; [ | split].
  - unfold renderCart, bind at 1. rewrite Hg. reflexivity.
  - unfold checkout, bind at 1. rewrite Hg. reflexivity.
  - induction acts as [| a acts IH]; [reflexivity | ].
    cbn [run]. destruct a as [k | k d']; cbn [perform].
    + rewrite Ha. exact IH.
    + rewrite Hc. exact IH.
Qed.

Lemma corrupted_cart_stays_witness :
  u "[{" <> [] /\ JSON_parse (u "[{") = Throw SyntaxError /\
  run [Add (u "tap"); Change (u "tap") 1] (Some (u "[{")) = Some (u "[{").
Proof.
  assert (H1 : u "[{" <> []) by discriminate.
  assert (H2 : JSON_parse (u "[{") = Throw SyntaxError)
    by (vm_compute; reflexivity).
  split; [exact H1 | ]. split; [exact H2 | ].
  exact (proj2 (proj2 (proj2 (proj2
           (corrupted_cart_stays (u "[{") [] 0
              [Add (u "tap"); Change (u "tap") 1] H1 H2))))).
Defined.

(* ================================================================= *)
(** ** Sessions on the supplies page *)

Lemma rows_of_after_write (c : cart) (old : list jsstring) :
  exact_cart c -> rows_of (Some (JSON_stringify c)) old = map id c.
Proof.
  intros He. unfold rows_of.
  pose proof (holds_after_write c He) as H. unfold holds in H.
  rewrite H. reflexivity.
Qed.

Lemma renderCart_known (st : storage) (c : cart) :
  holds st c ->
  Forall (fun it => find_product PRODUCTS (id it) <> None) c ->
  exists view, renderCart st = (Normal view, st) /\
               view_total view = computeTotal_spec PRODUCTS c.
Proof.
  intros H Hk. unfold renderCart. read_cart st c H.
  destruct c as [| it c].
  - cbn [List.length Nat.eqb]. eexists. split; reflexivity.
  - cbn [List.length Nat.eqb].
    destruct (render_rows_known PRODUCTS (it :: c) Hk)
      as (rows & Er & _ & _ & Es).
    unfold bind, lift. rewrite Er.
    rewrite (cart_sum_known PRODUCTS (it :: c) (of_Z 0) Hk). unfold ret.
    eexists. split; reflexivity.
Qed.

Lemma changeQty_known (st : storage) (c : cart) (key : jsstring) (d : Z) :
  holds st c ->
  Forall (fun l => id l = key -> in_range (qty l) d) c ->
  Forall (fun it => find_product PRODUCTS (id it) <> None) c ->
  let c' := filter (fun it => (0 <? qty it)%Z) (map (adjusted key d) c) in
  changeQty key d st = (Normal tt, Some (JSON_stringify c')) /\
  exact_cart c' /\
  Forall (fun it => find_product PRODUCTS (id it) <> None) c'.
Proof.
  intros H Hr Hk c'. pose proof (holds_exact st c H) as He.
  assert (He' : exact_cart c') by (apply adjusted_exact; assumption).
  assert (Hk' : Forall (fun it => find_product PRODUCTS (id it) <> None) c').
  { apply Forall_forall. intros x Hx. subst c'.
    apply filter_In in Hx. destruct Hx as [Hx _].
    apply in_map_iff in Hx. destruct Hx as (y & Ey & Hy).
    pose proof (proj1 (Forall_forall _ _) Hk y Hy) as Hy'.
    subst x. unfold adjusted. destruct (str_eqb (id y) key); exact Hy'. }
  split; [ | split; [exact He' | exact Hk']].
  unfold changeQty. read_cart st c H.
  unfold bind at 1. unfold lift at 1.
  rewrite (map_adjust_adjusted key d c He Hr). fold c'.
  unfold bind at 1. rewrite (setCart_exact c' _ He').
  destruct (renderCart_known _ c' (holds_after_write c' He') Hk')
    as (view & Ev & _).
  unfold bind at 1. rewrite Ev. reflexivity.
Qed.

Lemma add_known (st : storage) (c : cart) (p : product) :
  holds st c ->
  Forall (fun it => find_product PRODUCTS (id it) <> None) c ->
  In p PRODUCTS ->
  let c' := match find (fun x => str_eqb (id x) (pid p)) c with
            | Some _ => incremented (pid p) c
            | None => c ++ [{| id := pid p; qty := 1 |}]
            end in
  (addToCart (pid p) ;; renderCart ;; ret tt) st
  = (Normal tt, Some (JSON_stringify c')) /\
  exact_cart c' /\
  Forall (fun it => find_product PRODUCTS (id it) <> None) c'.
Proof.
  intros H Hk Hp c'. pose proof (holds_exact st c H) as He.
  assert (He' : exact_cart c') by (apply add_exact; exact He).
  assert (Hk' : Forall (fun it => find_product PRODUCTS (id it) <> None) c').
  { subst c'. destruct (find _ c) eqn:E.
    - apply Forall_forall. intros x Hx.
      assert (Hid : In (id x) (map id c)).
      { rewrite <- (map_id_incremented (pid p) c).
        apply in_map. exact Hx. }
      apply in_map_iff in Hid. destruct Hid as (y & Ey & Hy).
      rewrite <- Ey. exact (proj1 (Forall_forall _ _) Hk y Hy).
    - apply Forall_app. split; [exact Hk | ].
      constructor; [ | constructor]. cbn [id].
      apply known_in_catalog. exact Hp. }
  split; [ | split; [exact He' | exact Hk']].
  unfold bind at 1. rewrite (addToCart_holds st c (pid p) H). fold c'.
  destruct (renderCart_known _ c' (holds_after_write c' He') Hk')
    as (view & Ev & _).
  unfold bind at 1. rewrite Ev. reflexivity.
Qed.

Lemma checkout_holds (st : storage) (c : cart) :
  holds st c ->
  checkout st = match c with
                | [] => (Normal msg_empty, st)
                | _ :: _ => (Normal msg_placed, Some (JSON_stringify []))
                end.
Proof.
  intros H. unfold checkout. read_cart st c H.
  destruct c as [| x c]; reflexivity.
Qed.

(** One click keeps the page in step with the storage. *)
Lemma on_click_in_sync (a : click) (pg : page) (c : cart) :
  in_sync pg c -> cart_ok c ->
  fst (on_click a pg) = Normal tt /\
  exists c', in_sync (snd (on_click a pg)) c' /\ cart_ok c'.
Proof.
  intros (H & Hs & Hk) Hok. pose proof (holds_exact _ c H) as He.
  assert (Hsame : in_sync pg c /\ cart_ok c)
    by (split; [split; [exact H | split; [exact Hs | exact Hk]] | exact Hok]).
  assert (Hr : forall key d, (- 2 ^ 53 <= d <= 1)%Z ->
                 Forall (fun l => id l = key -> in_range (qty l) d) c).
  { intros key d Hd. apply range_small; [exact He | exact (proj2 Hok) | ].
    exact Hd. }
  destruct a as [i | i | i |]; cbn [on_click].
  - destruct (nth_error PRODUCTS i) as [p |] eqn:Ep;
      [ | split; [reflexivity | exists c; exact Hsame]].
    apply nth_error_In in Ep.
    destruct (add_known (slot pg) c p H Hk Ep) as (E & He' & Hk').
    unfold with_render. rewrite E. cbn [fst snd].
    split; [reflexivity | ]. eexists. split.
    + split; [apply holds_after_write; exact He' | ]. cbn [slot shown].
      split; [apply rows_of_after_write; exact He' | exact Hk'].
    + apply add_keeps_cart_ok. exact Hok.
  - destruct (nth_error (shown pg) i) as [key |] eqn:Ek;
      [ | split; [reflexivity | exists c; exact Hsame]].
    destruct (changeQty_known (slot pg) c key 1 H
                (Hr key 1%Z ltac:(vm_compute; split; discriminate)) Hk)
      as (E & He' & Hk').
    unfold with_render. rewrite E. cbn [fst snd].
    split; [reflexivity | ]. eexists. split.
    + split; [apply holds_after_write; exact He' | ]. cbn [slot shown].
      split; [apply rows_of_after_write; exact He' | exact Hk'].
    + apply change_keeps_cart_ok. exact (proj1 Hok).
  - destruct (nth_error (shown pg) i) as [key |] eqn:Ek;
      [ | split; [reflexivity | exists c; exact Hsame]].
    destruct (changeQty_known (slot pg) c key (-1) H
                (Hr key (-1)%Z ltac:(vm_compute; split; discriminate)) Hk)
      as (E & He' & Hk').
    unfold with_render. rewrite E. cbn [fst snd].
    split; [reflexivity | ]. eexists. split.
    + split; [apply holds_after_write; exact He' | ]. cbn [slot shown].
      split; [apply rows_of_after_write; exact He' | exact Hk'].
    + apply change_keeps_cart_ok. exact (proj1 Hok).
  - rewrite (checkout_holds (slot pg) c H).
    destruct c as [| x c]; cbn [fst snd].
    + split; [reflexivity | ]. exists [].
      change (str_eqb msg_empty msg_placed) with false. cbv iota.
      destruct pg as [st sh]. exact Hsame.
    + split; [reflexivity | ]. exists [].
      change (str_eqb msg_placed msg_placed) with true. cbv iota.
      split; [ | split; constructor].
      split; [apply holds_after_write; constructor | ]. cbn [slot shown].
      split; [apply rows_of_after_write; constructor | constructor].
Qed.

(** X18: from an empty storage, whatever buttons of the supplies page are
    clicked ([Add to cart] of a product, [+] and [-] of a row, checkout), no
    handler throws; afterwards the rows on the page are those of the stored
    cart, every line names a product of [PRODUCTS] with a positive quantity
    and no id twice, and [renderCart] shows the total of that cart. *)
Theorem session_never_throws :
  forall clicks : list click,
    Forall (fun r => r = Normal tt) (fst (session clicks fresh_page)) /\
    exists c,
      in_sync (snd (session clicks fresh_page)) c /\ cart_ok c /\
      exists view,
        renderCart (slot (snd (session clicks fresh_page)))
        = (Normal view, slot (snd (session clicks fresh_page))) /\
        view_total view = computeTotal_spec PRODUCTS c.
Proof.
  intros clicks.
  assert (G : forall (clicks : list click) (pg : page) (c : cart),
             in_sync pg c -> cart_ok c ->
             Forall (fun r => r = Normal tt) (fst (session clicks pg)) /\
             exists c', in_sync (snd (session clicks pg)) c' /\ cart_ok c').
  { clear clicks. induction clicks as [| a clicks IH]; intros pg c Hs Hok.
    - cbn. split; [constructor | exists c; split; assumption].
    - cbn [session].
      destruct (on_click_in_sync a pg c Hs Hok) as (Hr & c1 & Hs1 & Hok1).
      destruct (on_click a pg) as [r pg1]. cbn [fst snd] in Hr, Hs1.
      destruct (IH pg1 c1 Hs1 Hok1) as (Hrs & c2 & Hs2 & Hok2).
      destruct (session clicks pg1) as [rs pg2]. cbn [fst snd] in *.
      split; [constructor; assumption | exists c2; split; assumption]. }
  destruct (G clicks fresh_page []) as (Hrs & c & Hs & Hok).
  - split; [exact holds_absent | split; [reflexivity | constructor]].
  - split; constructor.
  - split; [exact Hrs | ]. exists c. split; [exact Hs | ].
    split; [exact Hok | ].
    destruct Hs as (H & _ & Hk).
    apply renderCart_known; assumption.
Qed.

(** The digits [dec_digits] writes: digits only, and as many as the number
    needs. *)
Lemma dec_digits_all :
  forall (f : nat) (n : N) (acc : jsstring),
    n < 10 ^ N.of_nat f ->
    exists ds,
      dec_digits f n acc = ds ++ acc /\
      Forall (fun c => is_digit c = true) ds /\
      n < 10 ^ N.of_nat (List.length ds).
Proof.
  induction f as [| f IH]; intros n acc Hlt.
  - exists []. cbn in Hlt |- *. repeat split; [constructor | exact Hlt].
  - cbn [dec_digits].
    assert (Hd : is_digit (48 + n mod 10) = true).
    { apply is_digit_offset. apply N.mod_lt. discriminate. }
    destruct (N.ltb_spec n 10) as [Hs | Hb].
    + exists [48 + n mod 10]. split; [reflexivity | ].
      split; [constructor; [exact Hd | constructor] | exact Hs].
    + assert (Hq : n / 10 < 10 ^ N.of_nat f).
      { apply N.Div0.div_lt_upper_bound.
        rewrite Nat2N.inj_succ, N.pow_succ_r' in Hlt. exact Hlt. }
      destruct (IH (n / 10) ((48 + n mod 10) :: acc) Hq)
        as (ds & E & Hds & Hn).
      exists (ds ++ [48 + n mod 10]). split; [ | split].
      * rewrite E, <- app_assoc. reflexivity.
      * apply Forall_app. split; [exact Hds | ].
        constructor; [exact Hd | constructor].
      * rewrite length_app. cbn [List.length].
        rewrite Nat.add_1_r, Nat2N.inj_succ, N.pow_succ_r'.
        pose proof (N.div_mod n 10 ltac:(discriminate)) as Hdm.
        pose proof (N.mod_lt n 10 ltac:(discriminate)) as Hml.
        set (q := n / 10) in *. set (t := n mod 10) in *.
        set (P := 10 ^ N.of_nat (List.length ds)) in *.
        clearbody q t P. lia.
Qed.

(** X19: every reference [makeRef] can produce is a tracking number that
    [fakeTracking] accepts: for each number below 1 that [Math.random()]
    may return, the reference is [SS] followed by at least six digits, and
    tracking it gives the five-step timeline with progress 82. *)
Theorem makeRef_is_tracked :
  forall r : number,
    random_value r ->
    exists ref,
      makeRef r = Some ref /\
      tracking_number_ok ref = true /\
      tracking_progress (fakeTracking ref) = 82%Z /\
      List.length (steps (fakeTracking ref)) = 5%nat.
Proof.
  intros r Hr.
  destruct (random_reference_number r Hr) as (m & e & Ey & He & Hm).
  destruct (floor_Z_between m e He Hm) as (n & En & Hn).
  assert (Hn' : (67108864 <= n <= 2147483648)%Z) by exact Hn.
  unfold makeRef. rewrite Ey. cbn [floor_text]. rewrite En.
  assert (Habs : exact_integer n = true).
  { apply exact_integer_spec.
    change (2 ^ 53)%Z with 9007199254740992%Z. lia. }
  rewrite Habs.
  unfold Number_toString.
  assert (Hsign : (n <? 0)%Z = false) by (apply Z.ltb_ge; lia).
  rewrite Hsign.
  assert (HN : 100000 <= Z.abs_N n) by lia.
  destruct (dec_digits_all (S (N.to_nat (N.log2 (Z.abs_N n)))) (Z.abs_N n) [])
    as (ds & E & Hds & Hlen).
  { apply enough_digits. lia. }
  rewrite E, app_nil_r.
  assert (Hok : tracking_number_ok (u "SS" ++ ds) = true).
  { change (u "SS" ++ ds) with (83 :: 83 :: ds).
    cbn [tracking_number_ok]. change (83 =? 83) with true. cbn [andb].
    apply andb_true_iff. split.
    - apply forallb_forall. intros c Hc.
      exact (proj1 (Forall_forall _ _) Hds c Hc).
    - apply Nat.leb_le. apply Nat.nlt_ge. intros Hshort.
      assert (Hp : 10 ^ N.of_nat (List.length ds) <= 10 ^ 5).
      { apply N.pow_le_mono_r; [discriminate | lia]. }
      change (10 ^ 5) with 100000 in Hp. lia. }
  eexists. split; [reflexivity | ]. split; [exact Hok | ].
  unfold fakeTracking. rewrite Hok. split; reflexivity.
Qed.

Lemma makeRef_is_tracked_witness :
  random_value (lit 5 1) /\
  exists ref, makeRef (lit 5 1) = Some ref /\
              tracking_number_ok ref = true.
Proof.
  assert (H : random_value (lit 5 1))
    by (repeat split; vm_compute; reflexivity).
  split; [exact H | ].
  destruct (makeRef_is_tracked (lit 5 1) H) as (ref & E & Hok & _).
  exists ref. split; [exact E | exact Hok].
Defined.
